(** * Expense tracker backend: balance, default-flag, deletion-guard,
      summary and category rules

    A shallow embedding of the NestJS services
    [PaymentMethodsService], [CategoriesService] and [ExpensesService]
    together with the properties that the specification states about
    them.

    Modelling conventions.
    - A TypeORM repository is a finite map from the primary key [id] to
      the remaining columns of the row; an entity object is the pair of
      its [id] and its row.  The database-managed timestamps
      [createdAt]/[updatedAt] are not represented.
    - An [async] method is a function in the monad [M]: it threads the
      database and the cache and either returns a value or throws.  What
      was written before a [throw] stays written (there is no
      transaction in the source).
    - A JavaScript [number] that is known to be finite is an exact
      rational ([Qc]); where the source can produce [NaN] or an
      infinity, the type [number] adds these values.  Binary rounding is
      not represented.
    - The identifier that [@PrimaryGeneratedColumn('uuid')] produces on
      insert is an extra argument [newId] of the creating operations; an
      identifier that is already taken violates the primary key.
    - A [decimal(15,2)] column stores what is written to it rounded to
      two decimals, and refuses a value that does not fit; the entity
      object that [save] returns keeps the number that was written.
    - [repository.save] of a loaded entity compares the entity with the
      row and writes the columns that differ.  The join column of a
      relation that is loaded with the entity is taken from the relation
      object, not from the scalar property beside it.
    - Of the database constraints the primary keys and the unique
      indexes on (userId, name) are represented; the foreign keys are
      not.
    - Strings are compared byte by byte where the database sorts them
      (the collation of the database is not represented).
    - Methods that only read and that no property below concerns
      (the paginated [findAll] of expenses, the two [findAllWithStats],
      the body of the [findAll] of payment methods) are left out. *)

From Stdlib Require Import QArith Qcanon Sorted.
From stdpp Require Import gmap strings list fin_maps numbers.

Local Open Scope string_scope.

(** ** JavaScript numbers *)

Inductive number : Type :=
| Fin (q : Qc)
| NaN
| PosInfinity
| NegInfinity.

#[global] Instance number_eq_dec : EqDecision number.
Proof. solve_decision. Defined.

Definition Qc_pos (q : Qc) : bool := bool_decide (0 < q)%Qc.
Definition Qc_neg (q : Qc) : bool := bool_decide (q < 0)%Qc.
Definition Qc_zero (q : Qc) : bool := bool_decide (q = 0%Qc).

(** [a - b] *)
Definition number_sub (a b : number) : number :=
  match a, b with
  | Fin x, Fin y => Fin (x - y)
  | NaN, _ | _, NaN => NaN
  | PosInfinity, PosInfinity | NegInfinity, NegInfinity => NaN
  | PosInfinity, _ | _, NegInfinity => PosInfinity
  | NegInfinity, _ | _, PosInfinity => NegInfinity
  end.

Definition signed_infinity (positive_sign : bool) : number :=
  if positive_sign then PosInfinity else NegInfinity.

(** [a * b] *)
Definition number_mul (a b : number) : number :=
  match a, b with
  | Fin x, Fin y => Fin (x * y)
  | NaN, _ | _, NaN => NaN
  | PosInfinity, Fin y | Fin y, PosInfinity =>
      if Qc_zero y then NaN else signed_infinity (Qc_pos y)
  | NegInfinity, Fin y | Fin y, NegInfinity =>
      if Qc_zero y then NaN else signed_infinity (Qc_neg y)
  | PosInfinity, PosInfinity | NegInfinity, NegInfinity => PosInfinity
  | PosInfinity, NegInfinity | NegInfinity, PosInfinity => NegInfinity
  end.

(** [a / b]; a zero divisor is the positive zero, which is the only zero
    that [x || 0] and a parsed decimal can yield. *)
Definition number_div (a b : number) : number :=
  match a, b with
  | Fin x, Fin y =>
      if Qc_zero y
      then (if Qc_zero x then NaN else signed_infinity (Qc_pos x))
      else Fin (x / y)
  | NaN, _ | _, NaN => NaN
  | Fin _, (PosInfinity | NegInfinity) => Fin 0
  | (PosInfinity | NegInfinity), (PosInfinity | NegInfinity) => NaN
  | PosInfinity, Fin y => signed_infinity (negb (Qc_neg y))
  | NegInfinity, Fin y => signed_infinity (Qc_neg y)
  end.

(** [a > b] *)
Definition number_gt (a b : number) : bool :=
  match a, b with
  | Fin x, Fin y => bool_decide (y < x)%Qc
  | NaN, _ | _, NaN => false
  | PosInfinity, PosInfinity | NegInfinity, NegInfinity => false
  | PosInfinity, _ | _, NegInfinity => true
  | NegInfinity, _ | _, PosInfinity => false
  end.

(** Truthiness of a number: [NaN] and [0] are falsy. *)
Definition number_truthy (a : number) : bool :=
  match a with
  | Fin x => negb (Qc_zero x)
  | NaN => false
  | PosInfinity | NegInfinity => true
  end.

(** [a || 0] *)
Definition or_zero (a : number) : number :=
  if number_truthy a then a else Fin 0.

(** [parseFloat] of an aggregate column of a raw row: SQL [NULL] gives
    [NaN], a decimal gives its value. *)
Definition parseFloat (raw : option Qc) : number :=
  match raw with
  | Some q => Fin q
  | None => NaN
  end.

(** Truthiness of a string: only the empty string is falsy. *)
Definition string_truthy (s : string) : bool := negb (String.eqb s "").

(** Truthiness of an optional string property ([undefined] is falsy). *)
Definition opt_truthy (o : option string) : bool :=
  match o with
  | Some s => string_truthy s
  | None => false
  end.

(** ** Calendar dates

    A value of a [date] column, and the calendar day of a JavaScript
    [Date].  The month windows of [getSummary] start at 00:00:00.000 of
    the first day and end at 23:59:59.999 of the last day, so whether a
    [date] column lies in a window depends on calendar days only. *)

Record Date : Type := mkDate { year : Z; month : Z; day : Z }.

#[global] Instance Date_eq_dec : EqDecision Date.
Proof. solve_decision. Defined.

Definition isLeapYear (y : Z) : bool :=
  ((y mod 4 =? 0) && negb (y mod 100 =? 0) || (y mod 400 =? 0))%Z.

Definition getDaysInMonth (y m : Z) : Z :=
  if (m =? 2)%Z then (if isLeapYear y then 29 else 28)%Z
  else if ((m =? 4) || (m =? 6) || (m =? 9) || (m =? 11))%Z then 30%Z
  else 31%Z.

Definition startOfMonth (d : Date) : Date :=
  mkDate (year d) (month d) 1.

Definition endOfMonth (d : Date) : Date :=
  mkDate (year d) (month d) (getDaysInMonth (year d) (month d)).

(** date-fns [subMonths]: the day is clamped to the length of the target
    month. *)
Definition subMonths (d : Date) (amount : Z) : Date :=
  let months := (year d * 12 + (month d - 1) - amount)%Z in
  let y := (months / 12)%Z in
  let m := (months mod 12 + 1)%Z in
  mkDate y m (Z.min (day d) (getDaysInMonth y m)).

Definition date_leb (a b : Date) : bool :=
  ((year a <? year b)
   || ((year a =? year b)
       && ((month a <? month b)
           || ((month a =? month b) && (day a <=? day b)))))%Z.

(** SQL [x BETWEEN lo AND hi] *)
Definition date_between (x lo hi : Date) : bool :=
  date_leb lo x && date_leb x hi.

(** ** Exceptions *)

Inductive Exception : Type :=
| NotFoundException (message : string)
| ConflictException (message : string)
| BadRequestException (message : string)
| QueryFailedError (message : string)
| TypeORMError (message : string)
| StorageError (message : string).

#[global] Instance Exception_eq_dec : EqDecision Exception.
Proof. solve_decision. Defined.

Inductive result (A : Type) : Type :=
| Ok (value : A)
| Throw (e : Exception).
Arguments Ok {A} value.
Arguments Throw {A} e.

(** ** [decimal(15,2)] columns

    What PostgreSQL stores for a value written to a [decimal(15,2)]
    column: the value rounded to two decimals, ties away from zero; a
    rounded value with more than 13 digits before the decimal point is
    refused. *)

Definition numeric_overflow : Exception :=
  QueryFailedError "numeric field overflow".

(** The rounded value in hundredths. *)
Definition cents (q : Qc) : Z :=
  let n := Qnum (this q) in
  let d := Z.pos (Qden (this q)) in
  (Z.sgn n * ((Z.abs n * 200 + d) / (2 * d)))%Z.

Definition toDecimal (q : Qc) : result Qc :=
  if (Z.abs (cents q) <? 10 ^ 15)%Z
  then Ok (Q2Qc (cents q # 100))
  else Throw numeric_overflow.

(** The value of a decimal column after [save]: the [UPDATE] writes the
    column only if the entity differs from the row in it.  [stored] is
    the value in the row, [None] when the row is new. *)
Definition storedDecimal (stored : option Qc) (value : Qc) : result Qc :=
  match stored with
  | Some s => if bool_decide (value = s) then Ok s else toDecimal value
  | None => toDecimal value
  end.

(** ** Entities (rows without their primary key) *)

Module Category.
Record t : Type := mk {
    name : string;
    description : option string;
    icon : option string;
    color : string;
    isSystem : bool;
    orderIndex : Z;
    userId : option string;
  }.

Definition set_orderIndex (i : Z) (c : t) : t :=
    mk (name c) (description c) (icon c) (color c) (isSystem c) i (userId c).
End Category.

Inductive PaymentMethodType : Type :=
| CASH | DEBIT_CARD | CREDIT_CARD | TRANSFER | DIGITAL_WALLET.

Module PaymentMethod.
Record t : Type := mk {
    name : string;
    type : PaymentMethodType;
    lastFourDigits : option string;
    bankName : option string;
    icon : option string;
    color : option string;
    balance : Qc;
    creditLimit : option Qc;
    expirationDate : option Date;
    isActive : bool;
    isDefault : bool;
    userId : string;
  }.

Definition set_balance (b : Qc) (p : t) : t :=
    mk (name p) (type p) (lastFourDigits p) (bankName p) (icon p) (color p)
       b (creditLimit p) (expirationDate p) (isActive p) (isDefault p)
       (userId p).

Definition set_isDefault (b : bool) (p : t) : t :=
    mk (name p) (type p) (lastFourDigits p) (bankName p) (icon p) (color p)
       (balance p) (creditLimit p) (expirationDate p) (isActive p) b
       (userId p).

Definition set_decimals (b : Qc) (limit : option Qc) (p : t) : t :=
    mk (name p) (type p) (lastFourDigits p) (bankName p) (icon p) (color p)
       b limit (expirationDate p) (isActive p) (isDefault p) (userId p).
End PaymentMethod.

Inductive ExpenseSource : Type := MANUAL | VOICE | OCR.

Module Expense.
Record t : Type := mk {
    amount : Qc;
    description : string;
    notes : option string;
    date : Date;
    source : ExpenseSource;
    receiptUrl : option string;
    receiptS3Key : option string;
    ocrData : option string;
    voiceTranscription : option string;
    voiceAudioUrl : option string;
    voiceAudioS3Key : option string;
    userId : string;
    categoryId : string;
    paymentMethodId : string;
  }.

Definition set_amount (a : Qc) (e : t) : t :=
    mk a (description e) (notes e) (date e) (source e) (receiptUrl e)
       (receiptS3Key e) (ocrData e) (voiceTranscription e) (voiceAudioUrl e)
       (voiceAudioS3Key e) (userId e) (categoryId e) (paymentMethodId e).

Definition set_joinColumns (category paymentMethod : string) (e : t) : t :=
    mk (amount e) (description e) (notes e) (date e) (source e)
       (receiptUrl e) (receiptS3Key e) (ocrData e) (voiceTranscription e)
       (voiceAudioUrl e) (voiceAudioS3Key e) (userId e)
       category paymentMethod.
End Expense.

#[global] Instance PaymentMethodType_eq_dec : EqDecision PaymentMethodType.
Proof. solve_decision. Defined.
#[global] Instance ExpenseSource_eq_dec : EqDecision ExpenseSource.
Proof. solve_decision. Defined.
#[global] Instance Category_eq_dec : EqDecision Category.t.
Proof. solve_decision. Defined.
#[global] Instance PaymentMethod_eq_dec : EqDecision PaymentMethod.t.
Proof. solve_decision. Defined.
#[global] Instance Expense_eq_dec : EqDecision Expense.t.
Proof. solve_decision. Defined.

(** An entity object: primary key and row. *)
Definition Entity (R : Type) : Type := (string * R)%type.

(** ** Data transfer objects

    A property that [PartialType] makes optional is an [option]; [None]
    is an absent property. *)

Module CreatePaymentMethodDto.
Record t : Type := mk {
    name : string;
    type : PaymentMethodType;
    lastFourDigits : option string;
    bankName : option string;
    icon : option string;
    color : option string;
    balance : option Qc;
    creditLimit : option Qc;
    expirationDate : option Date;
    isDefault : option bool;
  }.
End CreatePaymentMethodDto.

Module UpdatePaymentMethodDto.
Record t : Type := mk {
    name : option string;
    type : option PaymentMethodType;
    lastFourDigits : option string;
    bankName : option string;
    icon : option string;
    color : option string;
    balance : option Qc;
    creditLimit : option Qc;
    expirationDate : option Date;
    isDefault : option bool;
    isActive : option bool;
  }.
End UpdatePaymentMethodDto.

Module CreateExpenseDto.
Record t : Type := mk {
    amount : Qc;
    description : string;
    notes : option string;
    date : Date;
    categoryId : string;
    paymentMethodId : string;
  }.
End CreateExpenseDto.

Module UpdateExpenseDto.
Record t : Type := mk {
    amount : option Qc;
    description : option string;
    notes : option string;
    date : option Date;
    categoryId : option string;
    paymentMethodId : option string;
  }.
End UpdateExpenseDto.

(** The uploaded file of a multipart request, as far as the services
    look at it. *)
Record MulterFile : Type := mkFile {
  originalname : string;
  mimetype : string;
  size : Z;
}.

(** Argument of [ExpensesService.createFromOcr] *)
Module OcrExpenseData.
Record t : Type := mk {
    amount : Qc;
    description : string;
    date : Date;
    paymentMethodId : string;
    categoryId : string;
    ocrData : option string;
    receiptImage : MulterFile;
  }.
End OcrExpenseData.

(** Argument of [ExpensesService.createFromVoice] *)
Module VoiceExpenseData.
Record t : Type := mk {
    amount : Qc;
    description : string;
    date : Date;
    paymentMethodId : string;
    categoryId : string;
    transcription : string;
    audioFile : option MulterFile;
  }.
End VoiceExpenseData.

Module CategoryBreakdown.
Record t : Type := mk {
    categoryId : option string;
    categoryName : option string;
    categoryColor : option string;
    count : Z;
    total : number;
    percentage : number;
  }.
End CategoryBreakdown.

Module PaymentMethodBreakdown.
Record t : Type := mk {
    paymentMethodId : option string;
    paymentMethodName : option string;
    count : Z;
    total : number;
    percentage : number;
  }.
End PaymentMethodBreakdown.

Module ExpenseSummaryDto.
Record t : Type := mk {
    totalExpenses : Z;
    totalAmount : number;
    averageExpense : number;
    currentMonthTotal : number;
    lastMonthTotal : number;
    percentageChange : number;
    byCategory : list CategoryBreakdown.t;
    byPaymentMethod : list PaymentMethodBreakdown.t;
  }.
End ExpenseSummaryDto.

(** ** The world: three repositories and the shared cache *)

(** A cached value.  Every key is written by one method only
    ([getSummary] or [CategoriesService.findAll]), so what is read under
    a key has the constructor of that method; a value of the other
    constructor is a miss. *)
Inductive CacheValue : Type :=
| CachedSummary (summary : ExpenseSummaryDto.t)
| CachedCategories (categories : list (Entity Category.t)).

Record World : Type := mkWorld {
  categoryRepository : gmap string Category.t;
  paymentMethodRepository : gmap string PaymentMethod.t;
  expenseRepository : gmap string Expense.t;
  cacheManager : gmap string CacheValue;
}.

Definition set_categoryRepository
    (f : gmap string Category.t → gmap string Category.t) (w : World) : World :=
  mkWorld (f (categoryRepository w)) (paymentMethodRepository w)
          (expenseRepository w) (cacheManager w).

Definition set_paymentMethodRepository
    (f : gmap string PaymentMethod.t → gmap string PaymentMethod.t)
    (w : World) : World :=
  mkWorld (categoryRepository w) (f (paymentMethodRepository w))
          (expenseRepository w) (cacheManager w).

Definition set_expenseRepository
    (f : gmap string Expense.t → gmap string Expense.t) (w : World) : World :=
  mkWorld (categoryRepository w) (paymentMethodRepository w)
          (f (expenseRepository w)) (cacheManager w).

Definition set_cacheManager
    (f : gmap string CacheValue → gmap string CacheValue) (w : World) : World :=
  mkWorld (categoryRepository w) (paymentMethodRepository w)
          (expenseRepository w) (f (cacheManager w)).

(** ** The monad of service methods *)

Definition M (A : Type) : Type := World → World * result A.

#[global] Instance M_ret : MRet M := λ A a w, (w, Ok a).

#[global] Instance M_bind : MBind M := λ A B f m w,
  match m w with
  | (w', Ok a) => f a w'
  | (w', Throw e) => (w', Throw e)
  end.

Definition throw {A} (e : Exception) : M A := λ w, (w, Throw e).
Definition get_world : M World := λ w, (w, Ok w).
Definition modify_world (f : World → World) : M unit := λ w, (f w, Ok tt).

(** Lift the outcome of a collaborator that does not touch the world. *)
Definition lift_result {A} (r : result A) : M A := λ w, (w, r).

(** ** Repository and cache primitives *)

(** All rows as entities, in the order of the table scan. *)
Definition rows {R} (table : gmap string R) : list (Entity R) :=
  map_to_list table.

(** [repository.findOne({ where })] for a condition that is not the
    primary key: the first row of the scan that satisfies it. *)
Definition findOneWhere {R} (cond : Entity R → bool) (table : gmap string R)
    : option (Entity R) :=
  snd <$> list_find (λ r, cond r = true) (rows table).

(** [repository.update(criteria, partial)] *)
Definition updateWhere {R} (cond : R → bool) (f : R → R) (table : gmap string R)
    : gmap string R :=
  (λ r, if cond r then f r else r) <$> table.

(** [ORDER BY]: a stable insertion sort for the order [leb]. *)
Fixpoint insert_sorted {A} (leb : A → A → bool) (x : A) (l : list A)
    : list A :=
  match l with
  | [] => [x]
  | y :: l' => if leb x y then x :: l else y :: insert_sorted leb x l'
  end.

Definition sort_by {A} (leb : A → A → bool) (l : list A) : list A :=
  foldr (insert_sorted leb) [] l.

(** [primary LEFT JOIN related ON on]: a primary row without a related
    row appears once, padded with [None]. *)
Definition leftJoin {A B} (on : A → B → bool) (primary : list A)
    (related : list B) : list (A * option B) :=
  flat_map (λ a,
      match filter (λ b, on a b = true) related with
      | [] => [(a, None)]
      | matched => (λ b, (a, Some b)) <$> matched
      end) primary.

(** [queryBuilder.getCount()]: the number of distinct primary entities
    among the joined rows ([COUNT(DISTINCT primary.id)]). *)
Definition getCount {R B} (joined : list (Entity R * option B)) : nat :=
  length (remove_dups ((λ row, fst (fst row)) <$> joined)).

(** Relations that the entity classes declare, by property name.  The
    [Category] entity declares [user] only: its inverse side [expenses]
    is commented out.  [PaymentMethod] declares [user] and [expenses]. *)
Definition Category_relations : list string := ["user"].
Definition PaymentMethod_relations : list string := ["user"; "expenses"].

(** [queryBuilder.leftJoin('alias.property', ...)] resolves the property
    in the metadata of the entity and throws when there is no such
    relation. *)
Definition resolveRelation (declared : list string) (property : string)
    : M unit :=
  if bool_decide (property ∈ declared)
  then mret tt
  else throw (TypeORMError
                ("Relation with property path " +:+ property
                 +:+ " in entity was not found.")).

Definition cache_del (key : string) : M unit :=
  modify_world (set_cacheManager (delete key)).

Definition cache_set (key : string) (v : CacheValue) : M unit :=
  modify_world (set_cacheManager (<[key := v]>)).

Definition cache_get (key : string) : M (option CacheValue) :=
  λ w, (w, Ok (cacheManager w !! key)).

(** [Object.assign] for one property: a property present in the source
    object overwrites the target's. *)
Definition assign {A} (new : option A) (old : A) : A := default old new.

(** [Object.assign] for one nullable column. *)
Definition assign_nullable {A} (new : option A) (old : option A) : option A :=
  match new with
  | Some _ => new
  | None => old
  end.

Definition duplicate_key : Exception :=
  QueryFailedError "duplicate key value violates unique constraint".

(** ** PaymentMethodsService *)

Inductive BalanceOperation : Type := add | subtract.

Module PaymentMethodsService.

Definition not_found : Exception :=
  NotFoundException "Método de pago no encontrado".
Definition name_conflict : Exception :=
  ConflictException "Ya existe un método de pago con ese nombre".
Definition has_expenses : Exception :=
  BadRequestException
    "No se puede eliminar un método de pago que tiene gastos asociados".

(** [paymentMethodRepository.findOne({ where: { name, userId } })] *)
Definition findByName (name userId : string) (w : World)
    : option (Entity PaymentMethod.t) :=
  findOneWhere
    (λ r, String.eqb (PaymentMethod.name r.2) name
          && String.eqb (PaymentMethod.userId r.2) userId)
    (paymentMethodRepository w).

(** [paymentMethodRepository.update({ userId, isDefault: true },
    { isDefault: false })] *)
Definition clearDefault (userId : string) : M unit :=
  modify_world (set_paymentMethodRepository
    (updateWhere
       (λ p, String.eqb (PaymentMethod.userId p) userId
             && PaymentMethod.isDefault p)
       (PaymentMethod.set_isDefault false))).

(** [@Index(['userId', 'name'], { unique: true })] of the entity:
    whether a row other than [id] has the owner and the name of [row]. *)
Definition violatesIndex (id : string) (row : PaymentMethod.t) (w : World)
    : bool :=
  match findOneWhere
          (λ r, negb (String.eqb r.1 id)
                && String.eqb (PaymentMethod.name r.2) (PaymentMethod.name row)
                && String.eqb (PaymentMethod.userId r.2)
                     (PaymentMethod.userId row))
          (paymentMethodRepository w) with
  | Some _ => true
  | None => false
  end.

(** The row that the database holds after the entity [p] was saved:
    [balance] and [creditLimit] are [decimal(15,2)] columns.  [loaded] is
    the row before, [None] for an insert. *)
Definition toStore (loaded : option PaymentMethod.t) (p : PaymentMethod.t)
    : result PaymentMethod.t :=
  match storedDecimal (PaymentMethod.balance <$> loaded)
          (PaymentMethod.balance p) with
  | Throw e => Throw e
  | Ok balance =>
      match PaymentMethod.creditLimit p with
      | None => Ok (PaymentMethod.set_decimals balance None p)
      | Some limit =>
          match storedDecimal (loaded ≫= PaymentMethod.creditLimit) limit with
          | Throw e => Throw e
          | Ok creditLimit =>
              Ok (PaymentMethod.set_decimals balance (Some creditLimit) p)
          end
      end
  end.

(** [save] of an entity that has no [id] yet: an insert under the
    generated key.  The returned object keeps the numbers of the
    entity. *)
Definition insert (newId : string) (row : PaymentMethod.t)
    : M (Entity PaymentMethod.t) := λ w,
  match toStore None row with
  | Throw e => (w, Throw e)
  | Ok stored =>
      match paymentMethodRepository w !! newId with
      | Some _ => (w, Throw duplicate_key)
      | None =>
          if violatesIndex newId stored w then (w, Throw duplicate_key)
          else (set_paymentMethodRepository (<[newId := stored]>) w,
                Ok (newId, row))
      end
  end.

(** Whether [save] writes the [name] column. *)
Definition renames (loaded : option PaymentMethod.t) (p : PaymentMethod.t)
    : bool :=
  match loaded with
  | Some row => negb (String.eqb (PaymentMethod.name row) (PaymentMethod.name p))
  | None => true
  end.

(** [save] of a loaded entity: the columns in which the entity differs
    from the row under its key are written. *)
Definition save (entity : Entity PaymentMethod.t)
    : M (Entity PaymentMethod.t) := λ w,
  let loaded := paymentMethodRepository w !! entity.1 in
  match toStore loaded entity.2 with
  | Throw e => (w, Throw e)
  | Ok stored =>
      if renames loaded stored && violatesIndex entity.1 stored w
      then (w, Throw duplicate_key)
      else (set_paymentMethodRepository (<[entity.1 := stored]>) w, Ok entity)
  end.

(** [paymentMethodRepository.create({ ...dto, userId })], with the column
    defaults of the entity for what the DTO leaves out. *)
Definition fromCreateDto (userId : string) (dto : CreatePaymentMethodDto.t)
    : PaymentMethod.t :=
  PaymentMethod.mk
    (CreatePaymentMethodDto.name dto)
    (CreatePaymentMethodDto.type dto)
    (CreatePaymentMethodDto.lastFourDigits dto)
    (CreatePaymentMethodDto.bankName dto)
    (CreatePaymentMethodDto.icon dto)
    (CreatePaymentMethodDto.color dto)
    (default 0%Qc (CreatePaymentMethodDto.balance dto))
    (CreatePaymentMethodDto.creditLimit dto)
    (CreatePaymentMethodDto.expirationDate dto)
    true
    (default false (CreatePaymentMethodDto.isDefault dto))
    userId.

(** [Object.assign(paymentMethod, updatePaymentMethodDto)] *)
Definition assignDto (dto : UpdatePaymentMethodDto.t) (p : PaymentMethod.t)
    : PaymentMethod.t :=
  PaymentMethod.mk
    (assign (UpdatePaymentMethodDto.name dto) (PaymentMethod.name p))
    (assign (UpdatePaymentMethodDto.type dto) (PaymentMethod.type p))
    (assign_nullable (UpdatePaymentMethodDto.lastFourDigits dto)
       (PaymentMethod.lastFourDigits p))
    (assign_nullable (UpdatePaymentMethodDto.bankName dto)
       (PaymentMethod.bankName p))
    (assign_nullable (UpdatePaymentMethodDto.icon dto) (PaymentMethod.icon p))
    (assign_nullable (UpdatePaymentMethodDto.color dto)
       (PaymentMethod.color p))
    (assign (UpdatePaymentMethodDto.balance dto) (PaymentMethod.balance p))
    (assign_nullable (UpdatePaymentMethodDto.creditLimit dto)
       (PaymentMethod.creditLimit p))
    (assign_nullable (UpdatePaymentMethodDto.expirationDate dto)
       (PaymentMethod.expirationDate p))
    (assign (UpdatePaymentMethodDto.isActive dto) (PaymentMethod.isActive p))
    (assign (UpdatePaymentMethodDto.isDefault dto) (PaymentMethod.isDefault p))
    (PaymentMethod.userId p).

Definition create (userId : string) (dto : CreatePaymentMethodDto.t)
    (newId : string) : M (Entity PaymentMethod.t) :=
  w ← get_world;
  match findByName (CreatePaymentMethodDto.name dto) userId w with
  | Some _ => throw name_conflict
  | None =>
      (if default false (CreatePaymentMethodDto.isDefault dto)
       then clearDefault userId else mret tt);;
      saved ← insert newId (fromCreateDto userId dto);
      cache_del ("payment-methods:" +:+ userId);;
      mret saved
  end.

Definition findOne (userId id : string) : M (Entity PaymentMethod.t) := λ w,
  match paymentMethodRepository w !! id with
  | Some p =>
      if String.eqb (PaymentMethod.userId p) userId
      then (w, Ok (id, p))
      else (w, Throw not_found)
  | None => (w, Throw not_found)
  end.

Definition update (userId id : string) (dto : UpdatePaymentMethodDto.t)
    : M (Entity PaymentMethod.t) :=
  paymentMethod ← findOne userId id;
  w ← get_world;
  (match UpdatePaymentMethodDto.name dto with
   | Some name =>
       if string_truthy name
          && negb (String.eqb name (PaymentMethod.name paymentMethod.2))
       then match findByName name userId w with
            | Some _ => throw name_conflict
            | None => mret tt
            end
       else mret tt
   | None => mret tt
   end);;
  (if default false (UpdatePaymentMethodDto.isDefault dto)
   then clearDefault userId else mret tt);;
  updated ← save (paymentMethod.1, assignDto dto paymentMethod.2);
  cache_del ("payment-methods:" +:+ userId +:+ ":true");;
  cache_del ("payment-methods:" +:+ userId +:+ ":false");;
  mret updated.

(** The count query of [remove]:
    [createQueryBuilder('pm').leftJoin('pm.expenses', 'expense')
       .where('pm.id = :id', { id }).getCount()] *)
Definition countWithExpenses (id : string) (w : World) : nat :=
  getCount
    (filter (λ row, row.1.1 = id)
       (leftJoin
          (λ (pm : Entity PaymentMethod.t) (expense : Entity Expense.t),
             String.eqb (Expense.paymentMethodId expense.2) pm.1)
          (rows (paymentMethodRepository w))
          (rows (expenseRepository w)))).

Definition remove (userId id : string) : M unit :=
  paymentMethod ← findOne userId id;
  resolveRelation PaymentMethod_relations "expenses";;
  w ← get_world;
  let hasExpenses := countWithExpenses id w in
  if bool_decide (0 < hasExpenses)
  then throw has_expenses
  else
    modify_world (set_paymentMethodRepository (delete paymentMethod.1));;
    cache_del ("payment-methods:" +:+ userId +:+ ":true");;
    cache_del ("payment-methods:" +:+ userId +:+ ":false").

Definition getDefault (userId : string) : M (option (Entity PaymentMethod.t)) :=
  w ← get_world;
  mret (findOneWhere
          (λ r, String.eqb (PaymentMethod.userId r.2) userId
                && PaymentMethod.isDefault r.2
                && PaymentMethod.isActive r.2)
          (paymentMethodRepository w)).

Definition setDefault (userId id : string) : M (Entity PaymentMethod.t) :=
  paymentMethod ← findOne userId id;
  clearDefault userId;;
  updated ← save (paymentMethod.1,
                  PaymentMethod.set_isDefault true paymentMethod.2);
  cache_del ("payment-methods:" +:+ userId +:+ ":true");;
  cache_del ("payment-methods:" +:+ userId +:+ ":false");;
  mret updated.

(** The key under which [findAll] reads and writes its list:
    [`payment-methods:${userId}:${includeInactive}`] *)
Definition findAll_cacheKey (userId : string) (includeInactive : bool)
    : string :=
  "payment-methods:" +:+ userId +:+ ":"
  +:+ (if includeInactive then "true" else "false").

Definition updateBalance (userId id : string) (amount : Qc)
    (operation : BalanceOperation) : M (Entity PaymentMethod.t) :=
  paymentMethod ← findOne userId id;
  let balance :=
    match operation with
    | add => (PaymentMethod.balance paymentMethod.2 + amount)%Qc
    | subtract => (PaymentMethod.balance paymentMethod.2 - amount)%Qc
    end in
  save (paymentMethod.1, PaymentMethod.set_balance balance paymentMethod.2).

End PaymentMethodsService.

(** ** Category DTOs *)

Module CreateCategoryDto.
Record t : Type := mk {
  name : string;
  description : option string;
  icon : option string;
  color : string;
  orderIndex : option Z;
}.
End CreateCategoryDto.

Module UpdateCategoryDto.
Record t : Type := mk {
  name : option string;
  description : option string;
  icon : option string;
  color : option string;
  orderIndex : option Z;
}.
End UpdateCategoryDto.

(** ** CategoriesService *)

Module CategoriesService.

Definition not_found : Exception :=
  NotFoundException "Categoría no encontrada".
Definition system_category : Exception :=
  BadRequestException "No se pueden eliminar las categorías del sistema".
Definition not_owner : Exception :=
  BadRequestException "No tienes permiso para eliminar esta categoría".
Definition has_expenses : Exception :=
  BadRequestException
    "No se puede eliminar una categoría que tiene gastos asociados".

(** [category.userId === userId] for the nullable column *)
Definition ownedBy (userId : string) (c : Category.t) : bool :=
  bool_decide (Category.userId c = Some userId).

(** [order: { orderIndex: 'ASC', name: 'ASC' }].  The database compares
    names by the collation of the column; here they are compared byte
    by byte, which agrees with the collation "C" but not with a
    language-aware one.  The order of [orderIndex] does not depend on
    it, and nothing below relies on the order of two names. *)
Definition category_leb (a b : Entity Category.t) : bool :=
  ((Category.orderIndex a.2 <? Category.orderIndex b.2)%Z
   || ((Category.orderIndex a.2 =? Category.orderIndex b.2)%Z
       && String.leb (Category.name a.2) (Category.name b.2))).

Definition findAll (userId : string) : M (list (Entity Category.t)) :=
  let cacheKey := "categories:" +:+ userId in
  cached ← cache_get cacheKey;
  match cached with
  | Some (CachedCategories categories) => mret categories
  | _ =>
      w ← get_world;
      let categories :=
        sort_by category_leb
          (filter (λ r, ownedBy userId r.2 || Category.isSystem r.2 = true)
             (rows (categoryRepository w))) in
      cache_set cacheKey (CachedCategories categories);;
      mret categories
  end.

(** [findOne({ where: [{ id, userId }, { id, isSystem: true }] })] *)
Definition findOne (userId id : string) : M (Entity Category.t) := λ w,
  match categoryRepository w !! id with
  | Some c =>
      if ownedBy userId c || Category.isSystem c
      then (w, Ok (id, c))
      else (w, Throw not_found)
  | None => (w, Throw not_found)
  end.

Definition save (entity : Entity Category.t) : M (Entity Category.t) := λ w,
  (set_categoryRepository (<[entity.1 := entity.2]>) w, Ok entity).

(** The count query of [remove]:
    [createQueryBuilder('category').leftJoin('category.expenses', 'expense')
       .where('category.id = :id', { id }).getCount()] *)
Definition countWithExpenses (id : string) (w : World) : nat :=
  getCount
    (filter (λ row, row.1.1 = id)
       (leftJoin
          (λ (category : Entity Category.t) (expense : Entity Expense.t),
             String.eqb (Expense.categoryId expense.2) category.1)
          (rows (categoryRepository w))
          (rows (expenseRepository w)))).

Definition remove (userId id : string) : M unit :=
  category ← findOne userId id;
  if Category.isSystem category.2 then throw system_category
  else if negb (ownedBy userId category.2) then throw not_owner
  else
    resolveRelation Category_relations "expenses";;
    w ← get_world;
    let hasExpenses := countWithExpenses id w in
    if bool_decide (0 < hasExpenses)
    then throw has_expenses
    else
      modify_world (set_categoryRepository (delete category.1));;
      cache_del ("categories:" +:+ userId).

(** The body of the [for] loop of [reorder], from index [i] on. *)
Fixpoint reorder_from (userId : string) (i : nat) (categoryIds : list string)
    : M unit :=
  match categoryIds with
  | [] => mret tt
  | id :: rest =>
      category ← findOne userId id;
      (if ownedBy userId category.2
       then save (category.1, Category.set_orderIndex (Z.of_nat i) category.2);;
            mret tt
       else mret tt);;
      reorder_from userId (S i) rest
  end.

Definition reorder (userId : string) (categoryIds : list string) : M unit :=
  reorder_from userId 0 categoryIds;;
  cache_del ("categories:" +:+ userId).

Definition name_conflict : Exception :=
  ConflictException "Ya existe una categoría con ese nombre".
Definition system_category_edit : Exception :=
  BadRequestException "No se pueden editar las categorías del sistema".
Definition not_owner_edit : Exception :=
  BadRequestException "No tienes permiso para editar esta categoría".

(** [categoryRepository.findOne({ where: { name, userId } })] *)
Definition findByName (name userId : string) (w : World)
    : option (Entity Category.t) :=
  findOneWhere
    (λ r, String.eqb (Category.name r.2) name && ownedBy userId r.2)
    (categoryRepository w).

(** [@Index(['userId', 'name'], { unique: true })] of the entity:
    whether a row other than [id] has the owner and the name of [row].
    PostgreSQL treats NULLs as distinct, so that a row without owner (a
    system category) never conflicts. *)
Definition violatesIndex (id : string) (row : Category.t) (w : World) : bool :=
  match Category.userId row with
  | Some userId =>
      match findOneWhere
              (λ r, negb (String.eqb r.1 id)
                    && String.eqb (Category.name r.2) (Category.name row)
                    && ownedBy userId r.2)
              (categoryRepository w) with
      | Some _ => true
      | None => false
      end
  | None => false
  end.

(** [save] of an entity that has no [id] yet. *)
Definition insert (newId : string) (row : Category.t)
    : M (Entity Category.t) := λ w,
  match categoryRepository w !! newId with
  | Some _ => (w, Throw duplicate_key)
  | None =>
      if violatesIndex newId row w then (w, Throw duplicate_key)
      else (set_categoryRepository (<[newId := row]>) w, Ok (newId, row))
  end.

(** [save] of a loaded entity whose name may have changed (the [save] of
    [reorder] changes [orderIndex] only, which the index does not
    cover). *)
Definition saveRenamed (entity : Entity Category.t)
    : M (Entity Category.t) := λ w,
  if violatesIndex entity.1 entity.2 w then (w, Throw duplicate_key)
  else (set_categoryRepository (<[entity.1 := entity.2]>) w, Ok entity).

Definition create (userId : string) (dto : CreateCategoryDto.t)
    (newId : string) : M (Entity Category.t) :=
  w ← get_world;
  match findByName (CreateCategoryDto.name dto) userId w with
  | Some _ => throw name_conflict
  | None =>
      savedCategory ← insert newId
        (Category.mk
           (CreateCategoryDto.name dto) (CreateCategoryDto.description dto)
           (CreateCategoryDto.icon dto) (CreateCategoryDto.color dto)
           false (default 0%Z (CreateCategoryDto.orderIndex dto))
           (Some userId));
      cache_del ("categories:" +:+ userId);;
      mret savedCategory
  end.

(** [Object.assign(category, updateCategoryDto)] *)
Definition assignDto (dto : UpdateCategoryDto.t) (c : Category.t)
    : Category.t :=
  Category.mk
    (assign (UpdateCategoryDto.name dto) (Category.name c))
    (assign_nullable (UpdateCategoryDto.description dto)
       (Category.description c))
    (assign_nullable (UpdateCategoryDto.icon dto) (Category.icon c))
    (assign (UpdateCategoryDto.color dto) (Category.color c))
    (Category.isSystem c)
    (assign (UpdateCategoryDto.orderIndex dto) (Category.orderIndex c))
    (Category.userId c).

Definition update (userId id : string) (dto : UpdateCategoryDto.t)
    : M (Entity Category.t) :=
  category ← findOne userId id;
  if Category.isSystem category.2 then throw system_category_edit
  else if negb (ownedBy userId category.2) then throw not_owner_edit
  else
    w ← get_world;
    (match UpdateCategoryDto.name dto with
     | Some name =>
         if string_truthy name
            && negb (String.eqb name (Category.name category.2))
         then match findByName name userId w with
              | Some _ => throw name_conflict
              | None => mret tt
              end
         else mret tt
     | None => mret tt
     end);;
    updated ← saveRenamed (category.1, assignDto dto category.2);
    cache_del ("categories:" +:+ userId);;
    mret updated.

(** The catalogue of [createDefaultCategories]: name, icon, color,
    orderIndex. *)
Definition defaultCategories : list (string * string * string * Z) :=
  [ ("Comida", "restaurant", "#FF6B6B", 0%Z);
    ("Transporte", "directions_car", "#4ECDC4", 1%Z);
    ("Entretenimiento", "movie", "#FFA07A", 2%Z);
    ("Compras", "shopping_cart", "#9B59B6", 3%Z);
    ("Salud", "local_hospital", "#2ECC71", 4%Z);
    ("Educación", "school", "#3498DB", 5%Z);
    ("Servicios", "build", "#F39C12", 6%Z);
    ("Otros", "more_horiz", "#95A5A6", 7%Z) ].

(** [categoryRepository.findOne({ where: { name, isSystem: true } })] *)
Definition findSystemByName (name : string) (w : World)
    : option (Entity Category.t) :=
  findOneWhere
    (λ r, String.eqb (Category.name r.2) name && Category.isSystem r.2)
    (categoryRepository w).

(** The [for] loop of [createDefaultCategories]; [newIds i] is the
    identifier that the database generates if the entry at position [i]
    of the catalogue is inserted. *)
Fixpoint seed_from (newIds : nat → string) (i : nat)
    (catalogue : list (string * string * string * Z)) : M unit :=
  match catalogue with
  | [] => mret tt
  | categoryData :: rest =>
      w ← get_world;
      (match findSystemByName categoryData.1.1.1 w with
       | Some _ => mret tt
       | None =>
           insert (newIds i)
             (Category.mk categoryData.1.1.1 None (Some categoryData.1.1.2)
                categoryData.1.2 true categoryData.2 None);;
           mret tt
       end);;
      seed_from newIds (S i) rest
  end.

Definition createDefaultCategories (newIds : nat → string) : M unit :=
  seed_from newIds 0 defaultCategories.

End CategoriesService.

(** ** StorageService, the object-store collaborator

    Its methods reach an S3 endpoint and rethrow whatever the client
    throws, so the services see them as functions that may fail. *)

Module StorageService.
Record UploadResult : Type := mkUpload {
  key : string;
  url : string;
  bucket : string;
  fileName : string;
}.

Record t : Type := mk {
  uploadReceipt : MulterFile → string → result UploadResult;
  uploadVoiceRecording : MulterFile → string → result UploadResult;
  deleteFile : string → result unit;
}.
End StorageService.

(** ** ExpensesService *)

(** SQL [SUM]: [NULL] over no rows. *)
Definition SUM (amounts : list Qc) : option Qc :=
  match amounts with
  | [] => None
  | _ => Some (foldr Qcplus 0%Qc amounts)
  end.

(** SQL [AVG]: [NULL] over no rows. *)
Definition AVG (amounts : list Qc) : option Qc :=
  match amounts with
  | [] => None
  | _ => Some (foldr Qcplus 0%Qc amounts / Qc_of_Z (Z.of_nat (length amounts)))%Qc
  end.

(** One raw row of a [GROUP BY] query of [getSummary]: the id of the
    joined row that the group is formed by, [COUNT(expense.id)] and
    [SUM(expense.amount)]. *)
Record RawGroup : Type := mkRawGroup {
  groupId : option string;
  groupCount : nat;
  groupTotal : option Qc;
}.

(** The [id] of the row that a many-to-one [leftJoin] attaches for the
    foreign key [k]: [NULL] when the referenced row does not exist. *)
Definition joinedKey {R} (table : gmap string R) (k : string) : option string :=
  match table !! k with
  | Some _ => Some k
  | None => None
  end.

(** [leftJoin(relation).groupBy('joined.id').orderBy('total', 'DESC')]:
    [joinedId] gives the key of the joined row of an expense, [None]
    when there is no such row. *)
Definition groupByJoined (joinedId : Expense.t → option string)
    (expenses : list (Entity Expense.t)) : list RawGroup :=
  let groups :=
    (λ k,
       let members := filter (λ e, joinedId e.2 = k) expenses in
       mkRawGroup k (length members)
         (SUM ((λ e, Expense.amount e.2) <$> members)))
    <$> remove_dups ((λ e, joinedId e.2) <$> expenses) in
  sort_by
    (λ a b, bool_decide (default 0%Qc (groupTotal b)
                         ≤ default 0%Qc (groupTotal a))%Qc)
    groups.

Module ExpensesService.
Section WithStorage.
Context (storageService : StorageService.t).

Definition not_found : Exception := NotFoundException "Gasto no encontrado".

Definition invalidateCache (userId : string) : M unit :=
  cache_del ("expenses:summary:" +:+ userId).

(** [save] of an entity that has no [id] yet.  [amount] is a
    [decimal(15,2)] column; the returned object keeps the number of the
    entity. *)
Definition insert (newId : string) (row : Expense.t) : M (Entity Expense.t) :=
  λ w,
  match toDecimal (Expense.amount row) with
  | Throw e => (w, Throw e)
  | Ok amount =>
      match expenseRepository w !! newId with
      | Some _ => (w, Throw duplicate_key)
      | None =>
          (set_expenseRepository (<[newId := Expense.set_amount amount row]>) w,
           Ok (newId, row))
      end
  end.

(** [save] of the entity that [findOne] loaded together with its
    relations [category] and [paymentMethod].  The columns in which the
    entity differs from the row are written; the join columns
    [categoryId] and [paymentMethodId] are taken from the relation
    objects, which [Object.assign] leaves as they were loaded, so that
    the row keeps its two foreign keys.  The returned object is the
    entity as it was passed, with the scalar properties that
    [Object.assign] set.  (Without a row under the key, which [update]
    does not reach, the entity is inserted.) *)
Definition save (entity : Entity Expense.t) : M (Entity Expense.t) := λ w,
  match expenseRepository w !! entity.1 with
  | Some loaded =>
      match storedDecimal (Some (Expense.amount loaded))
              (Expense.amount entity.2) with
      | Throw e => (w, Throw e)
      | Ok amount =>
          (set_expenseRepository
             (<[entity.1 :=
                  Expense.set_joinColumns (Expense.categoryId loaded)
                    (Expense.paymentMethodId loaded)
                    (Expense.set_amount amount entity.2)]>) w,
           Ok entity)
      end
  | None => insert entity.1 entity.2 w
  end.

Definition create (userId : string) (dto : CreateExpenseDto.t)
    (newId : string) : M (Entity Expense.t) :=
  CategoriesService.findOne userId (CreateExpenseDto.categoryId dto);;
  PaymentMethodsService.findOne userId (CreateExpenseDto.paymentMethodId dto);;
  saved ← insert newId
    (Expense.mk
       (CreateExpenseDto.amount dto) (CreateExpenseDto.description dto)
       (CreateExpenseDto.notes dto) (CreateExpenseDto.date dto)
       MANUAL None None None None None None
       userId (CreateExpenseDto.categoryId dto)
       (CreateExpenseDto.paymentMethodId dto));
  PaymentMethodsService.updateBalance userId
    (CreateExpenseDto.paymentMethodId dto) (CreateExpenseDto.amount dto)
    subtract;;
  invalidateCache userId;;
  mret saved.

Definition createFromOcr (userId : string) (data : OcrExpenseData.t)
    (newId : string) : M (Entity Expense.t) :=
  CategoriesService.findOne userId (OcrExpenseData.categoryId data);;
  PaymentMethodsService.findOne userId (OcrExpenseData.paymentMethodId data);;
  uploadResult ← lift_result
    (StorageService.uploadReceipt storageService
       (OcrExpenseData.receiptImage data) userId);
  saved ← insert newId
    (Expense.mk
       (OcrExpenseData.amount data) (OcrExpenseData.description data)
       None (OcrExpenseData.date data)
       OCR (Some (StorageService.url uploadResult))
       (Some (StorageService.key uploadResult))
       (OcrExpenseData.ocrData data) None None None
       userId (OcrExpenseData.categoryId data)
       (OcrExpenseData.paymentMethodId data));
  PaymentMethodsService.updateBalance userId
    (OcrExpenseData.paymentMethodId data) (OcrExpenseData.amount data)
    subtract;;
  invalidateCache userId;;
  mret saved.

Definition createFromVoice (userId : string) (data : VoiceExpenseData.t)
    (newId : string) : M (Entity Expense.t) :=
  CategoriesService.findOne userId (VoiceExpenseData.categoryId data);;
  PaymentMethodsService.findOne userId (VoiceExpenseData.paymentMethodId data);;
  uploaded ←
    match VoiceExpenseData.audioFile data with
    | Some audioFile =>
        uploadResult ← lift_result
          (StorageService.uploadVoiceRecording storageService audioFile userId);
        mret (Some uploadResult)
    | None => mret None
    end;
  saved ← insert newId
    (Expense.mk
       (VoiceExpenseData.amount data) (VoiceExpenseData.description data)
       None (VoiceExpenseData.date data)
       VOICE None None None
       (Some (VoiceExpenseData.transcription data))
       (StorageService.url <$> uploaded)
       (StorageService.key <$> uploaded)
       userId (VoiceExpenseData.categoryId data)
       (VoiceExpenseData.paymentMethodId data));
  PaymentMethodsService.updateBalance userId
    (VoiceExpenseData.paymentMethodId data) (VoiceExpenseData.amount data)
    subtract;;
  invalidateCache userId;;
  mret saved.

Definition findOne (userId id : string) : M (Entity Expense.t) := λ w,
  match expenseRepository w !! id with
  | Some e =>
      if String.eqb (Expense.userId e) userId
      then (w, Ok (id, e))
      else (w, Throw not_found)
  | None => (w, Throw not_found)
  end.

(** [Object.assign(expense, updateExpenseDto)] *)
Definition assignDto (dto : UpdateExpenseDto.t) (e : Expense.t) : Expense.t :=
  Expense.mk
    (assign (UpdateExpenseDto.amount dto) (Expense.amount e))
    (assign (UpdateExpenseDto.description dto) (Expense.description e))
    (assign_nullable (UpdateExpenseDto.notes dto) (Expense.notes e))
    (assign (UpdateExpenseDto.date dto) (Expense.date e))
    (Expense.source e)
    (Expense.receiptUrl e) (Expense.receiptS3Key e) (Expense.ocrData e)
    (Expense.voiceTranscription e) (Expense.voiceAudioUrl e)
    (Expense.voiceAudioS3Key e)
    (Expense.userId e)
    (assign (UpdateExpenseDto.categoryId dto) (Expense.categoryId e))
    (assign (UpdateExpenseDto.paymentMethodId dto) (Expense.paymentMethodId e)).

Definition update (userId id : string) (dto : UpdateExpenseDto.t)
    : M (Entity Expense.t) :=
  expense ← findOne userId id;
  let oldAmount := Expense.amount expense.2 in
  let oldPaymentMethodId := Expense.paymentMethodId expense.2 in
  (if opt_truthy (UpdateExpenseDto.categoryId dto)
   then CategoriesService.findOne userId
          (default "" (UpdateExpenseDto.categoryId dto));;
        mret tt
   else mret tt);;
  (if opt_truthy (UpdateExpenseDto.paymentMethodId dto)
   then PaymentMethodsService.findOne userId
          (default "" (UpdateExpenseDto.paymentMethodId dto));;
        mret tt
   else mret tt);;
  updated ← save (expense.1, assignDto dto expense.2);
  let newAmount := Expense.amount updated.2 in
  let newPaymentMethodId := Expense.paymentMethodId updated.2 in
  (if bool_decide (oldAmount ≠ newAmount)
      || negb (String.eqb oldPaymentMethodId newPaymentMethodId)
   then
     PaymentMethodsService.updateBalance userId oldPaymentMethodId oldAmount
       add;;
     PaymentMethodsService.updateBalance userId newPaymentMethodId newAmount
       subtract;;
     mret tt
   else mret tt);;
  invalidateCache userId;;
  mret updated.

Definition remove (userId id : string) : M unit :=
  expense ← findOne userId id;
  PaymentMethodsService.updateBalance userId
    (Expense.paymentMethodId expense.2) (Expense.amount expense.2) add;;
  (if opt_truthy (Expense.receiptS3Key expense.2)
   then lift_result
          (StorageService.deleteFile storageService
             (default "" (Expense.receiptS3Key expense.2)))
   else mret tt);;
  (if opt_truthy (Expense.voiceAudioS3Key expense.2)
   then lift_result
          (StorageService.deleteFile storageService
             (default "" (Expense.voiceAudioS3Key expense.2)))
   else mret tt);;
  modify_world (set_expenseRepository (delete expense.1));;
  invalidateCache userId.

End WithStorage.

(** The rows [WHERE expense.userId = :userId] *)
Definition expensesOf (userId : string) (w : World) : list (Entity Expense.t) :=
  filter (λ e, Expense.userId e.2 = userId) (rows (expenseRepository w)).

Definition amounts (expenses : list (Entity Expense.t)) : list Qc :=
  (λ e, Expense.amount e.2) <$> expenses.

(** [... AND expense.date BETWEEN :start AND :end] *)
Definition inWindow (start finish : Date) (expenses : list (Entity Expense.t))
    : list (Entity Expense.t) :=
  filter (λ e, date_between (Expense.date e.2) start finish = true) expenses.

(** The part of [getSummary] after the cache miss: the five queries and
    the assembly of the DTO.  [now] is [new Date()].

    The two [GROUP BY] queries select [category.id as categoryId],
    [category.name as categoryName], [category.color as categoryColor],
    [pm.id as paymentMethodId] and [pm.name as paymentMethodName]
    without quotes, and PostgreSQL folds an unquoted alias to lower
    case: the raw rows have the keys [categoryid], [categoryname], ...,
    so that [cat.categoryId], [cat.categoryName], [cat.categoryColor],
    [pm.paymentMethodId] and [pm.paymentMethodName] are [undefined].
    The aliases [count] and [total] are lower case in the source. *)
Definition computeSummary (now : Date) (userId : string) (w : World)
    : ExpenseSummaryDto.t :=
  let currentMonthStart := startOfMonth now in
  let currentMonthEnd := endOfMonth now in
  let lastMonthStart := startOfMonth (subMonths now 1) in
  let lastMonthEnd := endOfMonth (subMonths now 1) in
  let expenses := expensesOf userId w in
  let totalQuery_count := length expenses in
  let totalQuery_total := SUM (amounts expenses) in
  let totalQuery_average := AVG (amounts expenses) in
  let currentMonthTotal :=
    SUM (amounts (inWindow currentMonthStart currentMonthEnd expenses)) in
  let lastMonthTotal :=
    SUM (amounts (inWindow lastMonthStart lastMonthEnd expenses)) in
  let byCategory :=
    groupByJoined
      (λ e, joinedKey (categoryRepository w) (Expense.categoryId e))
      expenses in
  let byPaymentMethod :=
    groupByJoined
      (λ e, joinedKey (paymentMethodRepository w) (Expense.paymentMethodId e))
      expenses in
  let totalAmount := or_zero (parseFloat totalQuery_total) in
  let currentMonth := or_zero (parseFloat currentMonthTotal) in
  let lastMonth := or_zero (parseFloat lastMonthTotal) in
  let percentageChange :=
    if number_gt lastMonth (Fin 0)
    then number_mul
           (number_div (number_sub currentMonth lastMonth) lastMonth)
           (Fin (Qc_of_Z 100))
    else Fin 0 in
  ExpenseSummaryDto.mk
    (Z.of_nat totalQuery_count)
    totalAmount
    (or_zero (parseFloat totalQuery_average))
    currentMonth
    lastMonth
    percentageChange
    ((λ cat,
        CategoryBreakdown.mk
          None None None
          (Z.of_nat (groupCount cat))
          (parseFloat (groupTotal cat))
          (number_mul (number_div (parseFloat (groupTotal cat)) totalAmount)
             (Fin (Qc_of_Z 100))))
     <$> byCategory)
    ((λ pm,
        PaymentMethodBreakdown.mk
          None None
          (Z.of_nat (groupCount pm))
          (parseFloat (groupTotal pm))
          (number_mul (number_div (parseFloat (groupTotal pm)) totalAmount)
             (Fin (Qc_of_Z 100))))
     <$> byPaymentMethod).

Definition getSummary (now : Date) (userId : string)
    : M ExpenseSummaryDto.t :=
  let cacheKey := "expenses:summary:" +:+ userId in
  cached ← cache_get cacheKey;
  match cached with
  | Some (CachedSummary summary) => mret summary
  | _ =>
      w ← get_world;
      let summary := computeSummary now userId w in
      cache_set cacheKey (CachedSummary summary);;
      mret summary
  end.

(** [categories.find((cat) => cat.name === name)] *)
Definition findByName (name : string) (categories : list (Entity Category.t))
    : option (Entity Category.t) :=
  snd <$> list_find (λ cat, Category.name cat.2 = name) categories.

Definition suggestCategory (userId description : string)
    : M (option string) :=
  categories ← CategoriesService.findAll userId;
  let othersCategory := findByName "Otros" categories in
  mret (match othersCategory with
        | Some cat => if string_truthy cat.1 then Some cat.1
                      else fst <$> head categories
        | None => fst <$> head categories
        end).

(** [String.prototype.toLowerCase] on one byte: the ASCII capital
    letters are mapped, the bytes of other code points are kept.  The
    keys of [categoryMap] are ASCII, and none contains a letter that is
    the lower case of a code point outside ASCII, so the lookup below
    agrees with the source on every hint. *)
Definition toLowerAscii (c : Ascii.ascii) : Ascii.ascii :=
  let n := Ascii.nat_of_ascii c in
  if (65 <=? n)%nat && (n <=? 90)%nat then Ascii.ascii_of_nat (n + 32) else c.

Fixpoint toLowerCase (s : string) : string :=
  match s with
  | EmptyString => EmptyString
  | String c s' => String (toLowerAscii c) (toLowerCase s')
  end.

(** The own properties of the object literal [categoryMap].  A hint that
    names an inherited property (such as [constructor]) reads a value
    that equals no category name, and ends in the same fallback as a
    hint that is not a key. *)
Definition categoryMap : list (string * string) :=
  [ ("comida", "Comida");
    ("transporte", "Transporte");
    ("entretenimiento", "Entretenimiento");
    ("salud", "Salud");
    ("educacion", "Educación");
    ("compras", "Compras");
    ("servicios", "Servicios") ].

(** [categoryMap[key]] *)
Definition categoryMap_get (key : string) : option string :=
  snd <$> (snd <$> list_find (λ kv, kv.1 = key) categoryMap).

Definition suggestCategoryFromHint (userId : string) (hint : option string)
    : M (option string) :=
  if negb (opt_truthy hint)
  then suggestCategory userId ""
  else
    categories ← CategoriesService.findAll userId;
    match categoryMap_get (toLowerCase (default "" hint)) with
    | Some categoryName =>
        if string_truthy categoryName
        then match findByName categoryName categories with
             | Some category => mret (Some category.1)
             | None => suggestCategory userId ""
             end
        else suggestCategory userId ""
    | None => suggestCategory userId ""
    end.

End ExpensesService.

(** * Properties: vocabulary and example worlds *)

Definition empty_world : World := mkWorld ∅ ∅ ∅ ∅.

(** ** Default payment method *)

(** At most one payment method of every owner has [isDefault = true]. *)
Definition one_default (m : gmap string PaymentMethod.t) : Prop :=
  ∀ id1 id2 p1 p2,
    m !! id1 = Some p1 →
    m !! id2 = Some p2 →
    PaymentMethod.userId p1 = PaymentMethod.userId p2 →
    PaymentMethod.isDefault p1 = true →
    PaymentMethod.isDefault p2 = true →
    id1 = id2.

Definition at_most_one_default (w : World) : Prop :=
  one_default (paymentMethodRepository w).

(** No payment method of [userId] other than [id] is the default. *)
Definition others_not_default (userId id : string)
    (m : gmap string PaymentMethod.t) : Prop :=
  ∀ id' p,
    m !! id' = Some p →
    PaymentMethod.userId p = userId →
    id' ≠ id →
    PaymentMethod.isDefault p = false.

(** The table after [PaymentMethodsService.clearDefault]. *)
Definition clear_map (userId : string) (m : gmap string PaymentMethod.t)
    : gmap string PaymentMethod.t :=
  updateWhere
    (λ p, String.eqb (PaymentMethod.userId p) userId
          && PaymentMethod.isDefault p)
    (PaymentMethod.set_isDefault false) m.

Inductive PaymentMethodOp : Type :=
| PmCreate (userId : string) (dto : CreatePaymentMethodDto.t) (newId : string)
| PmUpdate (userId id : string) (dto : UpdatePaymentMethodDto.t)
| PmSetDefault (userId id : string).

Definition exec_pm_op (op : PaymentMethodOp) : M unit :=
  match op with
  | PmCreate userId dto newId =>
      PaymentMethodsService.create userId dto newId;; mret tt
  | PmUpdate userId id dto =>
      PaymentMethodsService.update userId id dto;; mret tt
  | PmSetDefault userId id =>
      PaymentMethodsService.setDefault userId id;; mret tt
  end.

(** The world after one request; an exception leaves what was written. *)
Definition run_pm_op (w : World) (op : PaymentMethodOp) : World :=
  (exec_pm_op op w).1.

Definition run_pm_ops (ops : list PaymentMethodOp) (w : World) : World :=
  foldl run_pm_op w ops.

(** The owner and the method that a request asks to make the default. *)
Definition sets_default (op : PaymentMethodOp) : option (string * string) :=
  match op with
  | PmCreate userId dto newId =>
      if default false (CreatePaymentMethodDto.isDefault dto)
      then Some (userId, newId) else None
  | PmUpdate userId id dto =>
      if default false (UpdatePaymentMethodDto.isDefault dto)
      then Some (userId, id) else None
  | PmSetDefault userId id => Some (userId, id)
  end.

Definition example_method (name userId : string) (balance : Qc)
    (isActive isDefault : bool) : PaymentMethod.t :=
  PaymentMethod.mk name CASH None None None None balance None None
    isActive isDefault userId.

Definition example_create_method (name : string) (balance : Qc)
    (isDefault : option bool) : CreatePaymentMethodDto.t :=
  CreatePaymentMethodDto.mk name CASH None None None None (Some balance)
    None None isDefault.

(** Two methods of one owner: the first is made the default on creation,
    then the second through [setDefault], then the first again through
    [update]. *)
Definition example_default_ops : list PaymentMethodOp :=
  [ PmCreate "user-1" (example_create_method "A" (Qc_of_Z 0) (Some true)) "pm-a";
    PmCreate "user-1" (example_create_method "B" (Qc_of_Z 0) None) "pm-b";
    PmSetDefault "user-1" "pm-b";
    PmUpdate "user-1" "pm-a"
      (UpdatePaymentMethodDto.mk None None None None None None None None None
         (Some true) None) ].

(** The owner's default method has been deactivated. *)
Definition example_inactive_default_world : World :=
  run_pm_ops
    [ PmCreate "user-1" (example_create_method "A" (Qc_of_Z 100) (Some true))
        "pm-a";
      PmCreate "user-1" (example_create_method "B" (Qc_of_Z 100) None) "pm-b";
      PmUpdate "user-1" "pm-a"
        (UpdatePaymentMethodDto.mk None None None None None None None None
           None None (Some false)) ]
    empty_world.

(** An owner with one payment method and no expense at all. *)
Definition example_unused_method_world : World :=
  mkWorld ∅
    (<["pm-a" := example_method "Cash" "user-1" (Qc_of_Z 100) true false]> ∅)
    ∅ ∅.

(** ** Categories *)

(** The category [id] resolves for [userId]: it is the caller's own or a
    system category. *)
Definition visible (userId : string) (w : World) (id : string) : bool :=
  match categoryRepository w !! id with
  | Some c => CategoriesService.ownedBy userId c || Category.isSystem c
  | None => false
  end.

Definition example_category (name : string) (isSystem : bool)
    (orderIndex : Z) (userId : option string) : Category.t :=
  Category.mk name None None "#95A5A6" isSystem orderIndex userId.

(** user-1 owns two categories, user-2 owns one, and there is one system
    category. *)
Definition example_categories_world : World :=
  mkWorld
    (<["cat-trips" := example_category "Viajes" false 7 (Some "user-1")]>
       (<["cat-pets" := example_category "Mascotas" false 7 (Some "user-1")]>
          (<["cat-other" := example_category "Regalos" false 3 (Some "user-2")]>
             (<["cat-food" := example_category "Comida" true 0 None]> ∅))))
    ∅ ∅ ∅.

(** [c] is the first category of the list with the name [name]. *)
Definition first_named (name : string) (categories : list (Entity Category.t))
    (c : Entity Category.t) : Prop :=
  ∃ i, categories !! i = Some c
       ∧ Category.name c.2 = name
       ∧ ∀ j c', categories !! j = Some c' → j < i → Category.name c'.2 ≠ name.

(** No category of the list has the name [name]. *)
Definition none_named (name : string) (categories : list (Entity Category.t))
    : Prop :=
  ∀ c, c ∈ categories → Category.name c.2 ≠ name.

(** The fallback of the suggestion: the first category named "Otros",
    and the first category of the list when there is none. *)
Definition fallback_rule (categories : list (Entity Category.t))
    (r : option string) : Prop :=
  (∀ c, first_named "Otros" categories c → c.1 ≠ "" → r = Some c.1)
  ∧ (none_named "Otros" categories → r = fst <$> head categories).

(** user-1 has a category named "Other" but none named "Otros". *)
Definition example_other_world : World :=
  mkWorld
    (<["cat-1" := example_category "Ahorros" false 0 (Some "user-1")]>
       (<["cat-2" := example_category "Other" false 1 (Some "user-1")]> ∅))
    ∅ ∅ ∅.

(** user-1 sees the system categories "Comida" and "Otros" and one of
    their own. *)
Definition example_suggest_world : World :=
  mkWorld
    (<["cat-trips" := example_category "Viajes" false 0 (Some "user-1")]>
       (<["cat-food" := example_category "Comida" true 0 None]>
          (<["cat-misc" := example_category "Otros" true 7 None]> ∅)))
    ∅ ∅ ∅.

(** ** The expense ledger *)

Inductive LedgerOp : Type :=
| ExCreate (userId : string) (dto : CreateExpenseDto.t) (newId : string)
| ExCreateFromOcr (userId : string) (data : OcrExpenseData.t) (newId : string)
| ExCreateFromVoice (userId : string) (data : VoiceExpenseData.t)
    (newId : string)
| ExUpdate (userId id : string) (dto : UpdateExpenseDto.t)
| ExRemove (userId id : string).

Definition exec_ledger_op (storageService : StorageService.t) (op : LedgerOp)
    : M unit :=
  match op with
  | ExCreate userId dto newId =>
      ExpensesService.create userId dto newId;; mret tt
  | ExCreateFromOcr userId data newId =>
      ExpensesService.createFromOcr storageService userId data newId;; mret tt
  | ExCreateFromVoice userId data newId =>
      ExpensesService.createFromVoice storageService userId data newId;;
      mret tt
  | ExUpdate userId id dto => ExpensesService.update userId id dto;; mret tt
  | ExRemove userId id => ExpensesService.remove storageService userId id
  end.

(** The owner on whose behalf a ledger request runs. *)
Definition ledger_op_user (op : LedgerOp) : string :=
  match op with
  | ExCreate userId _ _ | ExCreateFromOcr userId _ _
  | ExCreateFromVoice userId _ _ | ExUpdate userId _ _
  | ExRemove userId _ => userId
  end.

(** The world after one ledger request; an exception leaves what was
    written before it. *)
Definition run_ledger_op (storageService : StorageService.t) (w : World)
    (op : LedgerOp) : World :=
  (exec_ledger_op storageService op w).1.

Definition run_ledger (storageService : StorageService.t)
    (ops : list LedgerOp) (w : World) : World :=
  foldl (run_ledger_op storageService) w ops.

(** What the expense [e] charges against the payment method [p]. *)
Definition contribution (p : string) (e : Expense.t) : Qc :=
  if String.eqb (Expense.paymentMethodId e) p then Expense.amount e else 0%Qc.

(** The sum of the amounts of the live expenses charged against [p]. *)
Definition charged_in (p : string) (expenses : gmap string Expense.t) : Qc :=
  map_fold (λ _ e acc, (contribution p e + acc)%Qc) 0%Qc expenses.

Definition charged (p : string) (w : World) : Qc :=
  charged_in p (expenseRepository w).

(** Every expense references a stored payment method of its own owner
    (what the two [findOne] checks of the creation paths establish). *)
Definition references_resolve (w : World) : Prop :=
  ∀ id e, expenseRepository w !! id = Some e →
    ∃ pm, paymentMethodRepository w !! Expense.paymentMethodId e = Some pm
          ∧ PaymentMethod.userId pm = Expense.userId e.

(** What [@IsUUID()] on [UpdateExpenseDto.paymentMethodId] guarantees at
    least: a payment method id that is present is not the empty string. *)
Definition valid_ledger_op (op : LedgerOp) : Prop :=
  match op with
  | ExUpdate _ _ dto => UpdateExpenseDto.paymentMethodId dto ≠ Some ""
  | _ => True
  end.

(** An object store that always succeeds, and one whose delete requests
    fail. *)
Definition example_upload (folder : string) (file : MulterFile)
    (userId : string) : result StorageService.UploadResult :=
  Ok (StorageService.mkUpload
        (folder +:+ "/" +:+ userId +:+ "/" +:+ originalname file)
        ("https://storage.example/" +:+ folder +:+ "/" +:+ userId +:+ "/"
         +:+ originalname file)
        "expense-tracker" (originalname file)).

Definition example_storage_up : StorageService.t :=
  StorageService.mk (example_upload "receipts") (example_upload "voice")
    (λ _, Ok tt).

Definition example_storage_down : StorageService.t :=
  StorageService.mk (example_upload "receipts") (example_upload "voice")
    (λ _, Throw (StorageError "connect ECONNREFUSED")).

Definition example_date : Date := mkDate 2024 11 8.

(** user-1 has the payment method "Cash" with balance 100.00 and may use
    the system category "Comida"; there is no expense yet. *)
Definition example_ledger_world : World :=
  mkWorld
    (<["cat-food" := example_category "Comida" true 0 None]> ∅)
    (<["pm-cash" := example_method "Cash" "user-1" (Qc_of_Z 100) true false]> ∅)
    ∅ ∅.

Definition example_create_expense (amount : Qc) : CreateExpenseDto.t :=
  CreateExpenseDto.mk amount "Almuerzo" None example_date "cat-food" "pm-cash".

Definition example_update_amount (amount : Qc) : UpdateExpenseDto.t :=
  UpdateExpenseDto.mk (Some amount) None None None None None.

(** Scenarios 1 to 3 of the specification. *)
Definition example_scenario_create : list LedgerOp :=
  [ ExCreate "user-1" (example_create_expense (Qc_of_Z 30)) "exp-1" ].
Definition example_scenario_update : list LedgerOp :=
  example_scenario_create
  ++ [ ExUpdate "user-1" "exp-1" (example_update_amount (Qc_of_Z 50)) ].
Definition example_scenario_delete : list LedgerOp :=
  example_scenario_update ++ [ ExRemove "user-1" "exp-1" ].

(** A receipt expense of 40.00 created through the OCR path. *)
Definition example_receipt_ops : list LedgerOp :=
  [ ExCreateFromOcr "user-1"
      (OcrExpenseData.mk (Qc_of_Z 40) "Supermercado" example_date "pm-cash"
         "cat-food" None (mkFile "factura.jpg" "image/jpeg" 2048))
      "exp-2" ].

(** user-1 has two payment methods, "Cash" with 100.00 and "Card" with
    50.00, and no expense. *)
Definition example_two_methods_world : World :=
  mkWorld
    (<["cat-food" := example_category "Comida" true 0 None]> ∅)
    (<["pm-cash" := example_method "Cash" "user-1" (Qc_of_Z 100) true false]>
       (<["pm-card" := example_method "Card" "user-1" (Qc_of_Z 50) true false]>
          ∅))
    ∅ ∅.

(** An expense of 30.00 has been created on "Cash". *)
Definition example_charged_world : World :=
  (ExpensesService.create "user-1" (example_create_expense (Qc_of_Z 30))
     "exp-1" example_two_methods_world).1.

(** The update that moves an expense to "Card". *)
Definition example_move_to_card : UpdateExpenseDto.t :=
  UpdateExpenseDto.mk None None None None None (Some "pm-card").

(** The method "Cash" of user-1 stands at -9999999999999.99, the least
    value that its column holds. *)
Definition example_overdrawn_world : World :=
  mkWorld
    (<["cat-food" := example_category "Comida" true 0 None]> ∅)
    (<["pm-cash" := example_method "Cash" "user-1"
                      (Q2Qc (-999999999999999 # 100)) true false]> ∅)
    ∅ ∅.

(** The numbers that a [decimal(15,2)] column stores as they are: at
    most two decimal places and thirteen digits before the point. *)
Definition is_decimal (q : Qc) : Prop := toDecimal q = Ok q.

(** The balance of the method [p]; 0 when there is no such method. *)
Definition balance_at (p : string) (w : World) : Qc :=
  default 0%Qc (PaymentMethod.balance <$> paymentMethodRepository w !! p).

(** Balance plus live charges of the method [p]: the quantity that the
    ledger operations are meant to keep constant. *)
Definition ledger_total (p : string) (w : World) : Qc :=
  (balance_at p w + charged p w)%Qc.

(** [w'] has the payment methods of [w], with the same owners. *)
Definition same_methods (w w' : World) : Prop :=
  ∀ p, PaymentMethod.userId <$> paymentMethodRepository w' !! p
       = PaymentMethod.userId <$> paymentMethodRepository w !! p.

(** The object store answers every delete request. *)
Definition deletes_reliably (storageService : StorageService.t) : Prop :=
  ∀ key, StorageService.deleteFile storageService key = Ok tt.

(** Every stored balance and every stored amount is a value of its
    column (which is so for what the database itself has stored). *)
Definition decimal_world (w : World) : Prop :=
  (∀ p pm, paymentMethodRepository w !! p = Some pm →
     is_decimal (PaymentMethod.balance pm))
  ∧ (∀ id e, expenseRepository w !! id = Some e →
       is_decimal (Expense.amount e)).

(** The amount that a request carries is a value of the column. *)
Definition decimal_amounts (op : LedgerOp) : Prop :=
  match op with
  | ExCreate _ dto _ => is_decimal (CreateExpenseDto.amount dto)
  | ExCreateFromOcr _ data _ => is_decimal (OcrExpenseData.amount data)
  | ExCreateFromVoice _ data _ => is_decimal (VoiceExpenseData.amount data)
  | ExUpdate _ _ dto =>
      ∀ amount, UpdateExpenseDto.amount dto = Some amount → is_decimal amount
  | ExRemove _ _ => True
  end.

(** An update that names a payment method names the one that the
    expense has: it does not move the expense. *)
Definition keeps_method (w : World) (op : LedgerOp) : Prop :=
  match op with
  | ExUpdate _ id dto =>
      ∀ e paymentMethodId,
        expenseRepository w !! id = Some e →
        UpdateExpenseDto.paymentMethodId dto = Some paymentMethodId →
        paymentMethodId = Expense.paymentMethodId e
  | _ => True
  end.

(** Along the run of [ops] from [w], no update moves an expense and no
    request fails with a numeric overflow. *)
Fixpoint undisturbed (storageService : StorageService.t)
    (ops : list LedgerOp) (w : World) : Prop :=
  match ops with
  | [] => True
  | op :: ops =>
      keeps_method w op
      ∧ (exec_ledger_op storageService op w).2 ≠ Throw numeric_overflow
      ∧ undisturbed storageService ops (run_ledger_op storageService w op)
  end.

(** One ledger step from [w] to [w']: references still resolve, the
    stored numbers are values of their columns, the payment methods are
    the same, and balance plus live charges of every method is
    unchanged. *)
Definition ledger_step_ok (w w' : World) : Prop :=
  references_resolve w'
  ∧ decimal_world w'
  ∧ same_methods w w'
  ∧ ∀ p, ledger_total p w' = ledger_total p w.

(** The receipt expense is created, then its deletion is attempted while
    the object store refuses delete requests. *)
Definition example_aborted_delete_world : World :=
  run_ledger example_storage_down
    (example_receipt_ops ++ [ ExRemove "user-1" "exp-2" ])
    example_ledger_world.

(** The ledger world after user-1 has asked for the summary once (so
    that a summary without expenses is cached). *)
Definition example_cached_world : World :=
  (ExpensesService.getSummary example_date "user-1" example_ledger_world).1.

(** A voice expense with a recording attached, owned by user-1. *)
Definition example_voice_expense : Expense.t :=
  Expense.mk (Qc_of_Z 30) "Taxi" (Some "ida") example_date VOICE
    None None None (Some "treinta en taxi")
    (Some "https://storage.example/voice/user-1/a.webm")
    (Some "voice/user-1/a.webm")
    "user-1" "cat-food" "pm-cash".

Definition example_voice_world : World :=
  mkWorld
    (<["cat-food" := example_category "Comida" true 0 None]> ∅)
    (<["pm-cash" := example_method "Cash" "user-1" (Qc_of_Z 70) true false]> ∅)
    (<["exp-1" := example_voice_expense]>
       (<["exp-9" := example_voice_expense]> ∅))
    ∅.

(** The summary that the cache holds for the owner, if any. *)
Definition cached_summary (userId : string) (w : World)
    : option ExpenseSummaryDto.t :=
  match cacheManager w !! ("expenses:summary:" +:+ userId) with
  | Some (CachedSummary summary) => Some summary
  | _ => None
  end.

(** ** The summary *)

(** The sum of the owner's expenses dated in the calendar month of [d];
    0 when there is none. *)
Definition month_total (d : Date) (userId : string) (w : World) : Qc :=
  foldr Qcplus 0%Qc
    (ExpensesService.amounts
       (ExpensesService.inWindow (startOfMonth d) (endOfMonth d)
          (ExpensesService.expensesOf userId w))).

Definition example_expense_on (date : Date) (amount : Qc) : Expense.t :=
  Expense.mk amount "Mercado" None date MANUAL None None None None None None
    "user-1" "cat-food" "pm-cash".

(** user-1 spent 40.00 in October 2024 and 20.00 + 30.00 in November
    2024. *)
Definition example_months_world : World :=
  mkWorld
    (<["cat-food" := example_category "Comida" true 0 None]> ∅)
    (<["pm-cash" := example_method "Cash" "user-1" (Qc_of_Z 10) true false]> ∅)
    (<["exp-1" := example_expense_on (mkDate 2024 10 31) (Qc_of_Z 40)]>
       (<["exp-2" := example_expense_on (mkDate 2024 11 1) (Qc_of_Z 20)]>
          (<["exp-3" := example_expense_on (mkDate 2024 11 30) (Qc_of_Z 30)]>
             ∅)))
    ∅.

(** The voice path with a transcription that contains no number: the
    fallback extraction of the voice service yields the amount 0, and
    [createFromVoice] stores it. *)
Definition example_zero_voice_world : World :=
  run_ledger example_storage_up
    [ ExCreateFromVoice "user-1"
        (VoiceExpenseData.mk 0%Qc "compre pan" example_date "pm-cash"
           "cat-food" "compre pan"
           (Some (mkFile "nota.webm" "audio/webm" 1024)))
        "exp-1" ]
    example_ledger_world.

(** * Further properties: vocabulary *)

(** ** Owners do not touch each other's rows *)

(** Every request that [PaymentMethodsService] serves. *)
Inductive PaymentMethodRequest : Type :=
| ReqCreate (userId : string) (dto : CreatePaymentMethodDto.t) (newId : string)
| ReqUpdate (userId id : string) (dto : UpdatePaymentMethodDto.t)
| ReqSetDefault (userId id : string)
| ReqRemove (userId id : string)
| ReqUpdateBalance (userId id : string) (amount : Qc)
    (operation : BalanceOperation).

Definition exec_pm_request (req : PaymentMethodRequest) : M unit :=
  match req with
  | ReqCreate userId dto newId =>
      PaymentMethodsService.create userId dto newId;; mret tt
  | ReqUpdate userId id dto =>
      PaymentMethodsService.update userId id dto;; mret tt
  | ReqSetDefault userId id =>
      PaymentMethodsService.setDefault userId id;; mret tt
  | ReqRemove userId id => PaymentMethodsService.remove userId id
  | ReqUpdateBalance userId id amount operation =>
      PaymentMethodsService.updateBalance userId id amount operation;; mret tt
  end.

Definition pm_request_user (req : PaymentMethodRequest) : string :=
  match req with
  | ReqCreate userId _ _ | ReqUpdate userId _ _ | ReqSetDefault userId _
  | ReqRemove userId _ | ReqUpdateBalance userId _ _ _ => userId
  end.

Definition run_pm_requests (reqs : list PaymentMethodRequest) (w : World)
    : World :=
  foldl (λ w req, (exec_pm_request req w).1) w reqs.

(** The payment methods that [userId] does not own are in [w'] what
    they are in [w]. *)
Definition foreign_methods_kept (userId : string) (w w' : World) : Prop :=
  ∀ p pm, PaymentMethod.userId pm ≠ userId →
    (paymentMethodRepository w' !! p = Some pm
     ↔ paymentMethodRepository w !! p = Some pm).

(** The expenses that [userId] does not own are in [w'] what they are
    in [w]. *)
Definition foreign_expenses_kept (userId : string) (w w' : World) : Prop :=
  ∀ id e, Expense.userId e ≠ userId →
    (expenseRepository w' !! id = Some e
     ↔ expenseRepository w !! id = Some e).

(** The categories that [userId] does not own (the system categories
    among them) are in [w'] what they are in [w]. *)
Definition foreign_categories_kept (userId : string) (w w' : World) : Prop :=
  ∀ id c, Category.userId c ≠ Some userId →
    (categoryRepository w' !! id = Some c
     ↔ categoryRepository w !! id = Some c).

(** ** Names of payment methods *)

(** No owner has two payment methods with the same name. *)
Definition unique_names_in (m : gmap string PaymentMethod.t) : Prop :=
  ∀ id1 id2 p1 p2,
    m !! id1 = Some p1 →
    m !! id2 = Some p2 →
    PaymentMethod.userId p1 = PaymentMethod.userId p2 →
    PaymentMethod.name p1 = PaymentMethod.name p2 →
    id1 = id2.

Definition unique_method_names (w : World) : Prop :=
  unique_names_in (paymentMethodRepository w).

(** user-2 has a default method; user-1 then creates a default method
    of their own, makes another one the default, and adjusts a balance. *)
Definition example_two_owners_world : World :=
  mkWorld ∅
    (<["pm-z" := example_method "Nequi" "user-2" (Qc_of_Z 5) true true]> ∅)
    ∅ ∅.

(** The row of user-2 in [example_two_owners_world]. *)
Definition example_foreign_method : PaymentMethod.t :=
  example_method "Nequi" "user-2" (Qc_of_Z 5) true true.

Definition example_user1_requests : list PaymentMethodRequest :=
  [ ReqCreate "user-1" (example_create_method "A" (Qc_of_Z 0) (Some true))
      "pm-a";
    ReqCreate "user-1" (example_create_method "B" (Qc_of_Z 0) None) "pm-b";
    ReqSetDefault "user-1" "pm-b";
    ReqUpdateBalance "user-1" "pm-z" (Qc_of_Z 5) subtract;
    ReqUpdate "user-1" "pm-z"
      (UpdatePaymentMethodDto.mk (Some "mine") None None None None None None
         None None None None) ].

(** ** Ledger requests *)

(** The requests that save an expense row: the three creation paths and
    [update]. *)
Definition saves_row (op : LedgerOp) : Prop :=
  match op with
  | ExRemove _ _ => False
  | _ => True
  end.

(** A step that wrote rows of [userId] only: the expenses and payment
    methods of the other owners, and all categories, are what they
    were. *)
Definition writes_own_rows (userId : string) (w w' : World) : Prop :=
  foreign_expenses_kept userId w w'
  ∧ foreign_methods_kept userId w w'
  ∧ categoryRepository w' = categoryRepository w.

(** user-2 tries to delete and to edit expenses of user-1, and to book
    an expense on user-1's payment method. *)
Definition example_intruder_ops : list LedgerOp :=
  [ ExRemove "user-2" "exp-1";
    ExUpdate "user-2" "exp-2" (example_update_amount (Qc_of_Z 1));
    ExCreate "user-2" (example_create_expense (Qc_of_Z 30)) "exp-4" ].

(** ** The breakdowns of the summary *)

(** The value of a finite number; 0 for [NaN] and the infinities. *)
Definition finite_value (n : number) : Qc :=
  match n with
  | Fin q => q
  | _ => 0%Qc
  end.

Definition sum_Z (l : list Z) : Z := foldr Z.add 0%Z l.
Definition sum_Qc (l : list Qc) : Qc := foldr Qcplus 0%Qc l.

(** ** Category requests *)

(** The requests that [CategoriesService] serves for a user. *)
Inductive CategoryRequest : Type :=
| CatCreate (userId : string) (dto : CreateCategoryDto.t) (newId : string)
| CatUpdate (userId id : string) (dto : UpdateCategoryDto.t)
| CatRemove (userId id : string)
| CatReorder (userId : string) (categoryIds : list string).

Definition exec_cat_request (req : CategoryRequest) : M unit :=
  match req with
  | CatCreate userId dto newId =>
      CategoriesService.create userId dto newId;; mret tt
  | CatUpdate userId id dto =>
      CategoriesService.update userId id dto;; mret tt
  | CatRemove userId id => CategoriesService.remove userId id
  | CatReorder userId categoryIds =>
      CategoriesService.reorder userId categoryIds
  end.

Definition cat_request_user (req : CategoryRequest) : string :=
  match req with
  | CatCreate userId _ _ | CatUpdate userId _ _ | CatRemove userId _
  | CatReorder userId _ => userId
  end.

Definition run_cat_requests (reqs : list CategoryRequest) (w : World)
    : World :=
  foldl (λ w req, (exec_cat_request req w).1) w reqs.

(** No owner has two categories with the same name. *)
Definition unique_category_names (w : World) : Prop :=
  ∀ id1 id2 c1 c2 userId,
    categoryRepository w !! id1 = Some c1 →
    categoryRepository w !! id2 = Some c2 →
    Category.userId c1 = Some userId →
    Category.userId c2 = Some userId →
    Category.name c1 = Category.name c2 →
    id1 = id2.

(** user-1 adds a category with the name of a system category, renames
    and moves it, and tries to edit and to delete categories that are
    not theirs. *)
Definition example_category_requests : list CategoryRequest :=
  [ CatCreate "user-1"
      (CreateCategoryDto.mk "Comida" None None "#FF6B6B" (Some 3%Z))
      "cat-new";
    CatUpdate "user-1" "cat-new"
      (UpdateCategoryDto.mk (Some "Mercado") None None None None);
    CatUpdate "user-1" "cat-food"
      (UpdateCategoryDto.mk (Some "Mia") None None None None);
    CatUpdate "user-1" "cat-other"
      (UpdateCategoryDto.mk (Some "Mia") None None None None);
    CatRemove "user-1" "cat-other";
    CatReorder "user-1" ["cat-new"; "cat-food"; "cat-trips"] ].

(** The category that user-1 creates in the examples. *)
Definition example_create_category : CreateCategoryDto.t :=
  CreateCategoryDto.mk "Mercado" None None "#FF6B6B" (Some 3%Z).

(** ** Seeding the system categories *)

(** The names of the catalogue of [createDefaultCategories]. *)
Definition default_names : list string :=
  (λ categoryData, categoryData.1.1.1) <$> CategoriesService.defaultCategories.

(** Identifiers for the seed: "sys-" followed by one character per
    position. *)
Definition example_seed_ids (i : nat) : string :=
  "sys-" +:+ String (Ascii.ascii_of_nat (48 + i)) "".

(** * Proofs *)

Ltac munfold :=
  unfold cache_del, cache_get, cache_set in *;
  unfold mbind, M_bind, mret, M_ret, throw, get_world, modify_world,
    lift_result in *.

(** Decide a closed proposition by evaluation. *)
Ltac by_computation := apply (bool_decide_unpack _); vm_compute; exact I.

Lemma eqb_true (a b : string) : String.eqb a b = true ↔ a = b.
Proof. apply String.eqb_eq. Qed.

Lemma eqb_false (a b : string) : String.eqb a b = false ↔ a ≠ b.
Proof. apply String.eqb_neq. Qed.

(** ** At most one default *)

Section OneDefault.

Implicit Types (m : gmap string PaymentMethod.t) (w : World).

Lemma clear_map_lookup userId m id p' :
  clear_map userId m !! id = Some p' →
  ∃ p, m !! id = Some p
       ∧ PaymentMethod.userId p' = PaymentMethod.userId p
       ∧ (PaymentMethod.isDefault p' = true →
          PaymentMethod.isDefault p = true
          ∧ PaymentMethod.userId p ≠ userId).
Proof.
  unfold clear_map, updateWhere. rewrite lookup_fmap.
  destruct (m !! id) as [p|] eqn:Hp; simpl; [|done].
  intros [= <-]. exists p. split; [done|].
  destruct (String.eqb (PaymentMethod.userId p) userId) eqn:Hu; simpl.
  - destruct (PaymentMethod.isDefault p) eqn:Hd; simpl; [done|].
    rewrite Hd. split; [done|]. done.
  - split; [done|]. intros Hd. split; [done|]. by apply eqb_false.
Qed.

Lemma one_default_clear userId m :
  one_default m → one_default (clear_map userId m).
Proof.
  intros Hm id1 id2 p1 p2 H1 H2 Hu Hd1 Hd2.
  apply clear_map_lookup in H1 as (q1 & Hq1 & Hu1 & Hi1).
  apply clear_map_lookup in H2 as (q2 & Hq2 & Hu2 & Hi2).
  destruct (Hi1 Hd1) as [? _]. destruct (Hi2 Hd2) as [? _].
  eapply Hm; eauto. congruence.
Qed.

Lemma others_not_default_clear userId id m :
  others_not_default userId id (clear_map userId m).
Proof.
  intros id' p' Hp' Hu _.
  apply clear_map_lookup in Hp' as (p & Hp & Hu' & Hi).
  destruct (PaymentMethod.isDefault p') eqn:Hd; [|done].
  destruct (Hi eq_refl) as [_ Hne]. congruence.
Qed.

(** Writing a row keeps the invariant when the row is not a default, or
    when no other row of its owner is. *)
Lemma one_default_insert id r m :
  one_default m →
  (PaymentMethod.isDefault r = true →
   others_not_default (PaymentMethod.userId r) id m) →
  one_default (<[id := r]> m).
Proof.
  intros Hm Hr id1 id2 p1 p2 H1 H2 Hu Hd1 Hd2.
  destruct (decide (id1 = id2)) as [|Hne]; [done|exfalso].
  destruct (decide (id = id1)) as [->|Hn1].
  - rewrite lookup_insert_eq in H1. rewrite lookup_insert_ne in H2 by done.
    simplify_eq.
    rewrite (Hr Hd1 id2 p2 H2) in Hd2; [done|congruence|congruence].
  - rewrite lookup_insert_ne in H1 by done.
    destruct (decide (id = id2)) as [->|Hn2].
    + rewrite lookup_insert_eq in H2. simplify_eq.
      rewrite (Hr Hd2 id1 p1 H1) in Hd1; [done|congruence|congruence].
    + rewrite lookup_insert_ne in H2 by done.
      apply Hne. eapply Hm; eauto.
Qed.

Lemma others_not_default_of_default id p m :
  one_default m → m !! id = Some p → PaymentMethod.isDefault p = true →
  others_not_default (PaymentMethod.userId p) id m.
Proof.
  intros Hm Hp Hd id' p' Hp' Hu Hne.
  destruct (PaymentMethod.isDefault p') eqn:Hd'; [|done].
  exfalso. apply Hne. eapply Hm; eauto.
Qed.

End OneDefault.

Lemma findOneWhere_Some {R} (cond : Entity R → bool) (table : gmap string R) e :
  findOneWhere cond table = Some e →
  table !! e.1 = Some e.2 ∧ cond e = true.
Proof.
  unfold findOneWhere, rows.
  destruct (list_find _ _) as [[i x]|] eqn:Hf; [|done].
  simpl. intros [= <-].
  apply list_find_Some in Hf as (Hl & Hc & _).
  split; [|done].
  apply elem_of_map_to_list. destruct x. simpl.
  by eapply list_elem_of_lookup_2.
Qed.

Lemma findOneWhere_None {R} (cond : Entity R → bool) (table : gmap string R)
    k r :
  findOneWhere cond table = None →
  table !! k = Some r → cond (k, r) = false.
Proof.
  unfold findOneWhere, rows.
  destruct (list_find _ _) as [[i x]|] eqn:Hf; [done|].
  intros _ Hk. apply list_find_None in Hf.
  rewrite Forall_forall in Hf.
  apply elem_of_map_to_list in Hk. apply list_elem_of_In in Hk.
  specialize (Hf _ Hk).
  by destruct (cond (k, r)).
Qed.

(** C10.  [getDefault] never throws and never writes.  A method it
    returns is a stored method of the owner with [isDefault = true] and
    [isActive = true]; and when the owner's default method is inactive
    (at most one default per owner), it returns [null]. *)

(** ** What the payment-method requests write *)

Section PaymentMethodStore.

Implicit Types (w : World) (m : gmap string PaymentMethod.t)
  (p : PaymentMethod.t).

Lemma exec_then_ret_world {A} (m : M A) w :
  ((m;; mret tt) w).1 = (m w).1.
Proof. munfold. by destruct (m w) as [w' [a|e]]. Qed.

Lemma exec_then_ret_Ok {A} (m : M A) w w' :
  (m;; mret tt) w = (w', Ok tt) → ∃ a, m w = (w', Ok a).
Proof. munfold. destruct (m w) as [w1 [a|e]]; [|done]. intros [= <-]. eauto. Qed.

Lemma exec_then_ret_Throw {A} (m : M A) w w' err :
  (m;; mret tt) w = (w', Throw err) → m w = (w', Throw err).
Proof.
  munfold. destruct (m w) as [w1 [a|e]]; intros H; [discriminate|].
  by injection H as -> ->.
Qed.

Lemma pm_findOne_world userId id w :
  (PaymentMethodsService.findOne userId id w).1 = w.
Proof.
  unfold PaymentMethodsService.findOne.
  repeat case_match; done.
Qed.

Lemma pm_findOne_Ok userId id w w' e :
  PaymentMethodsService.findOne userId id w = (w', Ok e) →
  w' = w ∧ e.1 = id ∧ paymentMethodRepository w !! id = Some e.2
  ∧ PaymentMethod.userId e.2 = userId.
Proof.
  unfold PaymentMethodsService.findOne.
  destruct (paymentMethodRepository w !! id) as [p|] eqn:Hp; [|done].
  destruct (String.eqb _ _) eqn:Hu; [|done].
  intros [= <- <-]. by apply eqb_true in Hu.
Qed.

Lemma pm_findOne_found userId id w p :
  paymentMethodRepository w !! id = Some p →
  PaymentMethod.userId p = userId →
  PaymentMethodsService.findOne userId id w = (w, Ok (id, p)).
Proof.
  intros Hp Hu. unfold PaymentMethodsService.findOne. rewrite Hp.
  apply eqb_true in Hu. by rewrite Hu.
Qed.

Lemma pm_findOne_cases userId id w :
  (∃ pm, paymentMethodRepository w !! id = Some pm
         ∧ PaymentMethod.userId pm = userId
         ∧ PaymentMethodsService.findOne userId id w = (w, Ok (id, pm)))
  ∨ (∃ err, PaymentMethodsService.findOne userId id w = (w, Throw err)).
Proof.
  unfold PaymentMethodsService.findOne.
  destruct (paymentMethodRepository w !! id) as [pm|]; [|eauto].
  destruct (String.eqb _ _) eqn:Hu; [|eauto].
  apply eqb_true in Hu. left. eauto.
Qed.

Lemma assignDto_userId dto p :
  PaymentMethod.userId (PaymentMethodsService.assignDto dto p)
  = PaymentMethod.userId p.
Proof. done. Qed.

(** *** Decimal columns and the unique index *)

Lemma storedDecimal_same (s : Qc) : storedDecimal (Some s) s = Ok s.
Proof. unfold storedDecimal. by rewrite bool_decide_eq_true_2. Qed.

(** What is stored agrees with the entity in every column but the two
    decimal ones. *)
Lemma toStore_Ok loaded p stored :
  PaymentMethodsService.toStore loaded p = Ok stored →
  stored
  = PaymentMethod.set_decimals (PaymentMethod.balance stored)
      (PaymentMethod.creditLimit stored) p.
Proof.
  unfold PaymentMethodsService.toStore.
  destruct (storedDecimal _ (PaymentMethod.balance p)) as [b|]; [|done].
  destruct (PaymentMethod.creditLimit p) as [limit|]; [|by intros [= <-]].
  destruct (storedDecimal _ limit) as [c|]; [|done]. by intros [= <-].
Qed.

Lemma toStore_userId loaded p stored :
  PaymentMethodsService.toStore loaded p = Ok stored →
  PaymentMethod.userId stored = PaymentMethod.userId p.
Proof. intros H. apply toStore_Ok in H. by rewrite H. Qed.

Lemma toStore_name loaded p stored :
  PaymentMethodsService.toStore loaded p = Ok stored →
  PaymentMethod.name stored = PaymentMethod.name p.
Proof. intros H. apply toStore_Ok in H. by rewrite H. Qed.

Lemma toStore_isDefault loaded p stored :
  PaymentMethodsService.toStore loaded p = Ok stored →
  PaymentMethod.isDefault stored = PaymentMethod.isDefault p.
Proof. intros H. apply toStore_Ok in H. by rewrite H. Qed.


(** An entity with the decimals of its row is stored as it is. *)
Lemma toStore_kept row p :
  PaymentMethod.balance p = PaymentMethod.balance row →
  PaymentMethod.creditLimit p = PaymentMethod.creditLimit row →
  PaymentMethodsService.toStore (Some row) p = Ok p.
Proof.
  intros Hb Hc. unfold PaymentMethodsService.toStore. simpl.
  rewrite (bool_decide_eq_true_2 _ Hb), <- Hb, Hc.
  destruct (PaymentMethod.creditLimit row) as [c|] eqn:Hrow;
    [rewrite storedDecimal_same|];
    destruct p; simpl in *; by subst.
Qed.

(** Only the balance of the entity differs from its row. *)
Lemma toStore_balance p (b : Qc) :
  PaymentMethodsService.toStore (Some p) (PaymentMethod.set_balance b p)
  = match storedDecimal (Some (PaymentMethod.balance p)) b with
    | Ok b' => Ok (PaymentMethod.set_balance b' p)
    | Throw e => Throw e
    end.
Proof.
  unfold PaymentMethodsService.toStore.
  cbn [fmap option_fmap option_map mbind option_bind
       PaymentMethod.balance PaymentMethod.creditLimit
       PaymentMethod.set_balance].
  destruct (storedDecimal _ b) as [b'|]; [|done].
  destruct (PaymentMethod.creditLimit p) as [c|] eqn:Hc;
    [rewrite storedDecimal_same|];
    destruct p; simpl in *; by subst.
Qed.

Lemma pm_violatesIndex_false id row w id' p' :
  PaymentMethodsService.violatesIndex id row w = false →
  id' ≠ id →
  paymentMethodRepository w !! id' = Some p' →
  PaymentMethod.userId p' = PaymentMethod.userId row →
  PaymentMethod.name p' ≠ PaymentMethod.name row.
Proof.
  unfold PaymentMethodsService.violatesIndex. intros Hv Hne Hp' Hu Hn.
  destruct (findOneWhere _ _) eqn:Hfind; [done|].
  pose proof (findOneWhere_None _ _ id' p' Hfind Hp') as Hcond.
  simpl in Hcond.
  apply eqb_true in Hn, Hu. apply eqb_false in Hne.
  by rewrite Hn, Hu, Hne in Hcond.
Qed.

Lemma pm_findByName_None name userId w id p :
  PaymentMethodsService.findByName name userId w = None →
  paymentMethodRepository w !! id = Some p →
  PaymentMethod.userId p = userId →
  PaymentMethod.name p ≠ name.
Proof.
  unfold PaymentMethodsService.findByName. intros Hnone Hp Hu Hn.
  pose proof (findOneWhere_None _ _ id p Hnone Hp) as Hc. simpl in Hc.
  apply eqb_true in Hu, Hn. by rewrite Hu, Hn in Hc.
Qed.

(** *** [insert] and [save] *)

Lemma pm_insert_cases newId row w :
  (∃ err, PaymentMethodsService.insert newId row w = (w, Throw err))
  ∨ (∃ stored,
       PaymentMethodsService.insert newId row w
       = (set_paymentMethodRepository (<[newId := stored]>) w,
          Ok (newId, row))
       ∧ PaymentMethodsService.toStore None row = Ok stored
       ∧ paymentMethodRepository w !! newId = None
       ∧ PaymentMethodsService.violatesIndex newId stored w = false).
Proof.
  unfold PaymentMethodsService.insert.
  destruct (PaymentMethodsService.toStore None row) as [stored|err];
    [|eauto].
  destruct (paymentMethodRepository w !! newId); [eauto|].
  destruct (PaymentMethodsService.violatesIndex newId stored w) eqn:Hv;
    [eauto|].
  right. exists stored. done.
Qed.

Lemma pm_save_cases id p w :
  (∃ err, PaymentMethodsService.save (id, p) w = (w, Throw err))
  ∨ (∃ stored,
       PaymentMethodsService.save (id, p) w
       = (set_paymentMethodRepository (<[id := stored]>) w, Ok (id, p))
       ∧ PaymentMethodsService.toStore (paymentMethodRepository w !! id) p
         = Ok stored
       ∧ (PaymentMethodsService.renames (paymentMethodRepository w !! id)
            stored = false
          ∨ PaymentMethodsService.violatesIndex id stored w = false)).
Proof.
  unfold PaymentMethodsService.save. cbn [fst snd].
  destruct (PaymentMethodsService.toStore _ p) as [stored|err]; [|eauto].
  destruct (PaymentMethodsService.renames _ stored) eqn:Hr; simpl.
  - destruct (PaymentMethodsService.violatesIndex id stored w) eqn:Hv;
      [eauto|].
    right. exists stored. eauto.
  - right. exists stored. eauto.
Qed.

(** An entity that has the name and the decimals of its row is written
    as it is. *)
Lemma pm_save_kept id row p w :
  paymentMethodRepository w !! id = Some row →
  PaymentMethod.name p = PaymentMethod.name row →
  PaymentMethod.balance p = PaymentMethod.balance row →
  PaymentMethod.creditLimit p = PaymentMethod.creditLimit row →
  PaymentMethodsService.save (id, p) w
  = (set_paymentMethodRepository (<[id := p]>) w, Ok (id, p)).
Proof.
  intros Hrow Hn Hb Hc. unfold PaymentMethodsService.save. cbn [fst snd].
  rewrite Hrow, (toStore_kept row p Hb Hc).
  unfold PaymentMethodsService.renames.
  by rewrite Hn, (proj2 (eqb_true _ _) eq_refl).
Qed.

(** *** The table after [clearDefault] *)

Lemma clear_map_foreign userId m id pm :
  PaymentMethod.userId pm ≠ userId →
  (clear_map userId m !! id = Some pm ↔ m !! id = Some pm).
Proof.
  intros Hne. unfold clear_map, updateWhere. rewrite lookup_fmap.
  destruct (m !! id) as [q|] eqn:Hq; simpl; [|done].
  destruct (String.eqb (PaymentMethod.userId q) userId) eqn:Hu; simpl.
  - apply eqb_true in Hu.
    destruct (PaymentMethod.isDefault q); split; intros [= <-]; try done;
      simpl in Hne; congruence.
  - done.
Qed.

Lemma clear_map_names userId m id pm' :
  clear_map userId m !! id = Some pm' →
  ∃ pm, m !! id = Some pm
        ∧ PaymentMethod.userId pm' = PaymentMethod.userId pm
        ∧ PaymentMethod.name pm' = PaymentMethod.name pm
        ∧ PaymentMethod.balance pm' = PaymentMethod.balance pm
        ∧ PaymentMethod.creditLimit pm' = PaymentMethod.creditLimit pm.
Proof.
  unfold clear_map, updateWhere. rewrite lookup_fmap.
  destruct (m !! id) as [q|] eqn:Hq; simpl; [|done].
  intros [= <-]. exists q. split; [done|]. by destruct (_ && _).
Qed.

Lemma clear_map_Some userId m id pm :
  m !! id = Some pm →
  ∃ pm', clear_map userId m !! id = Some pm'
         ∧ PaymentMethod.userId pm' = PaymentMethod.userId pm
         ∧ PaymentMethod.name pm' = PaymentMethod.name pm
         ∧ PaymentMethod.balance pm' = PaymentMethod.balance pm
         ∧ PaymentMethod.creditLimit pm' = PaymentMethod.creditLimit pm.
Proof.
  intros Hpm. unfold clear_map, updateWhere. rewrite lookup_fmap, Hpm.
  simpl. eexists. split; [done|]. by destruct (_ && _).
Qed.

Lemma clear_map_None userId m id :
  clear_map userId m !! id = None ↔ m !! id = None.
Proof.
  unfold clear_map, updateWhere. rewrite lookup_fmap.
  by destruct (m !! id).
Qed.

Lemma maybe_clear_names (b : bool) userId m id pm' :
  (if b then clear_map userId m else m) !! id = Some pm' →
  ∃ pm, m !! id = Some pm
        ∧ PaymentMethod.userId pm' = PaymentMethod.userId pm
        ∧ PaymentMethod.name pm' = PaymentMethod.name pm.
Proof.
  destruct b; [|by eauto]. intros H.
  apply clear_map_names in H as (pm & ? & ? & ? & _). eauto.
Qed.

Lemma maybe_clear_Some (b : bool) userId m id pm :
  m !! id = Some pm →
  ∃ pm', (if b then clear_map userId m else m) !! id = Some pm'
         ∧ PaymentMethod.userId pm' = PaymentMethod.userId pm
         ∧ PaymentMethod.name pm' = PaymentMethod.name pm
         ∧ PaymentMethod.balance pm' = PaymentMethod.balance pm
         ∧ PaymentMethod.creditLimit pm' = PaymentMethod.creditLimit pm.
Proof. destruct b; [apply clear_map_Some|by eauto 6]. Qed.

(** The table that a request finds after its optional [clearDefault]. *)
Lemma maybe_clear_run (b : bool) userId w :
  (if b then PaymentMethodsService.clearDefault userId else mret tt) w
  = (set_paymentMethodRepository
       (λ m, if b then clear_map userId m else m) w, Ok tt).
Proof. destruct b; [done|]. by destruct w. Qed.

(** *** The four writing requests *)

(** [create]: a name conflict writes nothing; a value that does not fit
    or a taken key leaves the table as [clearDefault] left it;
    otherwise the row of the DTO, with its decimals as the database
    stores them, is under the new key. *)
Lemma pm_create_cases userId dto newId w :
  let m0 := if default false (CreatePaymentMethodDto.isDefault dto)
            then clear_map userId (paymentMethodRepository w)
            else paymentMethodRepository w in
  ∃ w' r,
    PaymentMethodsService.create userId dto newId w = (w', r)
    ∧ expenseRepository w' = expenseRepository w
    ∧ categoryRepository w' = categoryRepository w
    ∧ ((r = Throw PaymentMethodsService.name_conflict ∧ w' = w
        ∧ is_Some (PaymentMethodsService.findByName
                     (CreatePaymentMethodDto.name dto) userId w))
       ∨ (∃ err, r = Throw err
          ∧ paymentMethodRepository w' = m0
          ∧ cacheManager w' = cacheManager w)
       ∨ (∃ stored,
            r = Ok (newId, PaymentMethodsService.fromCreateDto userId dto)
            ∧ PaymentMethodsService.toStore None
                (PaymentMethodsService.fromCreateDto userId dto) = Ok stored
            ∧ PaymentMethodsService.findByName
                (CreatePaymentMethodDto.name dto) userId w = None
            ∧ paymentMethodRepository w !! newId = None
            ∧ paymentMethodRepository w' = <[newId := stored]> m0
            ∧ cacheManager w'
              = delete ("payment-methods:" +:+ userId) (cacheManager w))).
Proof.
  intros m0. unfold PaymentMethodsService.create.
  unfold mbind at 1, M_bind at 1, get_world.
  destruct (PaymentMethodsService.findByName _ _ _) as [e|] eqn:Hfind.
  { eexists _, _. split; [done|]. split; [done|]. split; [done|]. left. eauto. }
  unfold mbind at 1, M_bind at 1. rewrite maybe_clear_run.
  unfold mbind at 1, M_bind at 1.
  set (w1 := set_paymentMethodRepository _ w).
  destruct (pm_insert_cases newId
              (PaymentMethodsService.fromCreateDto userId dto) w1)
    as [[err ->]|(stored & -> & Hstore & Hnew & _)].
  - eexists _, _. split; [done|]. split; [done|]. split; [done|].
    right. left. exists err. done.
  - munfold. eexists _, _. split; [done|]. split; [done|]. split; [done|].
    right. right. exists stored. split; [done|]. split; [done|].
    split; [done|]. split; [|done].
    subst w1 m0. simpl in Hnew.
    destruct (default false _); [by apply clear_map_None in Hnew|done].
Qed.

(** [update] *)
Lemma pm_update_cases userId id dto w :
  let m0 := if default false (UpdatePaymentMethodDto.isDefault dto)
            then clear_map userId (paymentMethodRepository w)
            else paymentMethodRepository w in
  ∃ w' r,
    PaymentMethodsService.update userId id dto w = (w', r)
    ∧ expenseRepository w' = expenseRepository w
    ∧ categoryRepository w' = categoryRepository w
    ∧ ((∃ err, r = Throw err
          ∧ cacheManager w' = cacheManager w
          ∧ (paymentMethodRepository w' = paymentMethodRepository w
             ∨ paymentMethodRepository w' = m0))
       ∨ (∃ p stored,
            paymentMethodRepository w !! id = Some p
            ∧ PaymentMethod.userId p = userId
            ∧ r = Ok (id, PaymentMethodsService.assignDto dto p)
            ∧ PaymentMethodsService.toStore (m0 !! id)
                (PaymentMethodsService.assignDto dto p) = Ok stored
            ∧ paymentMethodRepository w' = <[id := stored]> m0
            ∧ (PaymentMethod.name stored = PaymentMethod.name p
               ∨ ∀ id' q, id' ≠ id →
                   paymentMethodRepository w !! id' = Some q →
                   PaymentMethod.userId q = userId →
                   PaymentMethod.name q ≠ PaymentMethod.name stored)
            ∧ cacheManager w'
              = delete ("payment-methods:" +:+ userId +:+ ":false")
                  (delete ("payment-methods:" +:+ userId +:+ ":true")
                     (cacheManager w)))).
Proof.
  intros m0. unfold PaymentMethodsService.update.
  unfold mbind at 1, M_bind at 1.
  destruct (pm_findOne_cases userId id w) as [(p & Hp & Hu & ->)|[err ->]].
  2:{ eexists _, _. split; [done|]. split; [done|]. split; [done|].
      left. exists err. eauto. }
  unfold mbind at 1, M_bind at 1, get_world. cbn [fst snd].
  unfold mbind at 1, M_bind at 1.
  set (check := match UpdatePaymentMethodDto.name dto with
                | Some _ => _ | None => _ end).
  assert (Hcheck : check w = (w, Ok tt) ∨ ∃ err, check w = (w, Throw err)).
  { subst check. destruct (UpdatePaymentMethodDto.name dto) as [n|];
      [|by left].
    destruct (string_truthy n && _); [|by left].
    destruct (PaymentMethodsService.findByName n userId w);
      [right; eauto|by left]. }
  destruct Hcheck as [->|[err ->]].
  2:{ eexists _, _. split; [done|]. split; [done|]. split; [done|].
      left. exists err. eauto. }
  unfold mbind at 1, M_bind at 1. rewrite maybe_clear_run.
  unfold mbind at 1, M_bind at 1.
  set (w1 := set_paymentMethodRepository _ w).
  assert (Hw1 : paymentMethodRepository w1 = m0) by done.
  destruct (pm_save_cases id (PaymentMethodsService.assignDto dto p) w1)
    as [[err ->]|(stored & -> & Hstore & Hindex)].
  { eexists _, _. split; [done|]. split; [done|]. split; [done|].
    left. exists err. split; [done|]. split; [done|]. by right. }
  munfold. cbn [fst snd].
  eexists _, _. split; [done|]. split; [done|]. split; [done|].
  right. exists p, stored. rewrite Hw1 in Hstore, Hindex.
  split; [done|]. split; [done|]. split; [done|]. split; [done|].
  split; [done|]. split; [|done].
  destruct (maybe_clear_Some
              (default false (UpdatePaymentMethodDto.isDefault dto))
              userId (paymentMethodRepository w) id p Hp)
    as (p0 & Hp0 & _ & Hn0 & _).
  fold m0 in Hp0. rewrite Hp0 in Hindex.
  destruct Hindex as [Hr|Hv].
  - left. unfold PaymentMethodsService.renames in Hr.
    apply negb_false_iff, eqb_true in Hr. congruence.
  - right. intros id' q Hne Hq Huq.
    destruct (maybe_clear_Some
                (default false (UpdatePaymentMethodDto.isDefault dto))
                userId (paymentMethodRepository w) id' q Hq)
      as (q0 & Hq0 & Hu0 & Hnq & _).
    rewrite <- Hnq.
    apply (pm_violatesIndex_false id stored w1 id' q0 Hv Hne Hq0).
    rewrite (toStore_userId _ _ _ Hstore), assignDto_userId. congruence.
Qed.

(** [setDefault] changes neither a name nor a decimal, so that its
    [save] does not fail. *)
Lemma pm_setDefault_cases userId id w :
  ∃ w' r,
    PaymentMethodsService.setDefault userId id w = (w', r)
    ∧ expenseRepository w' = expenseRepository w
    ∧ categoryRepository w' = categoryRepository w
    ∧ ((∃ err, r = Throw err ∧ w' = w)
       ∨ (∃ p, paymentMethodRepository w !! id = Some p
               ∧ PaymentMethod.userId p = userId
               ∧ r = Ok (id, PaymentMethod.set_isDefault true p)
               ∧ paymentMethodRepository w'
                 = <[id := PaymentMethod.set_isDefault true p]>
                     (clear_map userId (paymentMethodRepository w))
               ∧ cacheManager w'
                 = delete ("payment-methods:" +:+ userId +:+ ":false")
                     (delete ("payment-methods:" +:+ userId +:+ ":true")
                        (cacheManager w)))).
Proof.
  unfold PaymentMethodsService.setDefault.
  unfold mbind at 1, M_bind at 1.
  destruct (pm_findOne_cases userId id w) as [(p & Hp & Hu & ->)|[err ->]].
  2:{ eexists _, _. split; [done|]. split; [done|]. split; [done|].
      left. eauto. }
  cbn [fst snd]. unfold mbind at 1, M_bind at 1.
  unfold PaymentMethodsService.clearDefault at 1, modify_world at 1.
  fold (clear_map userId).
  unfold mbind at 1, M_bind at 1.
  destruct (clear_map_Some userId (paymentMethodRepository w) id p Hp)
    as (p0 & Hp0 & _ & Hn0 & Hb0 & Hc0).
  rewrite (pm_save_kept id p0 (PaymentMethod.set_isDefault true p));
    [|done|done|done|done].
  munfold. cbn [fst snd].
  eexists _, _. split; [done|]. split; [done|]. split; [done|].
  right. exists p. done.
Qed.

(** [updateBalance]: not found or a balance that does not fit, and then
    nothing is written; or the row with the new balance as the database
    stores it. *)
Lemma pm_updateBalance_cases userId id amount operation w :
  ∃ w' r,
    PaymentMethodsService.updateBalance userId id amount operation w = (w', r)
    ∧ expenseRepository w' = expenseRepository w
    ∧ categoryRepository w' = categoryRepository w
    ∧ cacheManager w' = cacheManager w
    ∧ ((∃ err, r = Throw err ∧ w' = w)
       ∨ (∃ p b,
            paymentMethodRepository w !! id = Some p
            ∧ PaymentMethod.userId p = userId
            ∧ storedDecimal (Some (PaymentMethod.balance p))
                (match operation with
                 | add => PaymentMethod.balance p + amount
                 | subtract => PaymentMethod.balance p - amount
                 end)%Qc = Ok b
            ∧ w' = set_paymentMethodRepository
                     (<[id := PaymentMethod.set_balance b p]>) w
            ∧ r = Ok (id, PaymentMethod.set_balance
                            (match operation with
                             | add => PaymentMethod.balance p + amount
                             | subtract => PaymentMethod.balance p - amount
                             end)%Qc p))).
Proof.
  unfold PaymentMethodsService.updateBalance.
  unfold mbind, M_bind.
  destruct (pm_findOne_cases userId id w) as [(p & Hp & Hu & ->)|[err ->]].
  2:{ eexists _, _. split; [done|]. split; [done|]. split; [done|].
      split; [done|]. left. eauto. }
  cbn [fst snd]. unfold PaymentMethodsService.save. cbn [fst snd].
  rewrite Hp, toStore_balance.
  destruct (storedDecimal _ _) as [b|err] eqn:Hb.
  - unfold PaymentMethodsService.renames. simpl.
    rewrite (proj2 (eqb_true _ _) eq_refl). simpl.
    eexists _, _. split; [done|]. split; [done|]. split; [done|].
    split; [done|]. right. exists p, b. done.
  - eexists _, _. split; [done|]. split; [done|]. split; [done|].
    split; [done|]. left. eauto.
Qed.

Lemma updateBalance_found userId id amount operation w pm b :
  paymentMethodRepository w !! id = Some pm →
  PaymentMethod.userId pm = userId →
  storedDecimal (Some (PaymentMethod.balance pm))
    (match operation with
     | add => PaymentMethod.balance pm + amount
     | subtract => PaymentMethod.balance pm - amount
     end)%Qc = Ok b →
  PaymentMethodsService.updateBalance userId id amount operation w
  = (set_paymentMethodRepository
       (<[id := PaymentMethod.set_balance b pm]>) w,
     Ok (id, PaymentMethod.set_balance
               (match operation with
                | add => PaymentMethod.balance pm + amount
                | subtract => PaymentMethod.balance pm - amount
                end)%Qc pm)).
Proof.
  intros Hp Hu Hb.
  unfold PaymentMethodsService.updateBalance, mbind, M_bind.
  rewrite (pm_findOne_found userId id w pm Hp Hu). cbn [fst snd].
  unfold PaymentMethodsService.save. cbn [fst snd].
  rewrite Hp, toStore_balance, Hb.
  unfold PaymentMethodsService.renames. simpl.
  by rewrite (proj2 (eqb_true _ _) eq_refl).
Qed.

End PaymentMethodStore.

Section DefaultOperations.

Implicit Types (w : World).

Lemma one_default_maybe_clear (b : bool) userId
    (m : gmap string PaymentMethod.t) :
  one_default m → one_default (if b then clear_map userId m else m).
Proof. destruct b; [apply one_default_clear|done]. Qed.

Lemma create_keeps_one_default userId dto newId w :
  at_most_one_default w →
  at_most_one_default (PaymentMethodsService.create userId dto newId w).1.
Proof.
  unfold at_most_one_default. intros Hw.
  destruct (pm_create_cases userId dto newId w)
    as (w' & r & -> & _ & _ & Hcase). simpl.
  destruct Hcase
    as [(_ & -> & _)|[(err & _ & -> & _)
                     |(stored & _ & Hstore & _ & _ & -> & _)]].
  - done.
  - by apply one_default_maybe_clear.
  - apply one_default_insert; [by apply one_default_maybe_clear|].
    rewrite (toStore_isDefault _ _ _ Hstore), (toStore_userId _ _ _ Hstore).
    simpl. intros ->. apply others_not_default_clear.
Qed.

Lemma update_keeps_one_default userId id dto w :
  at_most_one_default w →
  at_most_one_default (PaymentMethodsService.update userId id dto w).1.
Proof.
  unfold at_most_one_default. intros Hw.
  destruct (pm_update_cases userId id dto w)
    as (w' & r & -> & _ & _ & Hcase). simpl.
  destruct Hcase
    as [(err & _ & _ & [-> | ->])
       |(p & stored & Hp & Hu & _ & Hstore & -> & _)].
  - done.
  - by apply one_default_maybe_clear.
  - apply one_default_insert; [by apply one_default_maybe_clear|].
    rewrite (toStore_isDefault _ _ _ Hstore), (toStore_userId _ _ _ Hstore).
    rewrite assignDto_userId, Hu. simpl.
    destruct (UpdatePaymentMethodDto.isDefault dto) as [[]|]; simpl;
      intros Hdef.
    + apply others_not_default_clear.
    + done.
    + rewrite <- Hu. by apply others_not_default_of_default.
Qed.

Lemma setDefault_keeps_one_default userId id w :
  at_most_one_default w →
  at_most_one_default (PaymentMethodsService.setDefault userId id w).1.
Proof.
  unfold at_most_one_default. intros Hw.
  destruct (pm_setDefault_cases userId id w)
    as (w' & r & -> & _ & _ & Hcase). simpl.
  destruct Hcase as [(err & _ & ->)|(p & Hp & Hu & _ & -> & _)]; [done|].
  apply one_default_insert; [by apply one_default_clear|].
  intros _. simpl. rewrite Hu. apply others_not_default_clear.
Qed.

Lemma run_pm_op_keeps_one_default op w :
  at_most_one_default w → at_most_one_default (run_pm_op w op).
Proof.
  unfold run_pm_op. destruct op; simpl; rewrite exec_then_ret_world.
  - apply create_keeps_one_default.
  - apply update_keeps_one_default.
  - apply setDefault_keeps_one_default.
Qed.

Lemma run_pm_ops_keep_one_default ops w :
  at_most_one_default w → at_most_one_default (run_pm_ops ops w).
Proof.
  revert w. induction ops as [|op ops IH]; intros w Hw; [done|].
  simpl. apply IH. by apply run_pm_op_keeps_one_default.
Qed.

(** A request that asks for a default and succeeds leaves the method as
    the default and every other method of the owner cleared. *)
Lemma sets_default_effect op userId id w w' :
  sets_default op = Some (userId, id) →
  exec_pm_op op w = (w', Ok tt) →
  (∃ p, paymentMethodRepository w' !! id = Some p
        ∧ PaymentMethod.userId p = userId
        ∧ PaymentMethod.isDefault p = true)
  ∧ others_not_default userId id (paymentMethodRepository w').
Proof.
  destruct op as [u dto n|u i dto|u i]; simpl; intros Hs Hx;
    apply exec_then_ret_Ok in Hx as [e Hx].
  - destruct (default false (CreatePaymentMethodDto.isDefault dto)) eqn:Hd;
      [|done]. simplify_eq.
    destruct (pm_create_cases userId dto id w)
      as (w1 & r & Hrun & _ & _ & Hcase).
    rewrite Hx in Hrun. injection Hrun as <- <-.
    destruct Hcase
      as [(? & _)|[(err & ? & _)|(stored & _ & Hstore & _ & _ & Hw' & _)]];
      [done|done|].
    rewrite Hd in Hw'. rewrite Hw'. split.
    + exists stored. rewrite lookup_insert_eq. split; [done|].
      rewrite (toStore_isDefault _ _ _ Hstore), (toStore_userId _ _ _ Hstore).
      simpl. by rewrite Hd.
    + intros id' p Hp Hu Hne. rewrite lookup_insert_ne in Hp by done.
      eapply others_not_default_clear; eauto.
  - destruct (default false (UpdatePaymentMethodDto.isDefault dto)) eqn:Hd;
      [|done]. simplify_eq.
    destruct (pm_update_cases userId id dto w)
      as (w1 & r & Hrun & _ & _ & Hcase).
    rewrite Hx in Hrun. injection Hrun as <- <-.
    destruct Hcase
      as [(err & ? & _)|(p & stored & Hp & Hu & _ & Hstore & Hw' & _)];
      [done|].
    rewrite Hd in Hw'. rewrite Hw'. split.
    + exists stored. rewrite lookup_insert_eq. split; [done|].
      rewrite (toStore_isDefault _ _ _ Hstore), (toStore_userId _ _ _ Hstore).
      rewrite assignDto_userId. split; [done|]. simpl.
      destruct (UpdatePaymentMethodDto.isDefault dto); simpl in *; done.
    + intros id' p' Hp' Hu' Hne. rewrite lookup_insert_ne in Hp' by done.
      eapply others_not_default_clear; eauto.
  - simplify_eq.
    destruct (pm_setDefault_cases userId id w)
      as (w1 & r & Hrun & _ & _ & Hcase).
    rewrite Hx in Hrun. injection Hrun as <- <-.
    destruct Hcase as [(err & ? & _)|(p & Hp & Hu & _ & Hw' & _)]; [done|].
    rewrite Hw'. split.
    + eexists. rewrite lookup_insert_eq. done.
    + intros id' p' Hp' Hu' Hne. rewrite lookup_insert_ne in Hp' by done.
      eapply others_not_default_clear; eauto.
Qed.

Lemma empty_world_one_default : at_most_one_default empty_world.
Proof. intros id1 id2 p1 p2 H1. simpl in H1. by rewrite lookup_empty in H1. Qed.

(** C2.  From a state with at most one default per owner, every finite
    sequence of payment-method [create], [update] and [setDefault]
    requests (failed ones included) ends in a state with at most one
    default per owner; and a further request that asks for a default and
    succeeds leaves exactly its method as the owner's default, every
    other method of the owner having been cleared. *)
Theorem at_most_one_default_after_ops
    (ops : list PaymentMethodOp) (w : World) :
  at_most_one_default w →
  at_most_one_default (run_pm_ops ops w)
  ∧ ∀ op userId id w',
      sets_default op = Some (userId, id) →
      exec_pm_op op (run_pm_ops ops w) = (w', Ok tt) →
      at_most_one_default w'
      ∧ (∃ p, paymentMethodRepository w' !! id = Some p
              ∧ PaymentMethod.userId p = userId
              ∧ PaymentMethod.isDefault p = true)
      ∧ others_not_default userId id (paymentMethodRepository w').
Proof.
  intros Hw. pose proof (run_pm_ops_keep_one_default ops w Hw) as Hops.
  split; [done|]. intros op userId id w' Hs Hx. split.
  - pose proof (run_pm_op_keeps_one_default op _ Hops) as Hop.
    unfold run_pm_op in Hop. by rewrite Hx in Hop.
  - by eapply sets_default_effect.
Qed.

(** The sequence [example_default_ops] from the empty database: no owner
    has two defaults, and after the final update method A is the only
    default of its owner (scenario 4 of the specification, continued). *)
Lemma at_most_one_default_after_ops_witness :
  at_most_one_default empty_world
  ∧ at_most_one_default (run_pm_ops example_default_ops empty_world)
  ∧ (PaymentMethod.isDefault
       <$> paymentMethodRepository
             (run_pm_ops example_default_ops empty_world) !! "pm-a")
    = Some true
  ∧ (PaymentMethod.isDefault
       <$> paymentMethodRepository
             (run_pm_ops example_default_ops empty_world) !! "pm-b")
    = Some false.
Proof.
  split; [exact empty_world_one_default|].
  split.
  - exact (proj1 (at_most_one_default_after_ops example_default_ops
                    empty_world empty_world_one_default)).
  - split; vm_compute; reflexivity.
Defined.

End DefaultOperations.

(** ** The active default *)

Theorem getDefault_only_active_default (userId : string) (w : World) :
  ∃ r, PaymentMethodsService.getDefault userId w = (w, Ok r)
    ∧ (∀ e, r = Some e →
         paymentMethodRepository w !! e.1 = Some e.2
         ∧ PaymentMethod.userId e.2 = userId
         ∧ PaymentMethod.isDefault e.2 = true
         ∧ PaymentMethod.isActive e.2 = true)
    ∧ (at_most_one_default w →
       (∃ id p, paymentMethodRepository w !! id = Some p
                ∧ PaymentMethod.userId p = userId
                ∧ PaymentMethod.isDefault p = true
                ∧ PaymentMethod.isActive p = false) →
       r = None).
Proof.
  unfold PaymentMethodsService.getDefault. munfold. simpl.
  eexists. split; [done|].
  set (cond := λ r : Entity PaymentMethod.t, _).
  assert (Hsome : ∀ e, findOneWhere cond (paymentMethodRepository w) = Some e →
            paymentMethodRepository w !! e.1 = Some e.2
            ∧ PaymentMethod.userId e.2 = userId
            ∧ PaymentMethod.isDefault e.2 = true
            ∧ PaymentMethod.isActive e.2 = true).
  { intros e He. apply findOneWhere_Some in He as [Hl Hc].
    subst cond. simpl in Hc.
    apply andb_true_iff in Hc as [Hc Ha].
    apply andb_true_iff in Hc as [Hu Hd].
    apply eqb_true in Hu. done. }
  split; [done|].
  intros Hone (id & p & Hp & Hu & Hd & Ha).
  destruct (findOneWhere cond (paymentMethodRepository w)) as [e|] eqn:He;
    [|done].
  destruct (Hsome e eq_refl) as (Hl & Hu' & Hd' & Ha').
  assert (e.1 = id) as Hid by (eapply Hone; eauto; congruence).
  rewrite Hid, Hp in Hl. simplify_eq. congruence.
Qed.

(** The default of user-1 is inactive: [getDefault] answers [null]. *)

Lemma getDefault_only_active_default_witness :
  at_most_one_default example_inactive_default_world
  ∧ (PaymentMethodsService.getDefault "user-1"
       example_inactive_default_world).2 = Ok None.
Proof.
  assert (Hone : at_most_one_default example_inactive_default_world).
  { apply run_pm_ops_keep_one_default, empty_world_one_default. }
  split; [exact Hone|].
  destruct (getDefault_only_active_default "user-1"
              example_inactive_default_world) as (r & Hr & _ & Hnone).
  rewrite Hr. simpl. f_equal. apply Hnone; [exact Hone|].
  eexists "pm-a", _. split; [vm_compute; reflexivity|].
  repeat split.
Defined.

(** ** The deletion guard *)

Lemma remove_dups_all_equal {A} `{EqDecision A} (a : A) (l : list A) :
  l ≠ [] → (∀ x, x ∈ l → x = a) → remove_dups l = [a].
Proof.
  induction l as [|x l IH]; [done|]. intros _ Hall. simpl.
  assert (x = a) as -> by (apply Hall; left).
  destruct (decide_rel elem_of a l) as [Hin|Hnin].
  - apply IH.
    + intros ->. by apply not_elem_of_nil in Hin.
    + intros z Hz. apply Hall. by right.
  - destruct l as [|y l]; [done|].
    exfalso. apply Hnin.
    assert (y = a) as -> by (apply Hall; right; left). left.
Qed.

Lemma leftJoin_covers {A B} (on : A → B → bool) (primary : list A)
    (related : list B) (a : A) :
  a ∈ primary → ∃ b, (a, b) ∈ leftJoin on primary related.
Proof.
  unfold leftJoin. intros Ha.
  destruct (filter (λ b, on a b = true) related) as [|b0 bs] eqn:Hm.
  - exists None. apply list_elem_of_In, in_flat_map. exists a.
    split; [by apply list_elem_of_In|]. rewrite Hm. by left.
  - exists (Some b0). apply list_elem_of_In, in_flat_map. exists a.
    split; [by apply list_elem_of_In|]. rewrite Hm. by left.
Qed.

(** The count query of [remove] counts the method itself: it is 1 for
    every stored method, whatever the expenses are. *)
Lemma pm_countWithExpenses_stored id p w :
  paymentMethodRepository w !! id = Some p →
  PaymentMethodsService.countWithExpenses id w = 1.
Proof.
  intros Hp. unfold PaymentMethodsService.countWithExpenses, getCount.
  set (joined := leftJoin _ _ _).
  rewrite (remove_dups_all_equal id); [done| |].
  - assert ((id, p) ∈ rows (paymentMethodRepository w)) as Hin
      by by apply elem_of_map_to_list.
    destruct (leftJoin_covers
                (λ (pm : Entity PaymentMethod.t) (expense : Entity Expense.t),
                   String.eqb (Expense.paymentMethodId expense.2) pm.1)
                _ (rows (expenseRepository w)) _ Hin) as [b Hb].
    fold joined in Hb.
    assert (((id, p), b) ∈ filter (λ row, row.1.1 = id) joined) as Hf
      by (apply list_elem_of_filter; done).
    intros Hnil. apply (f_equal length) in Hnil.
    rewrite length_fmap in Hnil. simpl in Hnil.
    apply length_zero_iff_nil in Hnil. rewrite Hnil in Hf.
    by apply not_elem_of_nil in Hf.
  - intros x Hx. apply list_elem_of_fmap in Hx as (row & -> & Hrow).
    by apply list_elem_of_filter in Hrow as [? _].
Qed.

(** Hence [PaymentMethodsService.remove] never deletes: it throws for
    every owner and every id, and leaves the world as it was. *)
Lemma pm_remove_always_throws userId id w :
  ∃ e, PaymentMethodsService.remove userId id w = (w, Throw e).
Proof.
  unfold PaymentMethodsService.remove. munfold.
  destruct (PaymentMethodsService.findOne userId id w) as [w1 [ent|err]] eqn:Hf.
  - apply pm_findOne_Ok in Hf as (-> & Hid & Hp & Hu).
    unfold resolveRelation, PaymentMethod_relations. munfold.
    rewrite bool_decide_eq_true_2 by (right; left).
    rewrite (pm_countWithExpenses_stored id ent.2 w Hp).
    rewrite bool_decide_eq_true_2 by lia. eauto.
  - pose proof (pm_findOne_world userId id w) as Hw. rewrite Hf in Hw.
    simpl in Hw. subst. eauto.
Qed.

(** The same guard in [CategoriesService.remove] is not reached: the
    join names a relation that the [Category] entity does not declare.
    No category is ever deleted. *)
Lemma category_remove_always_throws userId id w :
  ∃ e, CategoriesService.remove userId id w = (w, Throw e).
Proof.
  unfold CategoriesService.remove. munfold.
  unfold CategoriesService.findOne.
  destruct (categoryRepository w !! id) as [c|]; [|eauto].
  destruct (_ || _); [|eauto]. simpl.
  destruct (Category.isSystem c); [eauto|].
  destruct (negb _); [eauto|].
  unfold resolveRelation, Category_relations. munfold. eauto.
Qed.

(** C3, at the failing input: user-1 owns the payment method pm-a, no
    expense exists, and [remove] still throws the
    has-associated-expenses error and leaves the method in place. *)
Theorem remove_unused_payment_method_rejected :
  expenseRepository example_unused_method_world = ∅
  ∧ (PaymentMethodsService.findOne "user-1" "pm-a"
       example_unused_method_world).2
    = Ok ("pm-a", example_method "Cash" "user-1" (Qc_of_Z 100) true false)
  ∧ PaymentMethodsService.remove "user-1" "pm-a" example_unused_method_world
    = (example_unused_method_world, Throw PaymentMethodsService.has_expenses).
Proof. repeat split; vm_compute; reflexivity. Qed.

(** ** Reordering categories *)

Section Reorder.

Implicit Types (w : World) (ids : list string).

Lemma cat_findOne_visible userId id w :
  CategoriesService.findOne userId id w
  = match categoryRepository w !! id with
    | Some c => if visible userId w id then (w, Ok (id, c))
                else (w, Throw CategoriesService.not_found)
    | None => (w, Throw CategoriesService.not_found)
    end.
Proof.
  unfold CategoriesService.findOne, visible.
  by destruct (categoryRepository w !! id).
Qed.

Lemma ownedBy_spec userId c :
  CategoriesService.ownedBy userId c = true ↔ Category.userId c = Some userId.
Proof. unfold CategoriesService.ownedBy. apply bool_decide_eq_true. Qed.

Lemma forallb_pointwise {A} (f g : A → bool) (l : list A) :
  (∀ x, f x = g x) → forallb f l = forallb g l.
Proof. intros H. induction l as [|x l IH]; [done|]. simpl. by rewrite H, IH. Qed.

Lemma set_orderIndex_twice i j c :
  Category.set_orderIndex i (Category.set_orderIndex j c)
  = Category.set_orderIndex i c.
Proof. done. Qed.

Lemma visible_after_save userId id0 c0 i w id :
  categoryRepository w !! id0 = Some c0 →
  visible userId
    (set_categoryRepository (<[id0 := Category.set_orderIndex i c0]>) w) id
  = visible userId w id.
Proof.
  intros H0. unfold visible. simpl.
  destruct (decide (id0 = id)) as [->|Hne].
  - by rewrite lookup_insert_eq, H0.
  - by rewrite lookup_insert_ne.
Qed.

(** The loop on a list of visible ids: it succeeds, writes only
    [orderIndex] of owned listed categories, and the last position of an
    id decides. *)
Lemma reorder_from_visible userId ids : ∀ k w,
  forallb (visible userId w) ids = true →
  ∃ m',
    CategoriesService.reorder_from userId k ids w
    = (set_categoryRepository (λ _, m') w, Ok tt)
    ∧ (∀ id, categoryRepository w !! id = None → m' !! id = None)
    ∧ (∀ id c, categoryRepository w !! id = Some c →
         CategoriesService.ownedBy userId c = false ∨ id ∉ ids →
         m' !! id = Some c)
    ∧ (∀ i id c, ids !! i = Some id →
         (∀ j, i < j → ids !! j ≠ Some id) →
         categoryRepository w !! id = Some c →
         CategoriesService.ownedBy userId c = true →
         m' !! id = Some (Category.set_orderIndex (Z.of_nat (k + i)) c)).
Proof.
  induction ids as [|id0 rest IH]; intros k w Hvis.
  - exists (categoryRepository w). simpl. munfold.
    split; [by destruct w|]. split; [done|]. split; [done|].
    intros i id c Hi. by rewrite lookup_nil in Hi.
  - simpl in Hvis. apply andb_true_iff in Hvis as [Hv0 Hrest].
    cbn [CategoriesService.reorder_from]. munfold.
    rewrite cat_findOne_visible.
    destruct (categoryRepository w !! id0) as [c0|] eqn:H0;
      [|by unfold visible in Hv0; rewrite H0 in Hv0].
    rewrite Hv0. cbn [fst snd].
    destruct (CategoriesService.ownedBy userId c0) eqn:Hown.
    + unfold CategoriesService.save. cbn [fst snd].
      set (w1 := set_categoryRepository
                   (<[id0 := Category.set_orderIndex (Z.of_nat k) c0]>) w).
      destruct (IH (S k) w1) as (m' & Hrun & Hnone & Hsame & Hpos).
      { rewrite <- Hrest. apply forallb_pointwise. intros id.
        by apply visible_after_save. }
      exists m'. rewrite Hrun. split; [done|].
      split; [|split].
      * intros id Hid. apply Hnone. subst w1. simpl.
        rewrite lookup_insert_ne; [done|]. intros ->. congruence.
      * intros id c Hc Hcase.
        assert (id ≠ id0) as Hne.
        { intros ->. destruct Hcase as [Hno|Hnotin].
          - congruence.
          - apply Hnotin. left. }
        apply Hsame.
        -- subst w1. simpl. by rewrite lookup_insert_ne.
        -- destruct Hcase as [?|Hnotin]; [by left|right].
           intros Hin. apply Hnotin. by right.
      * intros i id c Hi Hlast Hc Hoc.
        destruct i as [|i'].
        -- simpl in Hi. simplify_eq.
           replace (k + 0) with k by lia.
           apply Hsame.
           ++ subst w1. simpl. by rewrite lookup_insert_eq.
           ++ right. intros Hin.
              apply list_elem_of_lookup in Hin as [j Hj].
              apply (Hlast (S j)); [lia|done].
        -- simpl in Hi.
           replace (k + S i') with (S k + i') by lia.
           destruct (decide (id = id0)) as [->|Hne].
           ++ assert (c = c0) as -> by congruence.
              rewrite <- (set_orderIndex_twice _ (Z.of_nat k) c0).
              apply Hpos; [done| |by subst w1; simpl; rewrite lookup_insert_eq
                           |done].
              intros j Hj. apply (Hlast (S j)). lia.
           ++ apply Hpos; [done| |by subst w1; simpl; rewrite lookup_insert_ne
                           |done].
              intros j Hj. apply (Hlast (S j)). lia.
    + destruct (IH (S k) w Hrest) as (m' & Hrun & Hnone & Hsame & Hpos).
      exists m'. rewrite Hrun. split; [done|].
      split; [done|]. split.
      * intros id c Hc Hcase. apply Hsame; [done|].
        destruct Hcase as [?|Hnotin]; [by left|].
        destruct (decide (id = id0)) as [->|Hne].
        -- left. congruence.
        -- right. intros Hin. apply Hnotin. by right.
      * intros i id c Hi Hlast Hc Hoc.
        destruct i as [|i'].
        -- simpl in Hi. injection Hi as <-. rewrite H0 in Hc.
           injection Hc as <-. congruence.
        -- simpl in Hi. replace (k + S i') with (S k + i') by lia.
           apply Hpos; [done| |done|done].
           intros j Hj. apply (Hlast (S j)). lia.
Qed.

(** The loop on a list with an id that does not resolve: it throws
    [NotFoundException]. *)
Lemma reorder_from_invisible userId ids : ∀ k w,
  forallb (visible userId w) ids = false →
  ∃ w', CategoriesService.reorder_from userId k ids w
        = (w', Throw CategoriesService.not_found).
Proof.
  induction ids as [|id0 rest IH]; intros k w Hvis; [done|].
  simpl in Hvis.
  cbn [CategoriesService.reorder_from]. munfold.
  rewrite cat_findOne_visible.
  destruct (categoryRepository w !! id0) as [c0|] eqn:H0; [|eauto].
  destruct (visible userId w id0) eqn:Hv0; [|eauto].
  simpl in Hvis. cbn [fst snd].
  destruct (CategoriesService.ownedBy userId c0) eqn:Hown.
  - unfold CategoriesService.save. cbn [fst snd].
    edestruct (IH (S k)) as [w' Hw']; [|rewrite Hw'; eauto].
    rewrite <- Hvis. apply forallb_pointwise. intros id.
    by apply visible_after_save.
  - edestruct (IH (S k) w Hvis) as [w' Hw']. rewrite Hw'. eauto.
Qed.

(** C7, as amended.  When every listed id resolves for the caller (own
    or system category), [reorder] succeeds: every listed category the
    caller owns gets [orderIndex] = its (last) position in the list, and
    every other category, the listed system categories among them, is
    left as it was.  When some listed id does not resolve (a category of
    another owner, or an unknown id), [reorder] throws
    [NotFoundException]. *)
Theorem reorder_skips_only_system_categories
    (userId : string) (ids : list string) (w : World) :
  (forallb (visible userId w) ids = true →
   ∃ w', CategoriesService.reorder userId ids w = (w', Ok tt)
     ∧ paymentMethodRepository w' = paymentMethodRepository w
     ∧ expenseRepository w' = expenseRepository w
     ∧ (∀ i id c, ids !! i = Some id →
          (∀ j, i < j → ids !! j ≠ Some id) →
          categoryRepository w !! id = Some c →
          Category.userId c = Some userId →
          categoryRepository w' !! id
          = Some (Category.set_orderIndex (Z.of_nat i) c))
     ∧ (∀ id c, categoryRepository w !! id = Some c →
          Category.userId c ≠ Some userId ∨ id ∉ ids →
          categoryRepository w' !! id = Some c))
  ∧ (forallb (visible userId w) ids = false →
     ∃ w', CategoriesService.reorder userId ids w
           = (w', Throw CategoriesService.not_found)).
Proof.
  unfold CategoriesService.reorder. split; intros Hvis.
  - destruct (reorder_from_visible userId ids 0 w Hvis)
      as (m' & Hrun & _ & Hsame & Hpos).
    munfold. rewrite Hrun. eexists. split; [done|]. simpl.
    split; [done|]. split; [done|]. split.
    + intros i id c Hi Hlast Hc Hu.
      apply (Hpos i id c Hi Hlast Hc). by apply ownedBy_spec.
    + intros id c Hc Hcase. apply Hsame; [done|].
      destruct Hcase as [Hu|Hn]; [left|by right].
      destruct (CategoriesService.ownedBy userId c) eqn:Ho; [|done].
      by apply ownedBy_spec in Ho.
  - destruct (reorder_from_invisible userId ids 0 w Hvis) as [w' Hw'].
    munfold. rewrite Hw'. eauto.
Qed.

(** user-1 lists two own categories around the system category: the own
    ones get positions 0 and 2, the system one keeps its index. *)
Lemma reorder_skips_only_system_categories_witness :
  forallb (visible "user-1" example_categories_world)
    ["cat-pets"; "cat-food"; "cat-trips"] = true
  ∧ ∃ w', CategoriesService.reorder "user-1"
            ["cat-pets"; "cat-food"; "cat-trips"] example_categories_world
          = (w', Ok tt)
      ∧ categoryRepository w' !! "cat-trips"
        = Some (example_category "Viajes" false 2 (Some "user-1"))
      ∧ categoryRepository w' !! "cat-food"
        = Some (example_category "Comida" true 0 None).
Proof.
  split; [reflexivity|].
  destruct (reorder_skips_only_system_categories "user-1"
              ["cat-pets"; "cat-food"; "cat-trips"] example_categories_world)
    as [Hok _].
  destruct (Hok eq_refl) as (w' & Hrun & _ & _ & Hpos & Hsame).
  exists w'. split; [exact Hrun|]. split.
  - apply (Hpos 2%nat "cat-trips"
             (example_category "Viajes" false 7 (Some "user-1")));
      [reflexivity| |reflexivity|reflexivity].
    intros j Hj Hl. destruct j as [|[|[|j]]]; try lia. discriminate.
  - apply (Hsame "cat-food" (example_category "Comida" true 0 None));
      [reflexivity|]. left. discriminate.
Defined.

(** C7 as stated fails: cat-other belongs to user-2, and listing it makes
    the reorder of user-1 throw instead of skipping it; the category
    listed before it has already been renumbered. *)
Lemma reorder_foreign_id_raises :
  (Category.userId <$> categoryRepository example_categories_world !! "cat-other")
  = Some (Some "user-2")
  ∧ (CategoriesService.reorder "user-1" ["cat-trips"; "cat-other"]
       example_categories_world).2
    = Throw CategoriesService.not_found
  ∧ (Category.orderIndex
       <$> categoryRepository
             (CategoriesService.reorder "user-1" ["cat-trips"; "cat-other"]
                example_categories_world).1 !! "cat-trips")
    = Some 0%Z.
Proof. repeat split; vm_compute; reflexivity. Qed.

End Reorder.

(** ** Category suggestion *)

Section Suggestion.

Implicit Types (w : World) (categories : list (Entity Category.t)).

Lemma findAll_returns userId w :
  ∃ w1 categories,
    CategoriesService.findAll userId w = (w1, Ok categories)
    ∧ CategoriesService.findAll userId w1 = (w1, Ok categories).
Proof.
  unfold CategoriesService.findAll. munfold.
  destruct (cacheManager w !! ("categories:" +:+ userId)) as [[s|cs]|] eqn:Hc;
    simpl.
  - eexists _, _. split; [done|]. simpl. by rewrite lookup_insert_eq.
  - eexists _, _. split; [done|]. by rewrite Hc.
  - eexists _, _. split; [done|]. simpl. by rewrite lookup_insert_eq.
Qed.

Lemma findByName_first name categories c :
  ExpensesService.findByName name categories = Some c
  ↔ first_named name categories c.
Proof.
  unfold ExpensesService.findByName, first_named. split.
  - destruct (list_find _ _) as [[i x]|] eqn:Hf; [|done].
    simpl. intros [= <-]. apply list_find_Some in Hf as (Hi & Hn & Hlt).
    exists i. split; [done|]. split; [done|].
    intros j c' Hj Hji. by apply (Hlt j c').
  - intros (i & Hi & Hn & Hlt).
    apply fmap_Some. exists (i, c). split; [|done].
    apply list_find_Some. split; [done|]. split; [done|].
    intros j y Hj Hji. by apply (Hlt j y).
Qed.

Lemma findByName_none name categories :
  ExpensesService.findByName name categories = None
  ↔ none_named name categories.
Proof.
  unfold ExpensesService.findByName, none_named. split.
  - destruct (list_find _ _) as [[i x]|] eqn:Hf; [done|]. intros _.
    apply list_find_None in Hf. intros c Hc.
    rewrite Forall_forall in Hf. apply Hf. by apply list_elem_of_In.
  - intros Hn.
    destruct (list_find _ _) as [[i x]|] eqn:Hf; [|done].
    apply list_find_Some in Hf as (Hi & Hx & _).
    exfalso. apply (Hn x); [|done]. by eapply list_elem_of_lookup_2.
Qed.

Lemma categoryMap_get_Some key name :
  ExpensesService.categoryMap_get key = Some name
  ↔ (key, name) ∈ ExpensesService.categoryMap.
Proof.
  unfold ExpensesService.categoryMap_get. split.
  - destruct (list_find _ _) as [[i [k v]]|] eqn:Hf; [|done].
    simpl. intros [= <-]. apply list_find_Some in Hf as (Hi & Hk & _).
    simpl in Hk. subst k. by eapply list_elem_of_lookup_2.
  - intros Hin. unfold ExpensesService.categoryMap in *.
    repeat (apply elem_of_cons in Hin as [Hin|Hin];
            [injection Hin as -> ->; reflexivity|]).
    by apply not_elem_of_nil in Hin.
Qed.

Lemma suggestCategory_fallback userId description w w1 categories :
  CategoriesService.findAll userId w = (w1, Ok categories) →
  ∃ r, ExpensesService.suggestCategory userId description w = (w1, Ok r)
       ∧ fallback_rule categories r.
Proof.
  intros Hall. unfold ExpensesService.suggestCategory. munfold.
  rewrite Hall. eexists. split; [done|]. split.
  - intros c Hc Hid. apply findByName_first in Hc. rewrite Hc.
    unfold string_truthy. apply eqb_false in Hid. by rewrite Hid.
  - intros Hn. apply findByName_none in Hn. by rewrite Hn.
Qed.

(** C6, as amended.  With [categories] the list that [findAll] gives for
    the owner: [suggestCategoryFromHint] returns the id of the first
    category whose name is the one that the table [categoryMap] gives
    for the lower-cased hint (the Spanish keywords comida, transporte,
    entretenimiento, salud, educacion, compras, servicios); when the
    hint is absent, is no keyword, or names a category the owner does
    not have, it returns what [suggestCategory] returns.
    [suggestCategory] maps no keyword: whatever its description is, it
    returns the id of the first category literally named "Otros", and
    the id of the first category of the list when there is none. *)
Theorem suggestCategory_rule (userId : string) (hint : option string)
    (w : World) :
  ∃ w1 categories r,
    CategoriesService.findAll userId w = (w1, Ok categories)
    ∧ ExpensesService.suggestCategoryFromHint userId hint w = (w1, Ok r)
    ∧ (∀ h name c,
         hint = Some h →
         (ExpensesService.toLowerCase h, name) ∈ ExpensesService.categoryMap →
         first_named name categories c →
         r = Some c.1)
    ∧ ((∀ h name,
          hint = Some h →
          (ExpensesService.toLowerCase h, name) ∈ ExpensesService.categoryMap →
          none_named name categories) →
       fallback_rule categories r)
    ∧ (∀ description,
         ∃ r0, ExpensesService.suggestCategory userId description w
               = (w1, Ok r0)
               ∧ fallback_rule categories r0).
Proof.
  destruct (findAll_returns userId w) as (w1 & categories & Hall & Hagain).
  exists w1, categories.
  assert (Hfb : ∀ description,
            ∃ r0, ExpensesService.suggestCategory userId description w
                  = (w1, Ok r0) ∧ fallback_rule categories r0)
    by (intros; by apply suggestCategory_fallback).
  destruct (suggestCategory_fallback userId "" w1 w1 categories Hagain)
    as (r1 & Hr1 & Hrule1).
  destruct (Hfb "") as (r0 & Hr0 & Hrule0).
  unfold ExpensesService.suggestCategoryFromHint.
  destruct hint as [h|]; simpl.
  2:{ exists r0. split; [done|]. split; [done|]. split; [done|]. done. }
  destruct (string_truthy h) eqn:Hh; simpl.
  2:{ exists r0. split; [done|]. split; [done|].
      unfold string_truthy in Hh. apply negb_false_iff, eqb_true in Hh.
      subst h. split; [|done].
      intros h name c [= <-] Hin. apply categoryMap_get_Some in Hin.
      discriminate. }
  munfold. rewrite Hall.
  destruct (ExpensesService.categoryMap_get (ExpensesService.toLowerCase h))
    as [name|] eqn:Hget.
  2:{ exists r1. split; [done|]. split; [done|]. split; [|done].
      intros h' name c [= <-] Hin. apply categoryMap_get_Some in Hin.
      congruence. }
  assert (string_truthy name = true) as ->.
  { apply categoryMap_get_Some in Hget.
    unfold ExpensesService.categoryMap in Hget.
    repeat (apply elem_of_cons in Hget as [Hget|Hget];
            [injection Hget as _ ->; reflexivity|]).
    by apply not_elem_of_nil in Hget. }
  destruct (ExpensesService.findByName name categories) as [c|] eqn:Hfind.
  - exists (Some c.1). split; [done|]. split; [done|]. split; [|split; [|done]].
    + intros h' name' c' [= <-] Hin Hfirst.
      apply categoryMap_get_Some in Hin. rewrite Hget in Hin.
      injection Hin as <-. apply findByName_first in Hfirst. congruence.
    + intros Hno. exfalso.
      apply categoryMap_get_Some in Hget.
      specialize (Hno h name eq_refl Hget).
      apply findByName_none in Hno. congruence.
  - exists r1. split; [done|]. split; [done|]. split; [|done].
    intros h' name' c' [= <-] Hin Hfirst.
    apply categoryMap_get_Some in Hin. rewrite Hget in Hin.
    injection Hin as <-. apply findByName_first in Hfirst. congruence.
Qed.

(** The hint "COMIDA" selects the system category "Comida"; the hint
    "food" is no keyword and falls back to "Otros". *)
Lemma suggestCategory_rule_witness :
  (ExpensesService.suggestCategoryFromHint "user-1" (Some "COMIDA")
     example_suggest_world).2 = Ok (Some "cat-food")
  ∧ (ExpensesService.suggestCategoryFromHint "user-1" (Some "food")
       example_suggest_world).2 = Ok (Some "cat-misc").
Proof.
  split.
  - destruct (suggestCategory_rule "user-1" (Some "COMIDA")
                example_suggest_world)
      as (w1 & categories & r & Hall & Hrun & Hkey & _).
    rewrite Hrun. simpl. f_equal.
    apply (Hkey "COMIDA" "Comida"
             ("cat-food", example_category "Comida" true 0 None));
      [reflexivity| |].
    + apply categoryMap_get_Some. reflexivity.
    + apply findByName_first.
      vm_compute in Hall. injection Hall as _ <-.
      vm_compute. reflexivity.
  - vm_compute. reflexivity.
Defined.

(** C6 as stated fails, twice.  The owner has a category literally
    named "Other" and none named "Otros": without a matching hint the
    suggestion is the first category of the list, not "Other".  And
    [suggestCategory] maps no keyword: for the description "comida" it
    returns "Otros" where [suggestCategoryFromHint] returns "Comida". *)
Lemma suggestCategory_ignores_Other :
  (CategoriesService.findAll "user-1" example_other_world).2
  = Ok [ ("cat-1", example_category "Ahorros" false 0 (Some "user-1"));
         ("cat-2", example_category "Other" false 1 (Some "user-1")) ]
  ∧ (ExpensesService.suggestCategoryFromHint "user-1" None
       example_other_world).2 = Ok (Some "cat-1")
  ∧ (ExpensesService.suggestCategoryFromHint "user-1" (Some "other")
       example_other_world).2 = Ok (Some "cat-1")
  ∧ (ExpensesService.suggestCategory "user-1" "taxi"
       example_other_world).2 = Ok (Some "cat-1")
  ∧ (ExpensesService.suggestCategoryFromHint "user-1" (Some "comida")
       example_suggest_world).2 = Ok (Some "cat-food")
  ∧ (ExpensesService.suggestCategory "user-1" "comida"
       example_suggest_world).2 = Ok (Some "cat-misc").
Proof. repeat split; vm_compute; reflexivity. Qed.

End Suggestion.

(** ** Values of the decimal columns *)

Section DecimalValues.

Lemma cents_hundredths (n : Z) : cents (Q2Qc (n # 100)) = n.
Proof.
  unfold cents. cbn [this Q2Qc].
  pose proof (Qred_correct (n # 100)) as Heq.
  destruct (Qred (n # 100)) as [n' d'].
  unfold Qeq in Heq. cbn [Qnum Qden] in Heq.
  assert (Hsgn : Z.sgn n' = Z.sgn n).
  { apply (f_equal Z.sgn) in Heq. rewrite !Z.sgn_mul in Heq.
    cbn [Z.sgn] in Heq. lia. }
  assert (Habs : (Z.abs n' * 100 = Z.abs n * Z.pos d')%Z).
  { apply (f_equal Z.abs) in Heq. rewrite !Z.abs_mul in Heq.
    cbn [Z.abs] in Heq. exact Heq. }
  cbn [Qnum Qden].
  replace (Z.abs n' * 200 + Z.pos d')%Z
    with (Z.pos d' + Z.abs n * (2 * Z.pos d'))%Z by lia.
  rewrite Z.div_add by lia. rewrite Z.div_small by lia.
  rewrite Hsgn. lia.
Qed.

Lemma toDecimal_Ok (q x : Qc) :
  toDecimal q = Ok x → x = Q2Qc (cents q # 100).
Proof. unfold toDecimal. destruct (_ <? _)%Z; [|done]. by intros [= <-]. Qed.

Lemma toDecimal_Throw (q : Qc) err :
  toDecimal q = Throw err → err = numeric_overflow.
Proof. unfold toDecimal. destruct (_ <? _)%Z; [done|]. by intros [= <-]. Qed.

Lemma storedDecimal_Throw (stored : option Qc) (value : Qc) err :
  storedDecimal stored value = Throw err → err = numeric_overflow.
Proof.
  unfold storedDecimal. destruct stored as [s|]; [|apply toDecimal_Throw].
  destruct (bool_decide _); [done|apply toDecimal_Throw].
Qed.

(** What the column has stored is a value of the column. *)
Lemma toDecimal_is_decimal (q x : Qc) : toDecimal q = Ok x → is_decimal x.
Proof.
  unfold is_decimal, toDecimal.
  destruct (_ <? _)%Z eqn:Hfit; [|done]. intros [= <-].
  by rewrite cents_hundredths, Hfit.
Qed.

Lemma storedDecimal_is_decimal (s value x : Qc) :
  is_decimal s → storedDecimal (Some s) value = Ok x → is_decimal x.
Proof.
  unfold storedDecimal. intros Hs. case_bool_decide.
  - by intros [= <-].
  - apply toDecimal_is_decimal.
Qed.

(** A value of the column is stored as it is. *)
Lemma storedDecimal_value (s value x : Qc) :
  is_decimal value → storedDecimal (Some s) value = Ok x → x = value.
Proof.
  unfold storedDecimal, is_decimal. intros Hv. case_bool_decide as Hsame.
  - intros [= <-]. done.
  - rewrite Hv. by intros [= <-].
Qed.

Lemma hundredths_minus (m n : Z) :
  (Q2Qc (m # 100) - Q2Qc (n # 100))%Qc = Q2Qc ((m - n) # 100).
Proof.
  apply Qc_is_canon. unfold Qcminus, Qcplus, Qcopp, Q2Qc. cbn [this].
  rewrite !Qred_correct. unfold Qeq, Qplus, Qopp. cbn [Qnum Qden]. lia.
Qed.

Lemma hundredths_plus (m n : Z) :
  (Q2Qc (m # 100) + Q2Qc (n # 100))%Qc = Q2Qc ((m + n) # 100).
Proof.
  apply Qc_is_canon. unfold Qcplus, Q2Qc. cbn [this].
  rewrite !Qred_correct. unfold Qeq, Qplus. cbn [Qnum Qden]. lia.
Qed.

(** The difference and the sum of two values of a column are stored as
    they are, when they fit. *)
Lemma is_decimal_minus (a b x : Qc) :
  is_decimal a → is_decimal b → toDecimal (b - a) = Ok x → x = (b - a)%Qc.
Proof.
  intros Ha Hb Hx. apply toDecimal_Ok in Ha, Hb, Hx.
  rewrite Hx. rewrite Ha, Hb at 1. rewrite hundredths_minus.
  by rewrite cents_hundredths, <- hundredths_minus, <- Ha, <- Hb.
Qed.

Lemma is_decimal_plus (a b x : Qc) :
  is_decimal a → is_decimal b → toDecimal (b + a) = Ok x → x = (b + a)%Qc.
Proof.
  intros Ha Hb Hx. apply toDecimal_Ok in Ha, Hb, Hx.
  rewrite Hx. rewrite Ha, Hb at 1. rewrite hundredths_plus.
  by rewrite cents_hundredths, <- hundredths_plus, <- Ha, <- Hb.
Qed.

Lemma storedDecimal_minus (a b x : Qc) :
  is_decimal a → is_decimal b →
  storedDecimal (Some b) (b - a) = Ok x → x = (b - a)%Qc.
Proof.
  intros Ha Hb. unfold storedDecimal. case_bool_decide as Hsame.
  - intros [= <-]. done.
  - by apply is_decimal_minus.
Qed.

Lemma storedDecimal_plus (a b x : Qc) :
  is_decimal a → is_decimal b →
  storedDecimal (Some b) (b + a) = Ok x → x = (b + a)%Qc.
Proof.
  intros Ha Hb. unfold storedDecimal. case_bool_decide as Hsame.
  - intros [= <-]. done.
  - by apply is_decimal_plus.
Qed.

End DecimalValues.

(** ** Balance conservation *)

Section LedgerPrimitives.

Implicit Types (w : World) (pm : PaymentMethod.t).

Lemma cat_findOne_world userId id w :
  (CategoriesService.findOne userId id w).1 = w.
Proof. unfold CategoriesService.findOne. repeat case_match; done. Qed.

Lemma cat_findOne_cases userId id w :
  (∃ c, CategoriesService.findOne userId id w = (w, Ok c))
  ∨ (∃ err, CategoriesService.findOne userId id w = (w, Throw err)).
Proof. unfold CategoriesService.findOne. repeat case_match; eauto. Qed.

Lemma ex_findOne_cases userId id w :
  (∃ e, expenseRepository w !! id = Some e
        ∧ Expense.userId e = userId
        ∧ ExpensesService.findOne userId id w = (w, Ok (id, e)))
  ∨ (∃ err, ExpensesService.findOne userId id w = (w, Throw err)).
Proof.
  unfold ExpensesService.findOne.
  destruct (expenseRepository w !! id) as [e|]; [|eauto].
  destruct (String.eqb _ _) eqn:Hu; [|eauto].
  apply eqb_true in Hu. left. eauto.
Qed.

Lemma bind_Ok {A B} (m : M A) (f : A → M B) w w' b :
  (m ≫= f) w = (w', Ok b) →
  ∃ w1 a, m w = (w1, Ok a) ∧ f a w1 = (w', Ok b).
Proof.
  unfold mbind, M_bind. destruct (m w) as [w1 [a|e]]; [|done]. eauto.
Qed.

Lemma ret_Ok {A} (a b : A) w w' :
  (mret a : M A) w = (w', Ok b) → w' = w ∧ b = a.
Proof. unfold mret, M_ret. by intros [= <- <-]. Qed.

Lemma ex_findOne_Ok userId id w w' e :
  ExpensesService.findOne userId id w = (w', Ok e) →
  w' = w ∧ e.1 = id ∧ expenseRepository w !! id = Some e.2
  ∧ Expense.userId e.2 = userId.
Proof.
  destruct (ex_findOne_cases userId id w) as [(e0 & He & Hu & ->)|[err ->]];
    [|done].
  by intros [= <- <-].
Qed.

Lemma cat_findOne_Ok userId id w w' c :
  CategoriesService.findOne userId id w = (w', Ok c) → w' = w.
Proof.
  destruct (cat_findOne_cases userId id w) as [[c0 ->]|[err ->]]; [|done].
  by intros [= <- _].
Qed.

Lemma updateBalance_frame userId id amount operation w w' r :
  PaymentMethodsService.updateBalance userId id amount operation w = (w', r) →
  expenseRepository w' = expenseRepository w
  ∧ categoryRepository w' = categoryRepository w
  ∧ cacheManager w' = cacheManager w.
Proof.
  destruct (pm_updateBalance_cases userId id amount operation w)
    as (w1 & r1 & -> & He & Hc & Hk & _).
  by intros [= <- _].
Qed.

(** [insert]: a value that does not fit or a taken key, and nothing is
    written; or the row with its amount as the database stores it. *)
Lemma ex_insert_cases newId row w :
  (∃ err, ExpensesService.insert newId row w = (w, Throw err))
  ∨ (∃ amount,
       toDecimal (Expense.amount row) = Ok amount
       ∧ expenseRepository w !! newId = None
       ∧ ExpensesService.insert newId row w
         = (set_expenseRepository
              (<[newId := Expense.set_amount amount row]>) w,
            Ok (newId, row))).
Proof.
  unfold ExpensesService.insert.
  destruct (toDecimal (Expense.amount row)) as [amount|err]; [|eauto].
  destruct (expenseRepository w !! newId) eqn:Hnew; [eauto|].
  right. exists amount. done.
Qed.

(** [save] of a loaded entity: a value that does not fit, and nothing
    is written; or the row with the columns of the entity, except that
    it keeps its two foreign keys. *)
Lemma ex_save_cases id entity loaded w :
  expenseRepository w !! id = Some loaded →
  (∃ err, ExpensesService.save (id, entity) w = (w, Throw err))
  ∨ (∃ amount,
       storedDecimal (Some (Expense.amount loaded)) (Expense.amount entity)
       = Ok amount
       ∧ ExpensesService.save (id, entity) w
         = (set_expenseRepository
              (<[id := Expense.set_joinColumns (Expense.categoryId loaded)
                         (Expense.paymentMethodId loaded)
                         (Expense.set_amount amount entity)]>) w,
            Ok (id, entity))).
Proof.
  intros Hloaded. unfold ExpensesService.save. cbn [fst snd].
  rewrite Hloaded.
  destruct (storedDecimal _ _) as [amount|err]; [|eauto].
  right. exists amount. done.
Qed.

End LedgerPrimitives.

Section Charged.

Implicit Types (m : gmap string Expense.t) (e : Expense.t).

Lemma contribution_commutes p (e1 e2 : Expense.t) (y : Qc) :
  (contribution p e1 + (contribution p e2 + y)
   = contribution p e2 + (contribution p e1 + y))%Qc.
Proof. ring. Qed.

Lemma charged_in_empty p : charged_in p ∅ = 0%Qc.
Proof. unfold charged_in. by rewrite map_fold_empty. Qed.

Lemma charged_in_insert_new p k e m :
  m !! k = None →
  charged_in p (<[k := e]> m) = (contribution p e + charged_in p m)%Qc.
Proof.
  intros Hk. unfold charged_in.
  rewrite map_fold_insert_L; [done| |done].
  intros. apply contribution_commutes.
Qed.

Lemma charged_in_delete p k e m :
  m !! k = Some e →
  charged_in p (delete k m) = (charged_in p m - contribution p e)%Qc.
Proof.
  intros Hk. unfold charged_in.
  rewrite (map_fold_delete_L _ _ k e m); [ring| |done].
  intros. apply contribution_commutes.
Qed.

Lemma charged_in_insert_old p k e e0 m :
  m !! k = Some e0 →
  charged_in p (<[k := e]> m)
  = (contribution p e + charged_in p m - contribution p e0)%Qc.
Proof.
  intros Hk. rewrite <- insert_delete_eq.
  rewrite charged_in_insert_new by apply lookup_delete_eq.
  rewrite (charged_in_delete p k e0) by done. ring.
Qed.

End Charged.

Section LedgerTotals.

Implicit Types (w : World) (e : Expense.t) (pm : PaymentMethod.t).

Lemma total_insert_new p k e w :
  expenseRepository w !! k = None →
  ledger_total p (set_expenseRepository (<[k := e]>) w)
  = (ledger_total p w + contribution p e)%Qc.
Proof.
  intros Hk. unfold ledger_total, charged, balance_at. simpl.
  rewrite charged_in_insert_new by done. ring.
Qed.

Lemma total_save p k e e0 w :
  expenseRepository w !! k = Some e0 →
  ledger_total p (set_expenseRepository (<[k := e]>) w)
  = (ledger_total p w + contribution p e - contribution p e0)%Qc.
Proof.
  intros Hk. unfold ledger_total, charged, balance_at. simpl.
  rewrite (charged_in_insert_old p k e e0) by done. ring.
Qed.

Lemma total_delete p k e0 w :
  expenseRepository w !! k = Some e0 →
  ledger_total p (set_expenseRepository (delete k) w)
  = (ledger_total p w - contribution p e0)%Qc.
Proof.
  intros Hk. unfold ledger_total, charged, balance_at. simpl.
  rewrite (charged_in_delete p k e0) by done. ring.
Qed.

Lemma total_set_balance p pid pm b w :
  paymentMethodRepository w !! pid = Some pm →
  ledger_total p
    (set_paymentMethodRepository (<[pid := PaymentMethod.set_balance b pm]>) w)
  = (ledger_total p w
     + (if String.eqb pid p then b - PaymentMethod.balance pm else 0))%Qc.
Proof.
  intros Hp. unfold ledger_total, charged, balance_at. simpl.
  destruct (String.eqb pid p) eqn:Heq.
  - apply eqb_true in Heq as ->. rewrite lookup_insert_eq, Hp. simpl. ring.
  - apply eqb_false in Heq. rewrite lookup_insert_ne by done. ring.
Qed.

Lemma total_set_cache p f w :
  ledger_total p (set_cacheManager f w) = ledger_total p w.
Proof. done. Qed.

Lemma resolve_insert k e w :
  references_resolve w →
  (∃ pm, paymentMethodRepository w !! Expense.paymentMethodId e = Some pm
         ∧ PaymentMethod.userId pm = Expense.userId e) →
  references_resolve (set_expenseRepository (<[k := e]>) w).
Proof.
  intros Hw He id e' Hid. simpl in *.
  destruct (decide (k = id)) as [->|Hne].
  - rewrite lookup_insert_eq in Hid. by simplify_eq.
  - rewrite lookup_insert_ne in Hid by done. by eapply Hw.
Qed.

Lemma resolve_delete k w :
  references_resolve w →
  references_resolve (set_expenseRepository (delete k) w).
Proof.
  intros Hw id e Hid. simpl in *.
  apply lookup_delete_Some in Hid as [_ Hid]. by eapply Hw.
Qed.

Lemma resolve_set_balance pid pm b w :
  references_resolve w →
  paymentMethodRepository w !! pid = Some pm →
  references_resolve
    (set_paymentMethodRepository (<[pid := PaymentMethod.set_balance b pm]>) w).
Proof.
  intros Hw Hp id e Hid. simpl in *.
  destruct (Hw id e Hid) as (pm' & Hpm' & Hu).
  destruct (decide (pid = Expense.paymentMethodId e)) as [Heq|Hne].
  - rewrite <- Heq, lookup_insert_eq. eexists. split; [done|].
    simpl. rewrite <- Heq in Hpm'. congruence.
  - rewrite lookup_insert_ne by done. eauto.
Qed.

Lemma resolve_set_cache f w :
  references_resolve w → references_resolve (set_cacheManager f w).
Proof. done. Qed.

Lemma same_methods_refl w : same_methods w w.
Proof. done. Qed.

Lemma same_methods_trans w1 w2 w3 :
  same_methods w1 w2 → same_methods w2 w3 → same_methods w1 w3.
Proof. intros H12 H23 p. by rewrite H23, H12. Qed.

Lemma same_methods_expenses f w : same_methods w (set_expenseRepository f w).
Proof. done. Qed.

Lemma same_methods_cache f w : same_methods w (set_cacheManager f w).
Proof. done. Qed.

Lemma same_methods_set_balance pid pm b w :
  paymentMethodRepository w !! pid = Some pm →
  same_methods w
    (set_paymentMethodRepository (<[pid := PaymentMethod.set_balance b pm]>) w).
Proof.
  intros Hp p. simpl.
  destruct (decide (pid = p)) as [->|Hne].
  - by rewrite lookup_insert_eq, Hp.
  - by rewrite lookup_insert_ne.
Qed.

Lemma decimal_set_cache f w :
  decimal_world w → decimal_world (set_cacheManager f w).
Proof. done. Qed.

Lemma decimal_insert k e w :
  decimal_world w → is_decimal (Expense.amount e) →
  decimal_world (set_expenseRepository (<[k := e]>) w).
Proof.
  intros [Hb Ha] He. split; [done|]. intros id e' Hid. simpl in Hid.
  destruct (decide (k = id)) as [->|Hne].
  - rewrite lookup_insert_eq in Hid. by simplify_eq.
  - rewrite lookup_insert_ne in Hid by done. by eapply Ha.
Qed.

Lemma decimal_delete k w :
  decimal_world w → decimal_world (set_expenseRepository (delete k) w).
Proof.
  intros [Hb Ha]. split; [done|]. intros id e Hid. simpl in Hid.
  apply lookup_delete_Some in Hid as [_ Hid]. by eapply Ha.
Qed.

Lemma decimal_set_balance pid pm b w :
  decimal_world w → is_decimal b →
  decimal_world
    (set_paymentMethodRepository (<[pid := PaymentMethod.set_balance b pm]>) w).
Proof.
  intros [Hb Ha] Hdec. split; [|done]. intros p pm' Hp. simpl in Hp.
  destruct (decide (pid = p)) as [->|Hne].
  - rewrite lookup_insert_eq in Hp. by simplify_eq.
  - rewrite lookup_insert_ne in Hp by done. by eapply Hb.
Qed.

(** [updateBalance] on a method of the user, with values of the columns:
    the balance does not fit and nothing is written, or the exact sum
    (difference) is the new balance. *)
Lemma updateBalance_decimal userId id amount operation w pm :
  paymentMethodRepository w !! id = Some pm →
  PaymentMethod.userId pm = userId →
  is_decimal amount →
  is_decimal (PaymentMethod.balance pm) →
  let b := match operation with
           | add => (PaymentMethod.balance pm + amount)%Qc
           | subtract => (PaymentMethod.balance pm - amount)%Qc
           end in
  PaymentMethodsService.updateBalance userId id amount operation w
  = (w, Throw numeric_overflow)
  ∨ (is_decimal b
     ∧ PaymentMethodsService.updateBalance userId id amount operation w
       = (set_paymentMethodRepository
            (<[id := PaymentMethod.set_balance b pm]>) w,
          Ok (id, PaymentMethod.set_balance b pm))).
Proof.
  intros Hp Hu Ha Hb b. subst b.
  destruct (storedDecimal (Some (PaymentMethod.balance pm))
              (match operation with
               | add => PaymentMethod.balance pm + amount
               | subtract => PaymentMethod.balance pm - amount
               end)%Qc) as [x|err] eqn:Hx.
  - right.
    assert (x = match operation with
                | add => PaymentMethod.balance pm + amount
                | subtract => PaymentMethod.balance pm - amount
                end%Qc) as Hxb
      by (destruct operation;
          [by apply storedDecimal_plus in Hx
          |by apply storedDecimal_minus in Hx]).
    split; [rewrite <- Hxb; by eapply storedDecimal_is_decimal|].
    rewrite (updateBalance_found _ _ _ _ _ _ x Hp Hu Hx). by rewrite Hxb.
  - left. apply storedDecimal_Throw in Hx as Herr. subst err.
    unfold PaymentMethodsService.updateBalance, mbind, M_bind.
    rewrite (pm_findOne_found userId id w pm Hp Hu). cbn [fst snd].
    unfold PaymentMethodsService.save. cbn [fst snd].
    by rewrite Hp, toStore_balance, Hx.
Qed.

End LedgerTotals.

Section LedgerOperations.

Context (storageService : StorageService.t).
Implicit Types (w : World) (e : Expense.t) (pm : PaymentMethod.t).

Lemma ledger_step_ok_refl w :
  references_resolve w → decimal_world w → ledger_step_ok w w.
Proof.
  intros Hw Hd. split; [done|]. split; [done|].
  split; [apply same_methods_refl|done].
Qed.

Lemma contribution_own e :
  contribution (Expense.paymentMethodId e) e = Expense.amount e.
Proof. unfold contribution. by rewrite String.eqb_refl. Qed.

Lemma contribution_other p e :
  Expense.paymentMethodId e ≠ p → contribution p e = 0%Qc.
Proof. intros Hne. unfold contribution. apply eqb_false in Hne. by rewrite Hne. Qed.

Lemma exec_then_ret_result {A} (m : M A) w w' r :
  m w = (w', r) →
  ((m;; mret tt) w).2 ≠ Throw numeric_overflow →
  r ≠ Throw numeric_overflow.
Proof. munfold. intros -> Hno ->. by apply Hno. Qed.

(** The common end of the three creation paths: insert the row, debit
    its payment method, drop the cached summary. *)
Lemma create_tail_ok userId newId row w pm w' r :
  references_resolve w →
  decimal_world w →
  paymentMethodRepository w !! Expense.paymentMethodId row = Some pm →
  PaymentMethod.userId pm = userId →
  Expense.userId row = userId →
  is_decimal (Expense.amount row) →
  (saved ← ExpensesService.insert newId row;
   PaymentMethodsService.updateBalance userId
     (Expense.paymentMethodId row) (Expense.amount row) subtract;;
   ExpensesService.invalidateCache userId;;
   mret saved) w = (w', r) →
  r ≠ Throw numeric_overflow →
  ledger_step_ok w w'.
Proof.
  intros Hw Hd Hpm Hu Hrow Ha. unfold mbind at 1, M_bind at 1.
  destruct (ex_insert_cases newId row w)
    as [[e ->]|(amount & Hamount & Hnew & ->)];
    [intros [= <- _] _; by apply ledger_step_ok_refl|].
  assert (amount = Expense.amount row) as ->
    by (unfold is_decimal in Ha; congruence).
  cbn [fst snd]. unfold mbind at 1, M_bind at 1.
  set (stored := Expense.set_amount (Expense.amount row) row).
  set (w1 := set_expenseRepository _ w).
  destruct (updateBalance_decimal userId (Expense.paymentMethodId row)
              (Expense.amount row) subtract w1 pm)
    as [->|[Hb ->]]; [done|done|done|by apply Hd in Hpm| |].
  { by intros [= _ <-] Hno. }
  unfold ExpensesService.invalidateCache. munfold. cbn [fst snd].
  intros [= <- _] _. subst w1.
  split; [|split; [|split]].
  - apply resolve_set_cache, resolve_set_balance; [|done].
    apply resolve_insert; [done|]. exists pm. split; [done|].
    subst stored. simpl. congruence.
  - apply decimal_set_cache, decimal_set_balance; [|done].
    by apply decimal_insert.
  - eapply same_methods_trans; [|apply same_methods_cache].
    eapply same_methods_trans; [apply same_methods_expenses|].
    by apply same_methods_set_balance.
  - intros p. rewrite total_set_cache.
    rewrite (total_set_balance p _ pm) by done.
    rewrite total_insert_new by done.
    replace (contribution p stored) with (contribution p row)
      by (by destruct row).
    destruct (String.eqb (Expense.paymentMethodId row) p) eqn:Heq.
    + apply eqb_true in Heq. subst p. rewrite contribution_own. ring.
    + apply eqb_false in Heq. rewrite contribution_other by done. ring.
Qed.

Ltac apply_create_tail H Hno :=
  match type of H with
  | context [ExpensesService.insert ?newId ?row] =>
      match goal with
      | Hw : references_resolve ?w, Hd : decimal_world ?w,
        Hpm : paymentMethodRepository ?w !! _ = Some ?pm,
        Hu : PaymentMethod.userId ?pm = ?userId,
        Ha : is_decimal _ |- _ =>
          exact (create_tail_ok userId newId row w pm _ _ Hw Hd Hpm Hu
                   eq_refl Ha H Hno)
      end
  end.

Lemma create_ok userId dto newId w w' r :
  references_resolve w →
  decimal_world w →
  is_decimal (CreateExpenseDto.amount dto) →
  ExpensesService.create userId dto newId w = (w', r) →
  r ≠ Throw numeric_overflow →
  ledger_step_ok w w'.
Proof.
  intros Hw Hd Ha H Hno. unfold ExpensesService.create in H.
  unfold mbind at 1 in H. unfold M_bind at 1 in H.
  destruct (cat_findOne_cases userId (CreateExpenseDto.categoryId dto) w)
    as [[c Hc]|[err Hc]]; rewrite Hc in H;
    [|injection H as <- _; by apply ledger_step_ok_refl].
  unfold mbind at 1 in H. unfold M_bind at 1 in H.
  destruct (pm_findOne_cases userId (CreateExpenseDto.paymentMethodId dto) w)
    as [(pm & Hpm & Hu & Hf)|[err Hf]]; rewrite Hf in H;
    [|injection H as <- _; by apply ledger_step_ok_refl].
  apply_create_tail H Hno.
Qed.

Lemma createFromOcr_ok userId data newId w w' r :
  references_resolve w →
  decimal_world w →
  is_decimal (OcrExpenseData.amount data) →
  ExpensesService.createFromOcr storageService userId data newId w = (w', r) →
  r ≠ Throw numeric_overflow →
  ledger_step_ok w w'.
Proof.
  intros Hw Hd Ha H Hno. unfold ExpensesService.createFromOcr in H.
  unfold mbind at 1 in H. unfold M_bind at 1 in H.
  destruct (cat_findOne_cases userId (OcrExpenseData.categoryId data) w)
    as [[c Hc]|[err Hc]]; rewrite Hc in H;
    [|injection H as <- _; by apply ledger_step_ok_refl].
  unfold mbind at 1 in H. unfold M_bind at 1 in H.
  destruct (pm_findOne_cases userId (OcrExpenseData.paymentMethodId data) w)
    as [(pm & Hpm & Hu & Hf)|[err Hf]]; rewrite Hf in H;
    [|injection H as <- _; by apply ledger_step_ok_refl].
  unfold mbind at 1 in H. unfold M_bind at 1 in H. unfold lift_result in H.
  destruct (StorageService.uploadReceipt storageService _ _) as [up|err];
    [|injection H as <- _; by apply ledger_step_ok_refl].
  apply_create_tail H Hno.
Qed.

Lemma createFromVoice_ok userId data newId w w' r :
  references_resolve w →
  decimal_world w →
  is_decimal (VoiceExpenseData.amount data) →
  ExpensesService.createFromVoice storageService userId data newId w
  = (w', r) →
  r ≠ Throw numeric_overflow →
  ledger_step_ok w w'.
Proof.
  intros Hw Hd Ha H Hno. unfold ExpensesService.createFromVoice in H.
  unfold mbind at 1 in H. unfold M_bind at 1 in H.
  destruct (cat_findOne_cases userId (VoiceExpenseData.categoryId data) w)
    as [[c Hc]|[err Hc]]; rewrite Hc in H;
    [|injection H as <- _; by apply ledger_step_ok_refl].
  unfold mbind at 1 in H. unfold M_bind at 1 in H.
  destruct (pm_findOne_cases userId (VoiceExpenseData.paymentMethodId data) w)
    as [(pm & Hpm & Hu & Hf)|[err Hf]]; rewrite Hf in H;
    [|injection H as <- _; by apply ledger_step_ok_refl].
  unfold mbind at 1 in H. unfold M_bind at 1 in H.
  destruct (VoiceExpenseData.audioFile data) as [audioFile|].
  - unfold mbind at 1 in H. unfold M_bind at 1 in H.
    unfold lift_result in H.
    destruct (StorageService.uploadVoiceRecording storageService _ _)
      as [up|err]; [|injection H as <- _; by apply ledger_step_ok_refl].
    unfold mret at 1 in H. unfold M_ret at 1 in H.
    apply_create_tail H Hno.
  - unfold mret at 1 in H. unfold M_ret at 1 in H.
    apply_create_tail H Hno.
Qed.

Lemma remove_ok userId id w :
  deletes_reliably storageService →
  references_resolve w →
  decimal_world w →
  ledger_step_ok w (ExpensesService.remove storageService userId id w).1.
Proof.
  intros Hrel Hw Hd. unfold ExpensesService.remove.
  unfold mbind at 1. unfold M_bind at 1.
  destruct (ex_findOne_cases userId id w) as [(e & He & Hue & ->)|[err ->]];
    [|by apply ledger_step_ok_refl].
  cbn [fst snd].
  destruct (Hw id e He) as (pm & Hpm & Hu).
  unfold mbind at 1. unfold M_bind at 1.
  destruct (updateBalance_decimal userId (Expense.paymentMethodId e)
              (Expense.amount e) add w pm)
    as [->|[Hb ->]];
    [done|congruence|by apply Hd in He|by apply Hd in Hpm
    |by apply ledger_step_ok_refl|].
  cbn [fst snd]. rewrite !Hrel.
  unfold ExpensesService.invalidateCache. munfold.
  repeat match goal with |- context [if ?b then _ else _] => destruct b end;
    cbn [fst snd];
    (split; [|split; [|split]];
     [ apply resolve_set_cache, resolve_delete, resolve_set_balance; done
     | apply decimal_set_cache, decimal_delete, decimal_set_balance; done
     | eapply same_methods_trans; [|apply same_methods_cache];
       eapply same_methods_trans; [|apply same_methods_expenses];
       by apply same_methods_set_balance
     | intros p; rewrite total_set_cache;
       rewrite (total_delete p id e) by done;
       rewrite (total_set_balance p _ pm) by done;
       destruct (String.eqb (Expense.paymentMethodId e) p) eqn:Heq;
       [ apply eqb_true in Heq; subst p; rewrite contribution_own; ring
       | apply eqb_false in Heq; rewrite contribution_other by done; ring ] ]).
Qed.

Lemma update_ok userId id dto w w' r :
  keeps_method w (ExUpdate userId id dto) →
  decimal_amounts (ExUpdate userId id dto) →
  references_resolve w →
  decimal_world w →
  ExpensesService.update userId id dto w = (w', r) →
  r ≠ Throw numeric_overflow →
  ledger_step_ok w w'.
Proof.
  intros Hkeep Hamounts Hw Hd H Hno. simpl in Hkeep, Hamounts.
  unfold ExpensesService.update in H.
  unfold mbind at 1 in H. unfold M_bind at 1 in H.
  destruct (ex_findOne_cases userId id w) as [(e & He & Hue & Hf)|[err Hf]];
    rewrite Hf in H; [|injection H as <- _; by apply ledger_step_ok_refl].
  cbn [fst snd] in H.
  unfold mbind at 1 in H. unfold M_bind at 1 in H.
  set (catcheck := if opt_truthy (UpdateExpenseDto.categoryId dto)
                   then _ else _) in H.
  assert (catcheck w = (w, Ok tt) ∨ ∃ err0, catcheck w = (w, Throw err0))
    as [Hc|[err0 Hc]];
    [|rewrite Hc in H
     |rewrite Hc in H; injection H as <- _; by apply ledger_step_ok_refl].
  { subst catcheck.
    destruct (opt_truthy (UpdateExpenseDto.categoryId dto)); [|by left].
    munfold.
    destruct (cat_findOne_cases userId
                (default "" (UpdateExpenseDto.categoryId dto)) w)
      as [[c ->]|[err0 ->]]; eauto. }
  unfold mbind at 1 in H. unfold M_bind at 1 in H.
  set (pmcheck := if opt_truthy (UpdateExpenseDto.paymentMethodId dto)
                  then _ else _) in H.
  assert (pmcheck w = (w, Ok tt) ∨ ∃ err0, pmcheck w = (w, Throw err0))
    as [Hp|[err0 Hp]];
    [|rewrite Hp in H
     |rewrite Hp in H; injection H as <- _; by apply ledger_step_ok_refl].
  { subst pmcheck.
    destruct (opt_truthy (UpdateExpenseDto.paymentMethodId dto)); [|by left].
    munfold.
    destruct (pm_findOne_cases userId
                (default "" (UpdateExpenseDto.paymentMethodId dto)) w)
      as [(pm & _ & _ & ->)|[err0 ->]]; eauto. }
  set (e' := ExpensesService.assignDto dto e) in *.
  assert (Hmethod : Expense.paymentMethodId e' = Expense.paymentMethodId e).
  { subst e'. simpl. unfold assign.
    destruct (UpdateExpenseDto.paymentMethodId dto) as [pid|] eqn:Hpid;
      [|done].
    simpl. by apply Hkeep. }
  assert (Hamount : is_decimal (Expense.amount e')).
  { subst e'. simpl. unfold assign.
    destruct (UpdateExpenseDto.amount dto) as [a|] eqn:Hdto; simpl.
    - by apply Hamounts.
    - by apply Hd in He. }
  unfold mbind at 1 in H. unfold M_bind at 1 in H.
  destruct (ex_save_cases id e' e w He) as [[err0 Hs]|(amount & Ha & Hs)];
    rewrite Hs in H;
    [injection H as <- _; by apply ledger_step_ok_refl|].
  apply storedDecimal_value in Ha; [|done]. subst amount.
  cbn [fst snd] in H.
  set (stored := Expense.set_joinColumns _ _ _) in H.
  set (w1 := set_expenseRepository _ w) in H.
  destruct (Hw id e He) as (pmo & Hpmo & Huo).
  assert (Hstored_pm : Expense.paymentMethodId stored
                       = Expense.paymentMethodId e) by done.
  assert (Hstored_amount : Expense.amount stored = Expense.amount e')
    by done.
  assert (Hw1 : references_resolve w1).
  { apply resolve_insert; [done|]. exists pmo. by split. }
  assert (Hd1 : decimal_world w1) by (by apply decimal_insert).
  assert (Hstored : ∀ p, contribution p stored
                         = if String.eqb (Expense.paymentMethodId e) p
                           then Expense.amount e' else 0%Qc).
  { intros p. unfold contribution. by rewrite Hstored_pm, Hstored_amount. }
  unfold mbind at 1 in H. unfold M_bind at 1 in H.
  unfold ExpensesService.invalidateCache in H.
  cbn [fst snd] in H. rewrite Hmethod in H.
  rewrite (proj2 (eqb_true _ _) eq_refl) in H.
  cbn [negb] in H. rewrite orb_false_r in H.
  case_bool_decide as Hchg.
  - unfold mbind at 1 in H. unfold M_bind at 1 in H.
    destruct (updateBalance_decimal userId (Expense.paymentMethodId e)
                (Expense.amount e) add w1 pmo)
      as [Hb1|[Hdec1 Hb1]];
      [done|congruence|by apply Hd in He|by apply Hd in Hpmo| |];
      rewrite Hb1 in H; [by injection H as _ <-|].
    cbn [fst snd] in H.
    set (b1 := (PaymentMethod.balance pmo + Expense.amount e)%Qc) in *.
    set (pmo' := PaymentMethod.set_balance b1 pmo) in *.
    set (w2 := set_paymentMethodRepository _ w1) in H.
    assert (Hw2 : references_resolve w2)
      by (subst w2; by apply resolve_set_balance).
    assert (Hd2 : decimal_world w2)
      by (subst w2; by apply decimal_set_balance).
    unfold mbind at 1 in H. unfold M_bind at 1 in H.
    destruct (updateBalance_decimal userId (Expense.paymentMethodId e)
                (Expense.amount e') subtract w2 pmo')
      as [Hb2|[Hdec2 Hb2]];
      [by subst w2; simpl; rewrite lookup_insert_eq
      |subst pmo'; simpl; congruence|done|done| |];
      rewrite Hb2 in H; [by injection H as _ <-|].
    munfold. cbn [fst snd] in H. injection H as <- _.
    split; [|split; [|split]].
    + apply resolve_set_cache, resolve_set_balance; [done|].
      subst w2. simpl. by rewrite lookup_insert_eq.
    + by apply decimal_set_cache, decimal_set_balance.
    + eapply same_methods_trans; [|apply same_methods_cache].
      eapply same_methods_trans;
        [|apply same_methods_set_balance; subst w2; simpl;
          by rewrite lookup_insert_eq].
      eapply same_methods_trans; [apply same_methods_expenses|].
      subst w2. by apply same_methods_set_balance.
    + intros p. rewrite total_set_cache.
      rewrite (total_set_balance p _ pmo')
        by (subst w2; simpl; by rewrite lookup_insert_eq).
      subst w2 pmo'. rewrite (total_set_balance p _ pmo) by done.
      subst w1. rewrite (total_save p id stored e) by done.
      rewrite Hstored. unfold contribution. subst b1. simpl.
      destruct (String.eqb (Expense.paymentMethodId e) p); ring.
  - munfold. cbn [fst snd] in H. injection H as <- _.
    split; [|split; [|split]].
    + by apply resolve_set_cache.
    + by apply decimal_set_cache.
    + eapply same_methods_trans; [|apply same_methods_cache].
      apply same_methods_expenses.
    + intros p. rewrite total_set_cache.
      subst w1. rewrite (total_save p id stored e) by done.
      rewrite Hstored. unfold contribution. rewrite <- Hchg.
      destruct (String.eqb (Expense.paymentMethodId e) p); ring.
Qed.

(** Every ledger request keeps the parts of [ledger_step_ok]. *)
Lemma run_ledger_op_ok op w :
  deletes_reliably storageService →
  decimal_amounts op →
  keeps_method w op →
  (exec_ledger_op storageService op w).2 ≠ Throw numeric_overflow →
  references_resolve w →
  decimal_world w →
  ledger_step_ok w (run_ledger_op storageService w op).
Proof.
  intros Hrel Hamounts Hkeep Hno Hw Hd. unfold run_ledger_op.
  destruct op as [u dto n|u data n|u data n|u id dto|u id];
    cbn [exec_ledger_op] in *; rewrite ?exec_then_ret_world.
  - destruct (ExpensesService.create u dto n w) as [w' r] eqn:H.
    eapply create_ok; [done|done|exact Hamounts|exact H|].
    by eapply exec_then_ret_result.
  - destruct (ExpensesService.createFromOcr storageService u data n w)
      as [w' r] eqn:H.
    eapply createFromOcr_ok; [done|done|exact Hamounts|exact H|].
    by eapply exec_then_ret_result.
  - destruct (ExpensesService.createFromVoice storageService u data n w)
      as [w' r] eqn:H.
    eapply createFromVoice_ok; [done|done|exact Hamounts|exact H|].
    by eapply exec_then_ret_result.
  - destruct (ExpensesService.update u id dto w) as [w' r] eqn:H.
    eapply update_ok; [exact Hkeep|exact Hamounts|done|done|exact H|].
    by eapply exec_then_ret_result.
  - by apply remove_ok.
Qed.

Lemma run_ledger_ok ops : ∀ w,
  deletes_reliably storageService →
  Forall decimal_amounts ops →
  undisturbed storageService ops w →
  references_resolve w →
  decimal_world w →
  ledger_step_ok w (run_ledger storageService ops w).
Proof.
  induction ops as [|op ops IH]; intros w Hrel Hamounts Hrun Hw Hd.
  - by apply ledger_step_ok_refl.
  - inversion Hamounts as [|? ? Hop Hops]; subst.
    destruct Hrun as (Hkeep & Hno & Hrun). simpl.
    destruct (run_ledger_op_ok op w Hrel Hop Hkeep Hno Hw Hd)
      as (Hw1 & Hd1 & Hs1 & Ht1).
    destruct (IH _ Hrel Hops Hrun Hw1 Hd1) as (Hw2 & Hd2 & Hs2 & Ht2).
    split; [done|]. split; [done|].
    split; [by eapply same_methods_trans|].
    intros p. by rewrite Ht2, Ht1.
Qed.

End LedgerOperations.

Lemma no_expenses_resolve w :
  expenseRepository w = ∅ → references_resolve w.
Proof.
  intros He id e Hid. rewrite He in Hid. by rewrite lookup_empty in Hid.
Qed.

Lemma charged_no_expenses p w : expenseRepository w = ∅ → charged p w = 0%Qc.
Proof. intros He. unfold charged. rewrite He. apply charged_in_empty. Qed.

(** C1, as amended.  Let the object store answer every delete request,
    let the amounts of the requests be numbers that the decimal(15,2)
    column stores as they are, let no update move an expense to another
    payment method, and let no request fail with a numeric overflow.
    From a state whose expenses reference stored methods of their
    owners, and whose balances and amounts are values of their columns,
    after any finite sequence of ledger requests (create, createFromOcr,
    createFromVoice, update, remove; failed requests included) every
    payment method is still stored and its balance is its initial
    balance plus the initial live charges minus the live charges now.
    From a state without expenses this is
    [B0 - Σ (amounts of the live expenses against the method)]. *)
Theorem balance_conservation
    (storageService : StorageService.t) (ops : list LedgerOp) (w : World)
    (p : string) (pm : PaymentMethod.t) :
  deletes_reliably storageService →
  Forall decimal_amounts ops →
  undisturbed storageService ops w →
  references_resolve w →
  decimal_world w →
  paymentMethodRepository w !! p = Some pm →
  ∃ pm',
    paymentMethodRepository (run_ledger storageService ops w) !! p = Some pm'
    ∧ PaymentMethod.balance pm'
      = (PaymentMethod.balance pm + charged p w
         - charged p (run_ledger storageService ops w))%Qc
    ∧ (expenseRepository w = ∅ →
       PaymentMethod.balance pm'
       = (PaymentMethod.balance pm
          - charged p (run_ledger storageService ops w))%Qc).
Proof.
  intros Hrel Hamounts Hrun Hw Hd Hp.
  destruct (run_ledger_ok storageService ops w Hrel Hamounts Hrun Hw Hd)
    as (_ & _ & Hsame & Htotal).
  specialize (Hsame p). specialize (Htotal p).
  rewrite Hp in Hsame. simpl in Hsame.
  destruct (paymentMethodRepository (run_ledger storageService ops w) !! p)
    as [pm'|] eqn:Hp'; [|done].
  exists pm'. split; [done|].
  unfold ledger_total, balance_at in Htotal. rewrite Hp, Hp' in Htotal.
  simpl in Htotal.
  assert (PaymentMethod.balance pm'
          = (PaymentMethod.balance pm + charged p w
             - charged p (run_ledger storageService ops w))%Qc) as Heq.
  { rewrite <- Htotal. ring. }
  split; [done|]. intros He. rewrite Heq, (charged_no_expenses p w He). ring.
Qed.

Lemma example_storage_up_reliable : deletes_reliably example_storage_up.
Proof. intros key. reflexivity. Qed.

Ltac decimal_by_computation :=
  vm_compute; refine (f_equal Ok _); apply Qc_is_canon; reflexivity.

(** Scenarios 1 to 3 of the specification: balance 100.00; an expense of
    30.00 leaves 70.00; raising it to 50.00 leaves 50.00; deleting it
    restores 100.00. *)
Lemma balance_conservation_witness :
  deletes_reliably example_storage_up
  ∧ Forall decimal_amounts example_scenario_delete
  ∧ undisturbed example_storage_up example_scenario_delete
      example_ledger_world
  ∧ references_resolve example_ledger_world
  ∧ decimal_world example_ledger_world
  ∧ balance_at "pm-cash" example_ledger_world = Qc_of_Z 100
  ∧ balance_at "pm-cash"
      (run_ledger example_storage_up example_scenario_create
         example_ledger_world) = Qc_of_Z 70
  ∧ balance_at "pm-cash"
      (run_ledger example_storage_up example_scenario_update
         example_ledger_world) = Qc_of_Z 50
  ∧ balance_at "pm-cash"
      (run_ledger example_storage_up example_scenario_delete
         example_ledger_world) = Qc_of_Z 100.
Proof.
  assert (Hamounts : Forall decimal_amounts example_scenario_delete).
  { repeat constructor.
    - decimal_by_computation.
    - intros amount [= <-]. decimal_by_computation. }
  assert (Hrun : undisturbed example_storage_up example_scenario_delete
                   example_ledger_world).
  { split; [exact I|]. split; [intros H; vm_compute in H; discriminate|].
    split; [intros e pid _ H; discriminate|].
    split; [intros H; vm_compute in H; discriminate|].
    split; [exact I|].
    split; [intros H; vm_compute in H; discriminate|exact I]. }
  assert (Hres : references_resolve example_ledger_world)
    by (by apply no_expenses_resolve).
  assert (Hdec : decimal_world example_ledger_world).
  { split.
    - intros p pm Hp. simpl in Hp.
      apply lookup_insert_Some in Hp as [[_ <-]|[_ Hp]];
        [|by rewrite lookup_empty in Hp].
      decimal_by_computation.
    - intros id e He. simpl in He. by rewrite lookup_empty in He. }
  split; [exact example_storage_up_reliable|].
  split; [exact Hamounts|]. split; [exact Hrun|].
  split; [exact Hres|]. split; [exact Hdec|].
  split; [reflexivity|].
  split; [apply Qc_is_canon; vm_compute; reflexivity|].
  split; [apply Qc_is_canon; vm_compute; reflexivity|].
  destruct (balance_conservation example_storage_up example_scenario_delete
              example_ledger_world "pm-cash"
              (example_method "Cash" "user-1" (Qc_of_Z 100) true false)
              example_storage_up_reliable Hamounts Hrun Hres Hdec eq_refl)
    as (pm' & Hpm' & _ & Hb0).
  unfold balance_at. rewrite Hpm'. simpl. rewrite (Hb0 eq_refl).
  apply Qc_is_canon. vm_compute. reflexivity.
Defined.

(** C1 as stated fails, in three ways.  The balance is 100.00 and there
    is no expense.
    - A receipt expense of 40.00 is created and its deletion is
      attempted while the object store refuses delete requests: the
      request throws after the credit and before the row is removed, so
      that the expense is live and the balance is 100.00 instead of
      100.00 - 40.00.
    - An expense of 10.005 is created: the balance 100.00 - 10.005 is
      stored as 90.00 and the amount as 10.01, and 90.00 is not 100.00 -
      10.01.
    - With the balance at -9999999999999.99 an expense of 0.01 is
      created: the row is written, the new balance does not fit its
      column, and the request throws with the balance as it was. *)
Lemma conservation_needs_its_conditions :
  (expenseRepository example_ledger_world = ∅
   ∧ balance_at "pm-cash" example_ledger_world = Qc_of_Z 100
   ∧ charged "pm-cash" example_aborted_delete_world = Qc_of_Z 40
   ∧ balance_at "pm-cash" example_aborted_delete_world = Qc_of_Z 100
   ∧ balance_at "pm-cash" example_aborted_delete_world
     ≠ (Qc_of_Z 100 - charged "pm-cash" example_aborted_delete_world)%Qc)
  ∧ (∃ w1 e,
       ExpensesService.create "user-1"
         (example_create_expense (Q2Qc (10005 # 1000))) "exp-1"
         example_ledger_world = (w1, Ok e)
       ∧ charged "pm-cash" w1 = Q2Qc (1001 # 100)
       ∧ balance_at "pm-cash" w1 = Q2Qc (9000 # 100)
       ∧ balance_at "pm-cash" w1
         ≠ (Qc_of_Z 100 - charged "pm-cash" w1)%Qc)
  ∧ (∃ w1,
       ExpensesService.create "user-1"
         (example_create_expense (Q2Qc (1 # 100))) "exp-1"
         example_overdrawn_world = (w1, Throw numeric_overflow)
       ∧ expenseRepository example_overdrawn_world = ∅
       ∧ charged "pm-cash" w1 = Q2Qc (1 # 100)
       ∧ balance_at "pm-cash" w1 = balance_at "pm-cash" example_overdrawn_world
       ∧ balance_at "pm-cash" w1
         ≠ (balance_at "pm-cash" example_overdrawn_world
            - charged "pm-cash" w1)%Qc).
Proof.
  split; [|split].
  - split; [reflexivity|]. split; [reflexivity|].
    split; [by_computation|]. split; [by_computation|].
    intros H. apply (f_equal Qcanon.this) in H. vm_compute in H. discriminate.
  - eexists _, _. split; [vm_compute; reflexivity|].
    split; [by_computation|]. split; [by_computation|].
    intros H. apply (f_equal Qcanon.this) in H. vm_compute in H. discriminate.
  - eexists. split; [vm_compute; reflexivity|].
    split; [reflexivity|]. split; [by_computation|]. split; [by_computation|].
    intros H. apply (f_equal Qcanon.this) in H. vm_compute in H. discriminate.
Qed.

(** The defect that the conservation above leaves out: an update that
    moves an expense to another payment method.  user-1 has the payment methods pm-cash
    with 100.00 and pm-card with 50.00, and no expense.  An expense of
    30.00 is created on pm-cash and then moved to pm-card by [update].
    The update returns an entity with the payment method pm-card,
    credits 30.00 to pm-cash and debits 30.00 from pm-card, but the
    stored row keeps the payment method pm-cash: the live expense is
    charged against pm-cash, whose balance is 100.00 and not 100.00 -
    30.00, and pm-card has 20.00 without any expense charged against it.
    When the expense is then deleted, [remove] credits the method of the
    stored row, pm-cash, once more: no expense is left, and the balances
    are 130.00 and 20.00 instead of 100.00 and 50.00. *)
Lemma moved_expense_breaks_conservation :
  expenseRepository example_two_methods_world = ∅
  ∧ balance_at "pm-cash" example_two_methods_world = Qc_of_Z 100
  ∧ balance_at "pm-card" example_two_methods_world = Qc_of_Z 50
  ∧ balance_at "pm-cash" example_charged_world = Qc_of_Z 70
  ∧ ∃ w1 updated,
      ExpensesService.update "user-1" "exp-1" example_move_to_card
        example_charged_world = (w1, Ok updated)
      ∧ Expense.paymentMethodId updated.2 = "pm-card"
      ∧ (Expense.paymentMethodId <$> expenseRepository w1 !! "exp-1")
        = Some "pm-cash"
      ∧ charged "pm-cash" w1 = Qc_of_Z 30
      ∧ charged "pm-card" w1 = Qc_of_Z 0
      ∧ balance_at "pm-cash" w1 = Qc_of_Z 100
      ∧ balance_at "pm-card" w1 = Qc_of_Z 20
      ∧ ∃ w2,
          ExpensesService.remove example_storage_up "user-1" "exp-1" w1
          = (w2, Ok tt)
          ∧ expenseRepository w2 = ∅
          ∧ balance_at "pm-cash" w2 = Qc_of_Z 130
          ∧ balance_at "pm-card" w2 = Qc_of_Z 20.
Proof.
  split; [reflexivity|]. split; [reflexivity|]. split; [reflexivity|].
  split; [by_computation|].
  destruct (ExpensesService.update "user-1" "exp-1" example_move_to_card
              example_charged_world) as [w1 [updated|err]] eqn:Hupdate;
    [|vm_compute in Hupdate; discriminate].
  exists w1, updated. split; [reflexivity|].
  assert (Hw1 : w1 = (ExpensesService.update "user-1" "exp-1"
                        example_move_to_card example_charged_world).1)
    by (by rewrite Hupdate).
  split.
  { pose proof Hupdate as Hup. vm_compute in Hup.
    injection Hup as _ <-. reflexivity. }
  subst w1. clear Hupdate.
  split; [vm_compute; reflexivity|].
  split; [by_computation|]. split; [by_computation|].
  split; [by_computation|]. split; [by_computation|].
  eexists. split; [vm_compute; reflexivity|].
  split; [vm_compute; reflexivity|].
  split; by_computation.
Qed.

(** ** The frame of an expense update, and cache invalidation *)

Section UpdateFrame.

Implicit Types (w : World).

(** What a successful [update] has done. *)
Lemma update_Ok userId id dto w w' updated :
  ExpensesService.update userId id dto w = (w', Ok updated) →
  ∃ old amount,
    expenseRepository w !! id = Some old
    ∧ Expense.userId old = userId
    ∧ updated = (id, ExpensesService.assignDto dto old)
    ∧ storedDecimal (Some (Expense.amount old))
        (Expense.amount (ExpensesService.assignDto dto old)) = Ok amount
    ∧ expenseRepository w'
      = <[id := Expense.set_joinColumns (Expense.categoryId old)
                  (Expense.paymentMethodId old)
                  (Expense.set_amount amount
                     (ExpensesService.assignDto dto old))]>
          (expenseRepository w)
    ∧ categoryRepository w' = categoryRepository w
    ∧ cacheManager w'
      = delete ("expenses:summary:" +:+ userId) (cacheManager w).
Proof.
  unfold ExpensesService.update. intros H.
  apply bind_Ok in H as (w1 & [id' old] & Hfind & H).
  apply ex_findOne_Ok in Hfind as (-> & Hid & Hold & Hu).
  simpl in Hid, Hold, Hu. subst id'.
  apply bind_Ok in H as (w1 & [] & Hcat & H).
  assert (w1 = w) as ->.
  { destruct (opt_truthy (UpdateExpenseDto.categoryId dto)).
    - apply bind_Ok in Hcat as (w2 & c & Hc & Hret).
      apply cat_findOne_Ok in Hc as ->. by apply ret_Ok in Hret as [-> _].
    - by apply ret_Ok in Hcat as [-> _]. }
  apply bind_Ok in H as (w1 & [] & Hpm & H).
  assert (w1 = w) as ->.
  { destruct (opt_truthy (UpdateExpenseDto.paymentMethodId dto)).
    - apply bind_Ok in Hpm as (w2 & c & Hc & Hret).
      apply pm_findOne_Ok in Hc as (-> & _). by apply ret_Ok in Hret as [-> _].
    - by apply ret_Ok in Hpm as [-> _]. }
  apply bind_Ok in H as (w1 & saved & Hsave & H).
  cbn [fst snd] in Hsave.
  destruct (ex_save_cases id (ExpensesService.assignDto dto old) old w Hold)
    as [[err Herr]|(amount & Hamount & Hsaved)]; [congruence|].
  rewrite Hsaved in Hsave. injection Hsave as <- <-.
  apply bind_Ok in H as (w2 & [] & Hbal & H).
  apply bind_Ok in H as (w3 & [] & Hinv & H).
  apply ret_Ok in H as [-> ->].
  unfold ExpensesService.invalidateCache in Hinv. munfold.
  injection Hinv as <-.
  assert (expenseRepository w2
          = <[id := Expense.set_joinColumns (Expense.categoryId old)
                      (Expense.paymentMethodId old)
                      (Expense.set_amount amount
                         (ExpensesService.assignDto dto old))]>
              (expenseRepository w)
          ∧ categoryRepository w2 = categoryRepository w
          ∧ cacheManager w2 = cacheManager w) as (He & Hc & Hk).
  { cbn [fst snd] in Hbal.
    destruct (_ || _).
    - apply bind_Ok in Hbal as (w4 & r4 & Hb1 & Hbal).
      apply bind_Ok in Hbal as (w5 & r5 & Hb2 & Hbal).
      apply ret_Ok in Hbal as [-> _].
      apply updateBalance_frame in Hb1 as (He1 & Hc1 & Hk1).
      apply updateBalance_frame in Hb2 as (He2 & Hc2 & Hk2).
      simpl in *. split; [congruence|]. split; congruence.
    - by apply ret_Ok in Hbal as [-> _]. }
  exists old, amount. simpl. rewrite He, Hc, Hk. done.
Qed.

(** C9.  A successful [update] returns the entity [id] with the owner,
    the source and the six attachment columns of the row it loaded, and
    with each of the six DTO properties holding the DTO's value when the
    DTO has one and the old value otherwise.  The stored row [id] has
    the same owner, source and attachment columns; its description,
    notes and date are those of the returned entity; its amount is the
    old one when the DTO has none, and otherwise what the database
    stores for the DTO's; and it keeps its category and its payment
    method, whatever the DTO names.  Every other expense row is as it
    was. *)
Theorem update_frame (userId id : string) (dto : UpdateExpenseDto.t)
    (w w' : World) (updated : Entity Expense.t) :
  ExpensesService.update userId id dto w = (w', Ok updated) →
  ∃ old stored,
    expenseRepository w !! id = Some old
    ∧ updated.1 = id
    ∧ expenseRepository w' !! id = Some stored
    ∧ Expense.userId updated.2 = Expense.userId old
    ∧ Expense.source updated.2 = Expense.source old
    ∧ Expense.receiptUrl updated.2 = Expense.receiptUrl old
    ∧ Expense.receiptS3Key updated.2 = Expense.receiptS3Key old
    ∧ Expense.ocrData updated.2 = Expense.ocrData old
    ∧ Expense.voiceTranscription updated.2 = Expense.voiceTranscription old
    ∧ Expense.voiceAudioUrl updated.2 = Expense.voiceAudioUrl old
    ∧ Expense.voiceAudioS3Key updated.2 = Expense.voiceAudioS3Key old
    ∧ Expense.amount updated.2
      = default (Expense.amount old) (UpdateExpenseDto.amount dto)
    ∧ Expense.description updated.2
      = default (Expense.description old) (UpdateExpenseDto.description dto)
    ∧ Expense.notes updated.2
      = match UpdateExpenseDto.notes dto with
        | Some notes => Some notes
        | None => Expense.notes old
        end
    ∧ Expense.date updated.2
      = default (Expense.date old) (UpdateExpenseDto.date dto)
    ∧ Expense.categoryId updated.2
      = default (Expense.categoryId old) (UpdateExpenseDto.categoryId dto)
    ∧ Expense.paymentMethodId updated.2
      = default (Expense.paymentMethodId old)
          (UpdateExpenseDto.paymentMethodId dto)
    ∧ Expense.userId stored = Expense.userId old
    ∧ Expense.source stored = Expense.source old
    ∧ Expense.receiptUrl stored = Expense.receiptUrl old
    ∧ Expense.receiptS3Key stored = Expense.receiptS3Key old
    ∧ Expense.ocrData stored = Expense.ocrData old
    ∧ Expense.voiceTranscription stored = Expense.voiceTranscription old
    ∧ Expense.voiceAudioUrl stored = Expense.voiceAudioUrl old
    ∧ Expense.voiceAudioS3Key stored = Expense.voiceAudioS3Key old
    ∧ Expense.description stored = Expense.description updated.2
    ∧ Expense.notes stored = Expense.notes updated.2
    ∧ Expense.date stored = Expense.date updated.2
    ∧ match UpdateExpenseDto.amount dto with
      | Some amount =>
          storedDecimal (Some (Expense.amount old)) amount
          = Ok (Expense.amount stored)
      | None => Expense.amount stored = Expense.amount old
      end
    ∧ Expense.categoryId stored = Expense.categoryId old
    ∧ Expense.paymentMethodId stored = Expense.paymentMethodId old
    ∧ (∀ id', id' ≠ id →
         expenseRepository w' !! id' = expenseRepository w !! id').
Proof.
  intros H.
  apply update_Ok in H as (old & amount & Hold & Hu & -> & Ha & He & _ & _).
  exists old. eexists. rewrite He. simpl.
  split; [done|]. split; [done|]. split; [by rewrite lookup_insert_eq|].
  simpl.
  repeat (split; [done|]).
  split; [by destruct (UpdateExpenseDto.notes dto)|].
  repeat (split; [done|]).
  split.
  { cbn [ExpensesService.assignDto Expense.amount assign] in Ha.
    destruct (UpdateExpenseDto.amount dto) as [a|];
      cbn [default] in Ha; [done|].
    rewrite storedDecimal_same in Ha. by injection Ha as <-. }
  repeat (split; [done|]).
  intros id' Hne. by rewrite lookup_insert_ne.
Qed.

(** Raising the amount of the voice expense exp-1 from 30 to 50 keeps
    its owner, source and recording, and leaves exp-9 alone. *)
Lemma update_frame_witness :
  ∃ w' updated,
    ExpensesService.update "user-1" "exp-1"
      (example_update_amount (Qc_of_Z 50)) example_voice_world
    = (w', Ok updated)
    ∧ Expense.source updated.2 = VOICE
    ∧ Expense.voiceAudioS3Key updated.2 = Some "voice/user-1/a.webm"
    ∧ Expense.amount updated.2 = Qc_of_Z 50
    ∧ expenseRepository w' !! "exp-9" = Some example_voice_expense.
Proof.
  destruct (ExpensesService.update "user-1" "exp-1"
              (example_update_amount (Qc_of_Z 50)) example_voice_world)
    as [w' [updated|err]] eqn:Hrun.
  2:{ vm_compute in Hrun. discriminate. }
  exists w', updated. split; [reflexivity|].
  destruct (update_frame _ _ _ _ _ _ Hrun)
    as (old & stored & Hold & _ & _ & _ & Hsrc & _ & _ & _ & _ & _ & Hkey
        & Hamt & Hrest).
  assert (old = example_voice_expense) as ->.
  { assert (expenseRepository example_voice_world !! "exp-1"
            = Some example_voice_expense) as Hl by reflexivity.
    congruence. }
  split; [exact Hsrc|]. split; [exact Hkey|]. split; [exact Hamt|].
  do 19 destruct Hrest as [_ Hrest].
  rewrite Hrest by discriminate. reflexivity.
Defined.

End UpdateFrame.

Section CacheInvalidation.

Context (storageService : StorageService.t).
Implicit Types (w : World).

Lemma invalidateCache_evicts userId w w' r :
  ExpensesService.invalidateCache userId w = (w', r) →
  cacheManager w' !! ("expenses:summary:" +:+ userId) = None.
Proof.
  unfold ExpensesService.invalidateCache. munfold.
  intros [= <- _]. simpl. apply lookup_delete_eq.
Qed.

Lemma invalidate_then_ret_evicts {A} userId (a : A) w w' r :
  (ExpensesService.invalidateCache userId;; mret a) w = (w', r) →
  cacheManager w' !! ("expenses:summary:" +:+ userId) = None.
Proof.
  unfold ExpensesService.invalidateCache. munfold.
  intros [= <- _]. simpl. apply lookup_delete_eq.
Qed.

Lemma create_evicts userId dto newId w w' saved :
  ExpensesService.create userId dto newId w = (w', Ok saved) →
  cacheManager w' !! ("expenses:summary:" +:+ userId) = None.
Proof.
  unfold ExpensesService.create. intros H.
  apply bind_Ok in H as (w1 & ? & _ & H).
  apply bind_Ok in H as (w2 & ? & _ & H).
  apply bind_Ok in H as (w3 & ? & _ & H).
  apply bind_Ok in H as (w4 & ? & _ & H).
  by apply invalidate_then_ret_evicts in H.
Qed.

Lemma createFromOcr_evicts userId data newId w w' saved :
  ExpensesService.createFromOcr storageService userId data newId w
  = (w', Ok saved) →
  cacheManager w' !! ("expenses:summary:" +:+ userId) = None.
Proof.
  unfold ExpensesService.createFromOcr. intros H.
  apply bind_Ok in H as (w1 & ? & _ & H).
  apply bind_Ok in H as (w2 & ? & _ & H).
  apply bind_Ok in H as (w3 & ? & _ & H).
  apply bind_Ok in H as (w4 & ? & _ & H).
  apply bind_Ok in H as (w5 & ? & _ & H).
  by apply invalidate_then_ret_evicts in H.
Qed.

Lemma createFromVoice_evicts userId data newId w w' saved :
  ExpensesService.createFromVoice storageService userId data newId w
  = (w', Ok saved) →
  cacheManager w' !! ("expenses:summary:" +:+ userId) = None.
Proof.
  unfold ExpensesService.createFromVoice. intros H.
  apply bind_Ok in H as (w1 & ? & _ & H).
  apply bind_Ok in H as (w2 & ? & _ & H).
  apply bind_Ok in H as (w3 & ? & _ & H).
  apply bind_Ok in H as (w4 & ? & _ & H).
  apply bind_Ok in H as (w5 & ? & _ & H).
  by apply invalidate_then_ret_evicts in H.
Qed.

Lemma remove_evicts userId id w w' :
  ExpensesService.remove storageService userId id w = (w', Ok tt) →
  cacheManager w' !! ("expenses:summary:" +:+ userId) = None.
Proof.
  unfold ExpensesService.remove. intros H.
  apply bind_Ok in H as (w1 & ? & _ & H).
  apply bind_Ok in H as (w2 & ? & _ & H).
  apply bind_Ok in H as (w3 & ? & _ & H).
  apply bind_Ok in H as (w4 & ? & _ & H).
  apply bind_Ok in H as (w5 & ? & _ & H).
  by apply invalidateCache_evicts in H.
Qed.

Lemma getSummary_miss now userId w :
  cacheManager w !! ("expenses:summary:" +:+ userId) = None →
  ExpensesService.getSummary now userId w
  = (set_cacheManager
       (<["expenses:summary:" +:+ userId
          := CachedSummary (ExpensesService.computeSummary now userId w)]>) w,
     Ok (ExpensesService.computeSummary now userId w)).
Proof.
  intros Hmiss. unfold ExpensesService.getSummary. munfold. by rewrite Hmiss.
Qed.

(** C4.  When a ledger request of an owner returns, the cache holds no
    summary for that owner, so the next [getSummary] of that owner
    returns the summary computed from the repositories as the request
    left them. *)
Theorem summary_cache_invalidated (op : LedgerOp) (w w' : World) :
  exec_ledger_op storageService op w = (w', Ok tt) →
  cacheManager w' !! ("expenses:summary:" +:+ ledger_op_user op) = None
  ∧ ∀ now,
      (ExpensesService.getSummary now (ledger_op_user op) w').2
      = Ok (ExpensesService.computeSummary now (ledger_op_user op) w').
Proof.
  intros Hx.
  assert (cacheManager w' !! ("expenses:summary:" +:+ ledger_op_user op)
          = None) as Hmiss.
  { destruct op; simpl in *.
    - apply exec_then_ret_Ok in Hx as [saved Hx]. by eapply create_evicts.
    - apply exec_then_ret_Ok in Hx as [saved Hx].
      by eapply createFromOcr_evicts.
    - apply exec_then_ret_Ok in Hx as [saved Hx].
      by eapply createFromVoice_evicts.
    - apply exec_then_ret_Ok in Hx as [saved Hx].
      apply update_Ok in Hx
        as (old & amount & _ & _ & _ & _ & _ & _ & ->).
      apply lookup_delete_eq.
    - by eapply remove_evicts. }
  split; [done|]. intros now. by rewrite getSummary_miss.
Qed.

End CacheInvalidation.

(** A summary without expenses is cached; user-1 then creates an expense
    of 30.00; the next summary counts one expense of 30.00. *)
Lemma summary_cache_invalidated_witness :
  (ExpenseSummaryDto.totalExpenses
     <$> cached_summary "user-1" example_cached_world) = Some 0%Z
  ∧ ∃ w', exec_ledger_op example_storage_up
            (ExCreate "user-1" (example_create_expense (Qc_of_Z 30)) "exp-1")
            example_cached_world = (w', Ok tt)
      ∧ cached_summary "user-1" w' = None
      ∧ ∃ s, (ExpensesService.getSummary example_date "user-1" w').2 = Ok s
             ∧ ExpenseSummaryDto.totalExpenses s = 1%Z
             ∧ ExpenseSummaryDto.totalAmount s = Fin (Qc_of_Z 30).
Proof.
  split; [vm_compute; reflexivity|].
  destruct (exec_ledger_op example_storage_up
              (ExCreate "user-1" (example_create_expense (Qc_of_Z 30)) "exp-1")
              example_cached_world) as [w' [[]|err]] eqn:Hrun.
  2:{ vm_compute in Hrun. discriminate. }
  exists w'. split; [reflexivity|].
  destruct (summary_cache_invalidated example_storage_up _ _ _ Hrun)
    as [Hmiss Hfresh].
  split.
  { unfold cached_summary. simpl in Hmiss. by rewrite Hmiss. }
  eexists. split; [apply (Hfresh example_date)|].
  assert (w' = (exec_ledger_op example_storage_up
                  (ExCreate "user-1" (example_create_expense (Qc_of_Z 30))
                     "exp-1") example_cached_world).1) as ->
    by (by rewrite Hrun).
  split; [vm_compute; reflexivity|].
  by_computation.
Defined.

(** ** The summary *)

Section Summary.

Implicit Types (w : World).

Lemma or_zero_parseFloat_SUM (l : list Qc) :
  or_zero (parseFloat (SUM l)) = Fin (foldr Qcplus 0%Qc l).
Proof.
  destruct l as [|x l]; [done|].
  unfold SUM, parseFloat, or_zero, number_truthy, Qc_zero.
  case_bool_decide as Hz; simpl; [|done].
  f_equal. symmetry. exact Hz.
Qed.

Lemma percentageChange_value (current last : Qc) :
  (if number_gt (Fin last) (Fin 0)
   then number_mul (number_div (number_sub (Fin current) (Fin last)) (Fin last))
          (Fin (Qc_of_Z 100))
   else Fin 0)
  = if bool_decide (0 < last)%Qc
    then Fin ((current - last) / last * Qc_of_Z 100)%Qc
    else Fin 0.
Proof.
  unfold number_gt. case_bool_decide as Hpos; [|done].
  unfold number_sub, number_div, Qc_zero.
  rewrite bool_decide_eq_false_2; [done|].
  intros Hz. apply Qclt_not_eq in Hpos. congruence.
Qed.

(** C8.  On a cache miss [getSummary] returns the totals of the current
    and of the previous calendar month, and [percentageChange] is
    [(current - previous) / previous * 100] when the previous total is
    greater than 0, and 0 otherwise. *)
Theorem percentageChange_formula (now : Date) (userId : string) (w : World) :
  cacheManager w !! ("expenses:summary:" +:+ userId) = None →
  ∃ s, (ExpensesService.getSummary now userId w).2 = Ok s
    ∧ ExpenseSummaryDto.currentMonthTotal s
      = Fin (month_total now userId w)
    ∧ ExpenseSummaryDto.lastMonthTotal s
      = Fin (month_total (subMonths now 1) userId w)
    ∧ ExpenseSummaryDto.percentageChange s
      = if bool_decide (0 < month_total (subMonths now 1) userId w)%Qc
        then Fin ((month_total now userId w
                   - month_total (subMonths now 1) userId w)
                  / month_total (subMonths now 1) userId w
                  * Qc_of_Z 100)%Qc
        else Fin 0.
Proof.
  intros Hmiss. rewrite getSummary_miss by done.
  eexists. split; [done|].
  unfold ExpensesService.computeSummary. cbn [ExpenseSummaryDto.currentMonthTotal
    ExpenseSummaryDto.lastMonthTotal ExpenseSummaryDto.percentageChange].
  rewrite !or_zero_parseFloat_SUM.
  split; [done|]. split; [done|].
  apply percentageChange_value.
Qed.

(** In November 2024 user-1 has spent 50.00, after 40.00 in October: the
    change is 25 percent.  In October 2024 the previous month is empty:
    the change is 0. *)
Lemma percentageChange_formula_witness :
  cacheManager example_months_world !! ("expenses:summary:" +:+ "user-1") = None
  ∧ (ExpenseSummaryDto.percentageChange
       (ExpensesService.computeSummary (mkDate 2024 11 8) "user-1"
          example_months_world) = Fin (Qc_of_Z 25))
  ∧ (ExpenseSummaryDto.percentageChange
       (ExpensesService.computeSummary (mkDate 2024 10 8) "user-1"
          example_months_world) = Fin 0).
Proof.
  split; [reflexivity|].
  destruct (percentageChange_formula (mkDate 2024 11 8) "user-1"
              example_months_world eq_refl) as (s & Hs & _ & _ & Hpc).
  rewrite getSummary_miss in Hs by reflexivity.
  injection Hs as <-.
  split.
  - rewrite Hpc. by_computation.
  - by_computation.
Defined.

Lemma percentage_of_zero_total (raw : option Qc) :
  ∀ q, number_mul (number_div (parseFloat raw) (Fin 0)) (Fin (Qc_of_Z 100))
       ≠ Fin q.
Proof.
  intros q. destruct raw as [x|]; simpl; [|done].
  unfold number_div. replace (Qc_zero 0) with true by reflexivity.
  destruct (Qc_zero x); [done|].
  destruct (Qc_pos x); simpl;
    replace (Qc_zero (Qc_of_Z 100)) with false by reflexivity;
    [replace (Qc_pos (Qc_of_Z 100)) with true by reflexivity
    |replace (Qc_neg (Qc_of_Z 100)) with false by reflexivity]; done.
Qed.

(** There is no guard on the total in the breakdowns: whenever the total
    of the owner is 0, no entry of [byCategory] or [byPaymentMethod] has
    a finite percentage, so none has the percentage 0. *)
Lemma breakdown_percentages_not_finite now userId w :
  ExpenseSummaryDto.totalAmount (ExpensesService.computeSummary now userId w)
  = Fin 0 →
  (∀ entry q,
     entry ∈ ExpenseSummaryDto.byCategory
               (ExpensesService.computeSummary now userId w) →
     CategoryBreakdown.percentage entry ≠ Fin q)
  ∧ (∀ entry q,
       entry ∈ ExpenseSummaryDto.byPaymentMethod
                 (ExpensesService.computeSummary now userId w) →
       PaymentMethodBreakdown.percentage entry ≠ Fin q).
Proof.
  unfold ExpensesService.computeSummary.
  cbn [ExpenseSummaryDto.totalAmount ExpenseSummaryDto.byCategory
       ExpenseSummaryDto.byPaymentMethod].
  intros ->. split; intros entry q Hin;
    apply list_elem_of_fmap in Hin as (raw & -> & _); simpl;
    apply percentage_of_zero_total.
Qed.

(** C5, at the failing input: the only expense of user-1 has the amount
    0 (stored by the voice path), so the total is 0; the summary has one
    entry per breakdown, and the percentage of each is [NaN], not 0. *)
Theorem zero_total_percentage_is_NaN :
  ∃ s, (ExpensesService.getSummary example_date "user-1"
          example_zero_voice_world).2 = Ok s
    ∧ ExpenseSummaryDto.totalExpenses s = 1%Z
    ∧ ExpenseSummaryDto.totalAmount s = Fin 0
    ∧ CategoryBreakdown.percentage <$> ExpenseSummaryDto.byCategory s = [NaN]
    ∧ PaymentMethodBreakdown.percentage <$> ExpenseSummaryDto.byPaymentMethod s
      = [NaN].
Proof.
  eexists. split; [vm_compute; reflexivity|].
  split; [reflexivity|]. split; [by_computation|].
  split; reflexivity.
Qed.

End Summary.

(** * Further properties *)

(** ** Owners do not touch each other's payment methods *)

Section PaymentMethodIsolation.

Implicit Types (w : World) (m : gmap string PaymentMethod.t).

Lemma maybe_clear_foreign (b : bool) userId m p pm :
  PaymentMethod.userId pm ≠ userId →
  ((if b then clear_map userId m else m) !! p = Some pm ↔ m !! p = Some pm).
Proof.
  intros Hne. destruct b; [exact (clear_map_foreign _ _ _ _ Hne)|done].
Qed.

Lemma own_write_foreign (b : bool) userId m k row p pm :
  PaymentMethod.userId row = userId →
  (m !! k = None ∨ ∃ p0, m !! k = Some p0 ∧ PaymentMethod.userId p0 = userId) →
  PaymentMethod.userId pm ≠ userId →
  (<[k := row]> (if b then clear_map userId m else m) !! p = Some pm
   ↔ m !! p = Some pm).
Proof.
  intros Hrow Hk Hne. destruct (decide (k = p)) as [->|Hkp].
  - rewrite lookup_insert_eq. split.
    + intros [= <-]. congruence.
    + intros Hp. destruct Hk as [Hk|(p0 & Hk & Hu)]; congruence.
  - rewrite lookup_insert_ne by done.
    exact (maybe_clear_foreign _ _ _ _ _ Hne).
Qed.

Lemma pm_request_foreign req w :
  foreign_methods_kept (pm_request_user req) w (exec_pm_request req w).1
  ∧ expenseRepository (exec_pm_request req w).1 = expenseRepository w
  ∧ categoryRepository (exec_pm_request req w).1 = categoryRepository w.
Proof.
  destruct req as [u dto n|u id dto|u id|u id|u id a o]; simpl;
    rewrite ?exec_then_ret_world.
  - destruct (pm_create_cases u dto n w) as (w' & r & -> & He & Hc & Hcase).
    simpl. split; [|done]. intros p pm Hne.
    destruct Hcase
      as [(_ & -> & _)|[(err & _ & -> & _)
                        |(stored & _ & Hstore & _ & Hn & -> & _)]].
    + done.
    + exact (maybe_clear_foreign _ _ _ _ _ Hne).
    + apply toStore_userId in Hstore.
      refine (own_write_foreign _ u _ _ _ _ _ _ _ Hne); [done|by left].
  - destruct (pm_update_cases u id dto w) as (w' & r & -> & He & Hc & Hcase).
    simpl. split; [|done]. intros p pm Hne.
    destruct Hcase
      as [(err & _ & _ & [->| ->])
         |(p0 & stored & Hp0 & Hu & _ & Hstore & -> & _)].
    + done.
    + exact (maybe_clear_foreign _ _ _ _ _ Hne).
    + apply toStore_userId in Hstore.
      refine (own_write_foreign _ u _ _ _ _ _ _ _ Hne);
        [by rewrite Hstore|right; eauto].
  - destruct (pm_setDefault_cases u id w) as (w' & r & -> & He & Hc & Hcase).
    simpl. split; [|done]. intros p pm Hne.
    destruct Hcase as [(err & _ & ->)|(p0 & Hp0 & Hu & _ & -> & _)]; [done|].
    refine (own_write_foreign true u _ _ _ _ _ _ _ Hne); [done|right; eauto].
  - destruct (pm_remove_always_throws u id w) as [e ->]. done.
  - destruct (pm_updateBalance_cases u id a o w)
      as (w' & r & -> & He & Hc & _ & Hcase).
    simpl. split; [|done]. intros p pm Hne.
    destruct Hcase as [(err & _ & ->)|(p0 & b & Hp0 & Hu & _ & -> & _)];
      [done|].
    refine (own_write_foreign false u _ _ _ _ _ _ _ Hne); [done|right; eauto].
Qed.

(** X1.  Whatever payment-method requests (create, update, setDefault,
    remove, updateBalance; failed ones included) other owners send, a
    payment method keeps its row: a row of an owner who sent none of the
    requests is stored afterwards exactly when it was stored before, and
    no request writes an expense or a category. *)
Theorem payment_requests_keep_foreign_methods
    (reqs : list PaymentMethodRequest) (w : World)
    (p : string) (pm : PaymentMethod.t) :
  Forall (λ req, PaymentMethod.userId pm ≠ pm_request_user req) reqs →
  (paymentMethodRepository (run_pm_requests reqs w) !! p = Some pm
   ↔ paymentMethodRepository w !! p = Some pm)
  ∧ expenseRepository (run_pm_requests reqs w) = expenseRepository w
  ∧ categoryRepository (run_pm_requests reqs w) = categoryRepository w.
Proof.
  revert w. induction reqs as [|req reqs IH]; intros w Hall; [done|].
  inversion Hall as [|? ? Hreq Hreqs]; subst. simpl.
  destruct (pm_request_foreign req w) as (Hf & He & Hc).
  destruct (IH (exec_pm_request req w).1 Hreqs) as (Hp' & He' & Hc').
  split; [|split; congruence].
  rewrite Hp'. by apply Hf.
Qed.

(** user-1 creates two methods, changes the default, and tries to debit
    and to rename the method of user-2: that method is what it was. *)
Lemma payment_requests_keep_foreign_methods_witness :
  Forall (λ req, PaymentMethod.userId example_foreign_method
                 ≠ pm_request_user req) example_user1_requests
  ∧ paymentMethodRepository
      (run_pm_requests example_user1_requests example_two_owners_world)
    !! "pm-z" = Some example_foreign_method.
Proof.
  assert (Hall : Forall (λ req, PaymentMethod.userId example_foreign_method
                                ≠ pm_request_user req)
                   example_user1_requests)
    by (repeat constructor; discriminate).
  split; [exact Hall|].
  apply (proj1 (payment_requests_keep_foreign_methods example_user1_requests
                  example_two_owners_world "pm-z" example_foreign_method
                  Hall)).
  reflexivity.
Defined.

End PaymentMethodIsolation.

(** ** Names of payment methods stay unique per owner *)

Section MethodNames.

Implicit Types (w : World) (m : gmap string PaymentMethod.t).

Lemma unique_names_maybe_clear (b : bool) userId m :
  unique_names_in m →
  unique_names_in (if b then clear_map userId m else m).
Proof.
  intros Hm id1 id2 p1 p2 H1 H2 Hu Hn.
  apply maybe_clear_names in H1 as (q1 & H1 & Hu1 & Hn1).
  apply maybe_clear_names in H2 as (q2 & H2 & Hu2 & Hn2).
  eapply Hm; eauto; congruence.
Qed.

(** Writing a row whose name no other method of its owner bears keeps
    the names unique. *)
Lemma unique_names_write (b : bool) userId m k row :
  unique_names_in m →
  PaymentMethod.userId row = userId →
  (∀ id q, id ≠ k → m !! id = Some q → PaymentMethod.userId q = userId →
     PaymentMethod.name q ≠ PaymentMethod.name row) →
  unique_names_in (<[k := row]> (if b then clear_map userId m else m)).
Proof.
  intros Hm Hrow Hfresh id1 id2 p1 p2 H1 H2 Hu Hn.
  destruct (decide (id1 = id2)) as [|Hne]; [done|exfalso].
  destruct (decide (k = id1)) as [->|Hk1].
  - rewrite lookup_insert_eq in H1. rewrite lookup_insert_ne in H2 by done.
    simplify_eq.
    apply maybe_clear_names in H2 as (q2 & H2 & Hu2 & Hn2).
    apply (Hfresh id2 q2); [done|done|congruence|congruence].
  - rewrite lookup_insert_ne in H1 by done.
    apply maybe_clear_names in H1 as (q1 & H1 & Hu1 & Hn1).
    destruct (decide (k = id2)) as [->|Hk2].
    + rewrite lookup_insert_eq in H2. simplify_eq.
      apply (Hfresh id1 q1); [done|done|congruence|congruence].
    + rewrite lookup_insert_ne in H2 by done.
      apply maybe_clear_names in H2 as (q2 & H2 & Hu2 & Hn2).
      apply Hne. eapply Hm; eauto; congruence.
Qed.

Lemma pm_request_keeps_names req w :
  unique_method_names w →
  unique_method_names (exec_pm_request req w).1.
Proof.
  unfold unique_method_names. intros Hw.
  destruct req as [u dto n|u id dto|u id|u id|u id a o]; simpl;
    rewrite ?exec_then_ret_world.
  - destruct (pm_create_cases u dto n w) as (w' & r & -> & _ & _ & Hcase).
    simpl.
    destruct Hcase
      as [(_ & -> & _)|[(err & _ & -> & _)
                        |(stored & _ & Hstore & Hfind & Hn & -> & _)]].
    + done.
    + by apply unique_names_maybe_clear.
    + apply unique_names_write;
        [done|by rewrite (toStore_userId _ _ _ Hstore)|].
      intros id q _ Hq Hu. rewrite (toStore_name _ _ _ Hstore).
      by eapply pm_findByName_None.
  - destruct (pm_update_cases u id dto w) as (w' & r & -> & _ & _ & Hcase).
    simpl.
    destruct Hcase
      as [(err & _ & _ & [->| ->])
         |(p0 & stored & Hp0 & Hu & _ & Hstore & -> & Hname & _)].
    + done.
    + by apply unique_names_maybe_clear.
    + apply unique_names_write;
        [done|by rewrite (toStore_userId _ _ _ Hstore)|].
      destruct Hname as [Hsame|Hfresh]; [|exact Hfresh].
      intros id' q Hne Hq Huq Heq. apply Hne. eapply Hw; eauto; congruence.
  - destruct (pm_setDefault_cases u id w) as (w' & r & -> & _ & _ & Hcase).
    simpl.
    destruct Hcase as [(err & _ & ->)|(p0 & Hp0 & Hu & _ & -> & _)]; [done|].
    apply (unique_names_write true); [done|done|].
    intros id' q Hne Hq Huq Heq. apply Hne. eapply Hw; eauto. congruence.
  - destruct (pm_remove_always_throws u id w) as [e ->]. done.
  - destruct (pm_updateBalance_cases u id a o w)
      as (w' & r & -> & _ & _ & _ & Hcase).
    simpl.
    destruct Hcase as [(err & _ & ->)|(p0 & b & Hp0 & Hu & _ & -> & _)];
      [done|].
    apply (unique_names_write false u); [done|done|].
    intros id' q Hne Hq Huq Heq. apply Hne. eapply Hw; eauto. congruence.
Qed.

(** X2.  Per owner, the names of the payment methods stay pairwise
    different under every sequence of payment-method requests: [create]
    and [update] look the name up first, and what the look-up of
    [update] lets through (a rename to the empty string) the unique
    index on (userId, name) rejects. *)
Theorem method_names_stay_unique
    (reqs : list PaymentMethodRequest) (w : World) :
  unique_method_names w →
  unique_method_names (run_pm_requests reqs w).
Proof.
  revert w. induction reqs as [|req reqs IH]; intros w Hw; [done|].
  simpl. apply IH. by apply pm_request_keeps_names.
Qed.

Lemma method_names_stay_unique_witness :
  unique_method_names example_two_owners_world
  ∧ unique_method_names
      (run_pm_requests example_user1_requests example_two_owners_world).
Proof.
  assert (Hw : unique_method_names example_two_owners_world).
  { intros id1 id2 p1 p2 H1 H2 _ _. simpl in H1, H2.
    apply lookup_insert_Some in H1 as [[<- _]|[_ H1]];
      [|by rewrite lookup_empty in H1].
    apply lookup_insert_Some in H2 as [[<- _]|[_ H2]];
      [done|by rewrite lookup_empty in H2]. }
  split; [exact Hw|].
  exact (method_names_stay_unique _ _ Hw).
Defined.

End MethodNames.

(** ** Created and default payment methods are found again *)

Section MethodRoundTrips.

Implicit Types (w : World) (m : gmap string PaymentMethod.t).

(** After the defaults of [userId] were cleared and the row [row] of
    [userId], marked as default, was written under [id], [getDefault]
    finds that row if it is active, and nothing otherwise. *)
Lemma getDefault_after_write userId id row w w' :
  paymentMethodRepository w'
  = <[id := row]> (clear_map userId (paymentMethodRepository w)) →
  PaymentMethod.userId row = userId →
  PaymentMethod.isDefault row = true →
  PaymentMethodsService.getDefault userId w'
  = (w', Ok (if PaymentMethod.isActive row then Some (id, row) else None)).
Proof.
  intros Hw' Hu Hd. unfold PaymentMethodsService.getDefault. munfold.
  f_equal. f_equal. rewrite Hw'.
  destruct (findOneWhere _ _) as [[id' row']|] eqn:Hfind.
  - apply findOneWhere_Some in Hfind as [Hrow' Hcond]. simpl in *.
    apply andb_true_iff in Hcond as [Hcond Hact].
    apply andb_true_iff in Hcond as [Hu' Hd']. apply eqb_true in Hu'.
    destruct (decide (id = id')) as [<-|Hne].
    + rewrite lookup_insert_eq in Hrow'. simplify_eq. by rewrite Hact.
    + rewrite lookup_insert_ne in Hrow' by done.
      apply clear_map_lookup in Hrow' as (p & _ & Hup & Hdef).
      destruct (Hdef Hd') as [_ Hother]. congruence.
  - pose proof (findOneWhere_None _ _ id row Hfind) as Hcond.
    rewrite lookup_insert_eq in Hcond. specialize (Hcond eq_refl).
    simpl in Hcond. rewrite Hd in Hcond.
    apply eqb_true in Hu. rewrite Hu in Hcond. simpl in Hcond.
    by rewrite Hcond.
Qed.



(** X4.  After [setDefault] returned a method, [getDefault] of the owner
    returns exactly that method if it is active; if it is inactive the
    owner has no default that [getDefault] reports, whatever was the
    default before. *)
Theorem setDefault_then_getDefault
    (userId id : string) (w w' : World) (e : Entity PaymentMethod.t) :
  PaymentMethodsService.setDefault userId id w = (w', Ok e) →
  e.1 = id
  ∧ PaymentMethod.isDefault e.2 = true
  ∧ PaymentMethodsService.getDefault userId w'
    = (w', Ok (if PaymentMethod.isActive e.2 then Some e else None)).
Proof.
  intros Hrun.
  destruct (pm_setDefault_cases userId id w)
    as (w1 & r & Hrun' & _ & _ & Hcase).
  rewrite Hrun in Hrun'. injection Hrun' as <- <-.
  destruct Hcase as [(err & ? & _)|(p & Hp & Hu & He & Hw' & _)]; [done|].
  injection He as ->. simpl. split; [done|]. split; [done|].
  by rewrite (getDefault_after_write userId id _ w w' Hw').
Qed.

Lemma setDefault_then_getDefault_witness :
  ∃ w' e,
    PaymentMethodsService.setDefault "user-1" "pm-a"
      example_inactive_default_world = (w', Ok e)
    ∧ PaymentMethodsService.getDefault "user-1" w'
      = (w', Ok (if PaymentMethod.isActive e.2 then Some e else None)).
Proof.
  destruct (PaymentMethodsService.setDefault "user-1" "pm-a"
              example_inactive_default_world) as [w' [e|err]] eqn:Hrun;
    [|vm_compute in Hrun; discriminate].
  exists w', e. split; [done|].
  exact (proj2 (proj2 (setDefault_then_getDefault _ _ _ _ _ Hrun))).
Defined.

End MethodRoundTrips.

(** ** The cached lists of payment methods *)

Section MethodListCache.

Implicit Types (w : World).

Lemma length_append (s t : string) :
  String.length (s +:+ t) = String.length s + String.length t.
Proof. induction s as [|c s IH]; simpl; [done|by rewrite IH]. Qed.

Lemma append_not_self (s t : string) : t ≠ "" → s +:+ t ≠ s.
Proof.
  intros Ht Heq. apply (f_equal String.length) in Heq.
  rewrite length_append in Heq.
  destruct t; [done|]. simpl in Heq. lia.
Qed.

Lemma create_key_not_list_key userId (includeInactive : bool) :
  "payment-methods:" +:+ userId
  ≠ PaymentMethodsService.findAll_cacheKey userId includeInactive.
Proof.
  unfold PaymentMethodsService.findAll_cacheKey. intros Heq.
  apply (String.app_inj "payment-methods:") in Heq. symmetry in Heq.
  by apply append_not_self in Heq; [|destruct includeInactive].
Qed.

Lemma list_key_cases userId (includeInactive : bool) :
  PaymentMethodsService.findAll_cacheKey userId includeInactive
  = (if includeInactive
     then "payment-methods:" +:+ userId +:+ ":true"
     else "payment-methods:" +:+ userId +:+ ":false").
Proof. by destruct includeInactive. Qed.

Lemma pm_create_cache userId dto newId w w' r :
  PaymentMethodsService.create userId dto newId w = (w', r) →
  cacheManager w' = cacheManager w
  ∨ cacheManager w'
    = delete ("payment-methods:" +:+ userId) (cacheManager w).
Proof.
  intros Hrun.
  destruct (pm_create_cases userId dto newId w)
    as (w1 & r1 & Hrun' & _ & _ & Hcase).
  rewrite Hrun in Hrun'. injection Hrun' as <- <-.
  destruct Hcase as [(_ & -> & _)|[(err & _ & _ & Hc)|(s & Hrest)]].
  - by left.
  - by left.
  - right. apply Hrest.
Qed.

Lemma pm_update_cache userId id dto w w' e :
  PaymentMethodsService.update userId id dto w = (w', Ok e) →
  cacheManager w'
  = delete ("payment-methods:" +:+ userId +:+ ":false")
      (delete ("payment-methods:" +:+ userId +:+ ":true") (cacheManager w)).
Proof.
  intros Hrun.
  destruct (pm_update_cases userId id dto w)
    as (w1 & r1 & Hrun' & _ & _ & Hcase).
  rewrite Hrun in Hrun'. injection Hrun' as <- <-.
  destruct Hcase as [(err & ? & _)|(p & s & Hrest)]; [done|].
  apply Hrest.
Qed.

Lemma pm_setDefault_cache userId id w w' e :
  PaymentMethodsService.setDefault userId id w = (w', Ok e) →
  cacheManager w'
  = delete ("payment-methods:" +:+ userId +:+ ":false")
      (delete ("payment-methods:" +:+ userId +:+ ":true") (cacheManager w)).
Proof.
  intros Hrun.
  destruct (pm_setDefault_cases userId id w)
    as (w1 & r1 & Hrun' & _ & _ & Hcase).
  rewrite Hrun in Hrun'. injection Hrun' as <- <-.
  destruct Hcase as [(err & ? & _)|(p & Hrest)]; [done|].
  apply Hrest.
Qed.

Lemma both_list_keys_deleted userId (includeInactive : bool)
    (cache : gmap string CacheValue) :
  delete ("payment-methods:" +:+ userId +:+ ":false")
    (delete ("payment-methods:" +:+ userId +:+ ":true") cache)
  !! PaymentMethodsService.findAll_cacheKey userId includeInactive = None.
Proof.
  rewrite list_key_cases. destruct includeInactive.
  - rewrite lookup_delete_ne, lookup_delete_eq; [done|].
    intros Heq. apply (String.app_inj "payment-methods:") in Heq.
    by apply (String.app_inj userId) in Heq.
  - by rewrite lookup_delete_eq.
Qed.

(** X5.  [create] leaves both cached lists of [findAll] (with and
    without the inactive methods) of the owner in the cache: the key it
    deletes is not a key of [findAll].  [update] and [setDefault], when
    they return, have evicted both lists. *)
Theorem create_keeps_cached_method_lists
    (userId : string) (includeInactive : bool) (w : World) :
  (∀ dto newId,
     cacheManager (PaymentMethodsService.create userId dto newId w).1
     !! PaymentMethodsService.findAll_cacheKey userId includeInactive
     = cacheManager w
       !! PaymentMethodsService.findAll_cacheKey userId includeInactive)
  ∧ (∀ id dto w' e,
       PaymentMethodsService.update userId id dto w = (w', Ok e) →
       cacheManager w'
       !! PaymentMethodsService.findAll_cacheKey userId includeInactive
       = None)
  ∧ (∀ id w' e,
       PaymentMethodsService.setDefault userId id w = (w', Ok e) →
       cacheManager w'
       !! PaymentMethodsService.findAll_cacheKey userId includeInactive
       = None).
Proof.
  split; [|split].
  - intros dto newId.
    destruct (PaymentMethodsService.create userId dto newId w)
      as [w' r] eqn:Hrun.
    destruct (pm_create_cache _ _ _ _ _ _ Hrun) as [Hc|Hc]; simpl;
      rewrite Hc; [done|].
    rewrite lookup_delete_ne; [done|]. apply create_key_not_list_key.
  - intros id dto w' e Hrun. rewrite (pm_update_cache _ _ _ _ _ _ Hrun).
    apply both_list_keys_deleted.
  - intros id w' e Hrun. rewrite (pm_setDefault_cache _ _ _ _ _ Hrun).
    apply both_list_keys_deleted.
Qed.

Lemma create_keeps_cached_method_lists_witness :
  ∃ w' e,
    PaymentMethodsService.update "user-1" "pm-a"
      (UpdatePaymentMethodDto.mk (Some "Efectivo") None None None None None
         None None None None None)
      example_unused_method_world = (w', Ok e)
    ∧ cacheManager w'
      !! PaymentMethodsService.findAll_cacheKey "user-1" false = None.
Proof.
  destruct (PaymentMethodsService.update "user-1" "pm-a"
              (UpdatePaymentMethodDto.mk (Some "Efectivo") None None None
                 None None None None None None None)
              example_unused_method_world) as [w' [e|err]] eqn:Hrun;
    [|vm_compute in Hrun; discriminate].
  exists w', e. split; [reflexivity|].
  exact (proj1 (proj2 (create_keeps_cached_method_lists "user-1" false
                         example_unused_method_world)) _ _ _ _ Hrun).
Defined.

End MethodListCache.

(** ** Requests that fail *)

Section LedgerAtomicity.

Context (storageService : StorageService.t).
Implicit Types (w : World).

(** [updateBalance] on a method of the user: the new balance is
    written, or it does not fit its column. *)
Lemma updateBalance_found_cases userId id amount operation w pm :
  paymentMethodRepository w !! id = Some pm →
  PaymentMethod.userId pm = userId →
  (∃ b e,
     PaymentMethodsService.updateBalance userId id amount operation w
     = (set_paymentMethodRepository
          (<[id := PaymentMethod.set_balance b pm]>) w, Ok e))
  ∨ PaymentMethodsService.updateBalance userId id amount operation w
    = (w, Throw numeric_overflow).
Proof.
  intros Hp Hu.
  destruct (storedDecimal (Some (PaymentMethod.balance pm))
              (match operation with
               | add => PaymentMethod.balance pm + amount
               | subtract => PaymentMethod.balance pm - amount
               end)%Qc) as [b|err] eqn:Hb.
  - left. exists b. eexists. by apply updateBalance_found.
  - right. apply storedDecimal_Throw in Hb as Herr. subst err.
    unfold PaymentMethodsService.updateBalance, mbind, M_bind.
    rewrite (pm_findOne_found userId id w pm Hp Hu). cbn [fst snd].
    unfold PaymentMethodsService.save. cbn [fst snd].
    by rewrite Hp, toStore_balance, Hb.
Qed.

(** The common end of the three creation paths, once the payment method
    was found: it throws before the row is written, or the balance does
    not fit its column and the row stays. *)
Lemma create_tail_throws userId newId row w pm w' err :
  paymentMethodRepository w !! Expense.paymentMethodId row = Some pm →
  PaymentMethod.userId pm = userId →
  (saved ← ExpensesService.insert newId row;
   PaymentMethodsService.updateBalance userId
     (Expense.paymentMethodId row) (Expense.amount row) subtract;;
   ExpensesService.invalidateCache userId;;
   mret saved) w = (w', Throw err) →
  (w' = w
   ∨ err = numeric_overflow
     ∧ ∃ stored, expenseRepository w !! newId = None
                 ∧ w' = set_expenseRepository (<[newId := stored]>) w).
Proof.
  intros Hpm Hu. unfold mbind at 1, M_bind at 1.
  destruct (ex_insert_cases newId row w)
    as [[e ->]|(amount & _ & Hnew & ->)]; [intros [= <- _]; by left|].
  cbn [fst snd]. unfold mbind at 1, M_bind at 1.
  set (w1 := set_expenseRepository _ w).
  destruct (updateBalance_found_cases userId (Expense.paymentMethodId row)
              (Expense.amount row) subtract w1 pm)
    as [(b & e & ->)| ->]; [done|done| |].
  - unfold ExpensesService.invalidateCache. munfold. done.
  - intros [= <- <-]. right. split; [done|]. eauto.
Qed.

Ltac apply_tail_throws H :=
  match type of H with
  | context [ExpensesService.insert ?newId ?row] =>
      match goal with
      | Hpm : paymentMethodRepository ?w !! _ = Some ?pm,
        Hu : PaymentMethod.userId ?pm = ?userId |- _ =>
          apply (create_tail_throws userId newId row w pm _ _ Hpm Hu) in H
      end
  end.

(** The two balance moves of [update], with both methods stored for the
    user: they return, or a balance does not fit its column. *)
Lemma move_balances_cases userId oldId oldAmount newId newAmount w pmo pmn :
  paymentMethodRepository w !! oldId = Some pmo →
  PaymentMethod.userId pmo = userId →
  paymentMethodRepository w !! newId = Some pmn →
  PaymentMethod.userId pmn = userId →
  ∃ w' r,
    (PaymentMethodsService.updateBalance userId oldId oldAmount add;;
     PaymentMethodsService.updateBalance userId newId newAmount subtract;;
     mret tt) w = (w', r)
    ∧ (r = Ok tt ∨ r = Throw numeric_overflow).
Proof.
  intros Hpmo Huo Hpmn Hun. unfold mbind at 1, M_bind at 1.
  destruct (updateBalance_found_cases userId oldId oldAmount add w pmo)
    as [(b & e & ->)| ->]; [done|done| |by eauto].
  cbn [fst snd]. unfold mbind at 1, M_bind at 1.
  set (w1 := set_paymentMethodRepository _ w).
  assert (∃ pm2, paymentMethodRepository w1 !! newId = Some pm2
                 ∧ PaymentMethod.userId pm2 = userId) as (pm2 & Hpm2 & Hu2).
  { subst w1. simpl. destruct (decide (oldId = newId)) as [<-|Hne].
    - rewrite lookup_insert_eq. eauto.
    - rewrite lookup_insert_ne by done. eauto. }
  destruct (updateBalance_found_cases userId newId newAmount subtract w1 pm2)
    as [(b2 & e2 & ->)| ->]; [done|done| |by eauto].
  munfold. eauto.
Qed.

(** X6.  When one of the three creation paths or [update] throws
    (unknown or foreign category or payment method, unknown expense,
    failed upload, key collision, a number that does not fit its
    decimal(15,2) column), then no row, no balance and no cache entry
    has changed, or the error is the numeric overflow: the balances are
    written after the expense row, and a balance that overflows leaves
    the row written.  For [update] this needs that the stored expenses
    reference methods of their owners and that a payment method id in
    the DTO is not empty. *)
Theorem failed_save_request_wrote_nothing_or_overflowed
    (op : LedgerOp) (w w' : World) (err : Exception) :
  saves_row op →
  valid_ledger_op op →
  references_resolve w →
  exec_ledger_op storageService op w = (w', Throw err) →
  w' = w ∨ err = numeric_overflow.
Proof.
  intros Hsaves Hvalid Hw Hx.
  destruct op as [u dto n|u data n|u data n|u id dto|u id];
    cbn [exec_ledger_op] in Hx.
  - apply exec_then_ret_Throw in Hx as H.
    clear Hx. unfold ExpensesService.create in H.
    unfold mbind at 1 in H. unfold M_bind at 1 in H.
    destruct (cat_findOne_cases u (CreateExpenseDto.categoryId dto) w)
      as [[c Hc]|[e Hc]]; rewrite Hc in H; [|left; by injection H as <-].
    unfold mbind at 1 in H. unfold M_bind at 1 in H.
    destruct (pm_findOne_cases u (CreateExpenseDto.paymentMethodId dto) w)
      as [(pm & Hpm & Hu & Hf)|[e Hf]]; rewrite Hf in H;
      [|left; by injection H as <-].
    apply_tail_throws H. destruct H as [H|[H _]]; auto.
  - apply exec_then_ret_Throw in Hx as H.
    clear Hx. unfold ExpensesService.createFromOcr in H.
    unfold mbind at 1 in H. unfold M_bind at 1 in H.
    destruct (cat_findOne_cases u (OcrExpenseData.categoryId data) w)
      as [[c Hc]|[e Hc]]; rewrite Hc in H; [|left; by injection H as <-].
    unfold mbind at 1 in H. unfold M_bind at 1 in H.
    destruct (pm_findOne_cases u (OcrExpenseData.paymentMethodId data) w)
      as [(pm & Hpm & Hu & Hf)|[e Hf]]; rewrite Hf in H;
      [|left; by injection H as <-].
    unfold mbind at 1 in H. unfold M_bind at 1 in H. unfold lift_result in H.
    destruct (StorageService.uploadReceipt storageService _ _) as [up|e];
      [|left; by injection H as <-].
    apply_tail_throws H. destruct H as [H|[H _]]; auto.
  - apply exec_then_ret_Throw in Hx as H.
    clear Hx. unfold ExpensesService.createFromVoice in H.
    unfold mbind at 1 in H. unfold M_bind at 1 in H.
    destruct (cat_findOne_cases u (VoiceExpenseData.categoryId data) w)
      as [[c Hc]|[e Hc]]; rewrite Hc in H; [|left; by injection H as <-].
    unfold mbind at 1 in H. unfold M_bind at 1 in H.
    destruct (pm_findOne_cases u (VoiceExpenseData.paymentMethodId data) w)
      as [(pm & Hpm & Hu & Hf)|[e Hf]]; rewrite Hf in H;
      [|left; by injection H as <-].
    unfold mbind at 1 in H. unfold M_bind at 1 in H.
    destruct (VoiceExpenseData.audioFile data) as [audioFile|].
    + unfold mbind at 1 in H. unfold M_bind at 1 in H.
      unfold lift_result in H.
      destruct (StorageService.uploadVoiceRecording storageService _ _)
        as [up|e]; [|left; by injection H as <-].
      unfold mret at 1 in H. unfold M_ret at 1 in H.
      apply_tail_throws H. destruct H as [H|[H _]]; auto.
    + unfold mret at 1 in H. unfold M_ret at 1 in H.
      apply_tail_throws H. destruct H as [H|[H _]]; auto.
  - apply exec_then_ret_Throw in Hx as H.
    clear Hx. simpl in Hvalid.
    unfold ExpensesService.update in H.
    unfold mbind at 1 in H. unfold M_bind at 1 in H.
    destruct (ex_findOne_cases u id w) as [(e & He & Hue & Hf)|[e Hf]];
      rewrite Hf in H; [|left; by injection H as <-].
    cbn [fst snd] in H.
    unfold mbind at 1 in H. unfold M_bind at 1 in H.
    set (catcheck := if opt_truthy (UpdateExpenseDto.categoryId dto)
                     then _ else _) in H.
    assert (catcheck w = (w, Ok tt) ∨ ∃ e0, catcheck w = (w, Throw e0))
      as [Hc|[e0 Hc]];
      [|rewrite Hc in H|rewrite Hc in H; left; by injection H as <-].
    { subst catcheck. destruct (opt_truthy _); [|by left]. munfold.
      destruct (cat_findOne_cases u
                  (default "" (UpdateExpenseDto.categoryId dto)) w)
        as [[c ->]|[e0 ->]]; eauto. }
    unfold mbind at 1 in H. unfold M_bind at 1 in H.
    set (pmcheck := if opt_truthy (UpdateExpenseDto.paymentMethodId dto)
                    then _ else _) in H.
    set (e' := ExpensesService.assignDto dto e) in *.
    assert ((pmcheck w = (w, Ok tt)
             ∧ ∃ pmn, paymentMethodRepository w !! Expense.paymentMethodId e'
                      = Some pmn
                      ∧ PaymentMethod.userId pmn = u)
            ∨ ∃ e0, pmcheck w = (w, Throw e0))
      as [[Hp (pmn & Hpmn & Hun)]|[e0 Hp]];
      [|rewrite Hp in H|rewrite Hp in H; left; by injection H as <-].
    { subst pmcheck e'.
      destruct (UpdateExpenseDto.paymentMethodId dto) as [s|] eqn:Hs; simpl.
      - destruct (string_truthy s) eqn:Ht.
        + munfold.
          destruct (pm_findOne_cases u s w)
            as [(pm & Hpm & Hu & ->)|[e0 ->]]; [left|right; eauto].
          split; [done|]. exists pm. by rewrite Hs.
        + unfold string_truthy in Ht. apply negb_false_iff, eqb_true in Ht.
          congruence.
      - left. split; [done|]. rewrite Hs. simpl.
        destruct (Hw id e He) as (pm & Hpm & Hu). exists pm. split; [done|].
        congruence. }
    unfold mbind at 1 in H. unfold M_bind at 1 in H.
    destruct (ex_save_cases id e' e w He) as [[e0 Hs]|(amount & _ & Hs)];
      rewrite Hs in H; [left; by injection H as <-|].
    right. cbn [fst snd] in H.
    set (w1 := set_expenseRepository _ w) in H.
    destruct (Hw id e He) as (pmo & Hpmo & Huo).
    unfold mbind at 1 in H. unfold M_bind at 1 in H.
    unfold ExpensesService.invalidateCache in H.
    destruct (bool_decide (Expense.amount e ≠ Expense.amount e')
              || negb (String.eqb (Expense.paymentMethodId e)
                         (Expense.paymentMethodId e'))) eqn:Hchg.
    + destruct (move_balances_cases u (Expense.paymentMethodId e)
                  (Expense.amount e) (Expense.paymentMethodId e')
                  (Expense.amount e') w1 pmo pmn)
        as (w2 & r & Hmove & [->| ->]); [done|congruence|done|done| |];
        rewrite Hmove in H; munfold; cbn [fst snd] in H.
      * discriminate.
      * by injection H as _ <-.
    + munfold. cbn [fst snd] in H. discriminate.
  - done.
Qed.

End LedgerAtomicity.

(** user-2 tries to charge an expense to the method of user-1: the
    request fails and has written nothing. *)
Lemma failed_save_request_wrote_nothing_or_overflowed_witness :
  saves_row (ExCreate "user-2" (example_create_expense (Qc_of_Z 30)) "exp-1")
  ∧ references_resolve example_ledger_world
  ∧ ((exec_ledger_op example_storage_up
        (ExCreate "user-2" (example_create_expense (Qc_of_Z 30)) "exp-1")
        example_ledger_world).1 = example_ledger_world
     ∨ (exec_ledger_op example_storage_up
          (ExCreate "user-2" (example_create_expense (Qc_of_Z 30)) "exp-1")
          example_ledger_world).2 = Throw numeric_overflow).
Proof.
  split; [exact I|].
  assert (Hw : references_resolve example_ledger_world)
    by (by apply no_expenses_resolve).
  split; [exact Hw|].
  destruct (exec_ledger_op example_storage_up
              (ExCreate "user-2" (example_create_expense (Qc_of_Z 30))
                 "exp-1") example_ledger_world) as [w' [[]|err]] eqn:Hrun;
    [vm_compute in Hrun; discriminate|].
  destruct (failed_save_request_wrote_nothing_or_overflowed example_storage_up
              (ExCreate "user-2" (example_create_expense (Qc_of_Z 30)) "exp-1")
              example_ledger_world w' err I I Hw Hrun) as [->| ->];
    [by left|by right].
Defined.

(** With "Cash" at -9999999999999.99 a charge of 0.01 does not fit the
    column of the balance: [create] throws after the expense was
    written, and the expense is stored while the balance is what it
    was. *)
Lemma overflowing_create_keeps_expense :
  ∃ w' stored,
    ExpensesService.create "user-1"
      (example_create_expense (Q2Qc (1 # 100))) "exp-1"
      example_overdrawn_world = (w', Throw numeric_overflow)
    ∧ expenseRepository w' !! "exp-1" = Some stored
    ∧ paymentMethodRepository w'
      = paymentMethodRepository example_overdrawn_world.
Proof.
  eexists _, _. split; [vm_compute; reflexivity|].
  split; [vm_compute; reflexivity|reflexivity].
Qed.

(** ** Ledger requests write rows of their owner only *)

Section LedgerIsolation.

Context (storageService : StorageService.t).
Implicit Types (w : World).

Lemma own_refl userId w : writes_own_rows userId w w.
Proof. by split; [|split]. Qed.

Lemma own_trans userId w1 w2 w3 :
  writes_own_rows userId w1 w2 → writes_own_rows userId w2 w3 →
  writes_own_rows userId w1 w3.
Proof.
  intros (He1 & Hp1 & Hc1) (He2 & Hp2 & Hc2). split; [|split].
  - intros id e Hne. by rewrite (He2 id e Hne), (He1 id e Hne).
  - intros p pm Hne. by rewrite (Hp2 p pm Hne), (Hp1 p pm Hne).
  - congruence.
Qed.

Lemma own_cache userId f w : writes_own_rows userId w (set_cacheManager f w).
Proof. by split; [|split]. Qed.

Lemma own_save_expense userId k row w :
  Expense.userId row = userId →
  (expenseRepository w !! k = None
   ∨ ∃ e0, expenseRepository w !! k = Some e0 ∧ Expense.userId e0 = userId) →
  writes_own_rows userId w (set_expenseRepository (<[k := row]>) w).
Proof.
  intros Hrow Hk. split; [|by split]. intros id e Hne. simpl.
  destruct (decide (k = id)) as [->|Hkid].
  - rewrite lookup_insert_eq. split.
    + intros [= <-]. done.
    + intros He. destruct Hk as [Hk|(e0 & Hk & Hu)]; congruence.
  - by rewrite lookup_insert_ne.
Qed.

Lemma own_delete_expense userId k e0 w :
  expenseRepository w !! k = Some e0 →
  Expense.userId e0 = userId →
  writes_own_rows userId w (set_expenseRepository (delete k) w).
Proof.
  intros Hk Hu. split; [|by split]. intros id e Hne. simpl.
  destruct (decide (k = id)) as [->|Hkid].
  - rewrite lookup_delete_eq. split; [done|]. congruence.
  - by rewrite lookup_delete_ne.
Qed.

Lemma own_updateBalance userId id amount operation w :
  writes_own_rows userId w
    (PaymentMethodsService.updateBalance userId id amount operation w).1.
Proof.
  destruct (pm_updateBalance_cases userId id amount operation w)
    as (w' & r & -> & He & Hc & _ & Hcase). simpl.
  split; [|split]; [by intros ? ? ?; rewrite He| |done].
  destruct Hcase as [(err & _ & ->)|(p0 & b & Hp0 & Hu & _ & Hw' & _)];
    [done|].
  intros p pm Hne. rewrite Hw'. simpl.
  refine (own_write_foreign false userId _ _ _ _ _ _ _ Hne); [done|eauto].
Qed.

Lemma updateBalance_expenses userId id amount operation w :
  expenseRepository
    (PaymentMethodsService.updateBalance userId id amount operation w).1
  = expenseRepository w.
Proof.
  destruct (PaymentMethodsService.updateBalance _ _ _ _ w) as [w' r] eqn:H.
  by apply updateBalance_frame in H as (? & _).
Qed.

Lemma bind_own {A B} userId (m : M A) (f : A → M B) w :
  writes_own_rows userId w (m w).1 →
  (∀ a, (m w).2 = Ok a →
     writes_own_rows userId (m w).1 (f a (m w).1).1) →
  writes_own_rows userId w ((m ≫= f) w).1.
Proof.
  unfold mbind, M_bind. destruct (m w) as [w1 [a|err]]; simpl; [|done].
  intros H1 H2. eapply own_trans; [exact H1|]. by apply H2.
Qed.

Lemma own_invalidate_ret {A} userId (a : A) w :
  writes_own_rows userId w
    ((ExpensesService.invalidateCache userId;; mret a) w).1.
Proof. unfold ExpensesService.invalidateCache. munfold. apply own_cache. Qed.

Lemma own_create_tail userId newId row w :
  Expense.userId row = userId →
  writes_own_rows userId w
    ((saved ← ExpensesService.insert newId row;
      PaymentMethodsService.updateBalance userId
        (Expense.paymentMethodId row) (Expense.amount row) subtract;;
      ExpensesService.invalidateCache userId;;
      mret saved) w).1.
Proof.
  intros Hrow. apply bind_own.
  - destruct (ex_insert_cases newId row w)
      as [[err ->]|(amount & _ & Hn & ->)]; simpl; [apply own_refl|].
    apply own_save_expense; eauto.
  - intros saved _. apply bind_own; [apply own_updateBalance|].
    intros _ _. apply own_invalidate_ret.
Qed.

Lemma check_world {A} (b : bool) (m : M A) w :
  (m w).1 = w → ((if b then m;; mret tt else mret tt) w).1 = w.
Proof. destruct b; [|done]. by rewrite exec_then_ret_world. Qed.

Lemma lift_result_world {A} (r : result A) w : (lift_result r w).1 = w.
Proof. unfold lift_result. by destruct r. Qed.

Lemma delete_check_world (b : bool) (r : result unit) w :
  ((if b then lift_result r else mret tt) w).1 = w.
Proof. destruct b; [apply lift_result_world|done]. Qed.

Lemma ledger_op_own op w :
  writes_own_rows (ledger_op_user op) w (run_ledger_op storageService w op).
Proof.
  unfold run_ledger_op.
  destruct op as [u dto n|u data n|u data n|u id dto|u id];
    cbn [exec_ledger_op ledger_op_user]; rewrite ?exec_then_ret_world.
  - unfold ExpensesService.create.
    apply bind_own; rewrite cat_findOne_world; [apply own_refl|]. intros _ _.
    apply bind_own; rewrite pm_findOne_world; [apply own_refl|]. intros _ _.
    by apply (own_create_tail u n (Expense.mk _ _ _ _ _ _ _ _ _ _ _ _ _ _)).
  - unfold ExpensesService.createFromOcr.
    apply bind_own; rewrite cat_findOne_world; [apply own_refl|]. intros _ _.
    apply bind_own; rewrite pm_findOne_world; [apply own_refl|]. intros _ _.
    apply bind_own; rewrite lift_result_world; [apply own_refl|].
    intros up _.
    by apply (own_create_tail u n (Expense.mk _ _ _ _ _ _ _ _ _ _ _ _ _ _)).
  - unfold ExpensesService.createFromVoice.
    apply bind_own; rewrite cat_findOne_world; [apply own_refl|]. intros _ _.
    apply bind_own; rewrite pm_findOne_world; [apply own_refl|]. intros _ _.
    set (upload := match VoiceExpenseData.audioFile data with
                   | Some _ => _ | None => _ end).
    assert (Hup : (upload w).1 = w).
    { subst upload. destruct (VoiceExpenseData.audioFile data); [|done].
      unfold mbind, M_bind.
      pose proof (lift_result_world
        (StorageService.uploadVoiceRecording storageService m u) w) as Hl.
      destruct (lift_result _ w) as [w1 [x|err]]; simpl in *; by subst. }
    apply bind_own; rewrite Hup; [apply own_refl|]. intros up _.
    by apply (own_create_tail u n (Expense.mk _ _ _ _ _ _ _ _ _ _ _ _ _ _)).
  - unfold ExpensesService.update.
    unfold mbind at 1, M_bind at 1.
    destruct (ex_findOne_cases u id w) as [(e & He & Hue & ->)|[err ->]];
      [|apply own_refl].
    cbn [fst snd].
    apply bind_own;
      rewrite (check_world _ _ w (cat_findOne_world _ _ _));
      [apply own_refl|]. intros _ _.
    apply bind_own;
      rewrite (check_world _ _ w (pm_findOne_world _ _ _));
      [apply own_refl|]. intros _ _.
    apply bind_own.
    { destruct (ex_save_cases id (ExpensesService.assignDto dto e) e w He)
        as [[err ->]|(amount & _ & ->)]; simpl; [apply own_refl|].
      apply own_save_expense; [done|eauto]. }
    intros updated _. apply bind_own.
    { destruct (_ || _); [|apply own_refl].
      apply bind_own; [apply own_updateBalance|]. intros _ _.
      apply bind_own; [apply own_updateBalance|]. intros _ _.
      apply own_refl. }
    intros _ _. apply own_invalidate_ret.
  - unfold ExpensesService.remove.
    unfold mbind at 1, M_bind at 1.
    destruct (ex_findOne_cases u id w) as [(e & He & Hue & ->)|[err ->]];
      [|apply own_refl].
    cbn [fst snd].
    apply bind_own; [apply own_updateBalance|]. intros _ _.
    set (w1 := (PaymentMethodsService.updateBalance _ _ _ _ w).1).
    assert (He1 : expenseRepository w1 !! id = Some e)
      by (subst w1; by rewrite updateBalance_expenses).
    clearbody w1.
    apply bind_own; rewrite delete_check_world; [apply own_refl|].
    intros _ _.
    apply bind_own; rewrite delete_check_world; [apply own_refl|].
    intros _ _.
    apply bind_own.
    { unfold modify_world. simpl. by eapply own_delete_expense. }
    intros _ _. unfold ExpensesService.invalidateCache. munfold.
    apply own_cache.
Qed.

(** X7.  Whatever ledger requests (create, createFromOcr,
    createFromVoice, update, remove; failed ones included, and whatever
    the object store answers) the other users send, the expenses and
    the payment methods of a user, balances included, are exactly what
    they were; and no ledger request changes a category. *)
Theorem ledger_requests_keep_foreign_rows
    (ops : list LedgerOp) (w : World) (userId : string) :
  Forall (λ op, ledger_op_user op ≠ userId) ops →
  (∀ id e, Expense.userId e = userId →
     (expenseRepository (run_ledger storageService ops w) !! id = Some e
      ↔ expenseRepository w !! id = Some e))
  ∧ (∀ p pm, PaymentMethod.userId pm = userId →
       (paymentMethodRepository (run_ledger storageService ops w) !! p
        = Some pm
        ↔ paymentMethodRepository w !! p = Some pm))
  ∧ categoryRepository (run_ledger storageService ops w)
    = categoryRepository w.
Proof.
  revert w. induction ops as [|op ops IH]; intros w Hall; [done|].
  inversion Hall as [|? ? Hop Hops]; subst.
  destruct (IH (run_ledger_op storageService w op) Hops) as (He & Hp & Hc).
  destruct (ledger_op_own op w) as (He1 & Hp1 & Hc1).
  unfold run_ledger in *. simpl. split; [|split].
  - intros id e Hu. rewrite (He id e Hu). apply He1. congruence.
  - intros p pm Hu. rewrite (Hp p pm Hu). apply Hp1. congruence.
  - congruence.
Qed.

End LedgerIsolation.

Lemma ledger_requests_keep_foreign_rows_witness :
  Forall (λ op, ledger_op_user op ≠ "user-1") example_intruder_ops
  ∧ expenseRepository
      (run_ledger example_storage_up example_intruder_ops
         example_months_world) !! "exp-1"
    = Some (example_expense_on (mkDate 2024 10 31) (Qc_of_Z 40))
  ∧ paymentMethodRepository
      (run_ledger example_storage_up example_intruder_ops
         example_months_world) !! "pm-cash"
    = Some (example_method "Cash" "user-1" (Qc_of_Z 10) true false).
Proof.
  assert (Hall : Forall (λ op, ledger_op_user op ≠ "user-1")
                   example_intruder_ops)
    by (repeat constructor; discriminate).
  split; [exact Hall|].
  destruct (ledger_requests_keep_foreign_rows example_storage_up
              example_intruder_ops example_months_world "user-1" Hall)
    as (He & Hp & _).
  split; [by apply He|by apply Hp].
Defined.

(** ** Deleting a manual expense undoes its creation *)

Section LedgerRoundTrip.

Context (storageService : StorageService.t).
Implicit Types (w : World).

(** What a successful [create] has done: the expense is stored with its
    amount as the column holds it, and the method with the balance that
    its column holds after the debit of the amount of the DTO. *)
Lemma create_Ok userId dto newId w w1 e :
  ExpensesService.create userId dto newId w = (w1, Ok e) →
  ∃ pm amount balance,
    paymentMethodRepository w
      !! CreateExpenseDto.paymentMethodId dto = Some pm
    ∧ PaymentMethod.userId pm = userId
    ∧ expenseRepository w !! newId = None
    ∧ e.1 = newId
    ∧ Expense.userId e.2 = userId
    ∧ Expense.amount e.2 = CreateExpenseDto.amount dto
    ∧ Expense.paymentMethodId e.2 = CreateExpenseDto.paymentMethodId dto
    ∧ Expense.receiptS3Key e.2 = None
    ∧ Expense.voiceAudioS3Key e.2 = None
    ∧ toDecimal (CreateExpenseDto.amount dto) = Ok amount
    ∧ storedDecimal (Some (PaymentMethod.balance pm))
        (PaymentMethod.balance pm - CreateExpenseDto.amount dto)%Qc
      = Ok balance
    ∧ w1 = set_cacheManager (delete ("expenses:summary:" +:+ userId))
             (set_paymentMethodRepository
                (<[CreateExpenseDto.paymentMethodId dto
                   := PaymentMethod.set_balance balance pm]>)
                (set_expenseRepository
                   (<[newId := Expense.set_amount amount e.2]>) w)).
Proof.
  unfold ExpensesService.create. intros H.
  apply bind_Ok in H as (w0 & c & Hc & H). apply cat_findOne_Ok in Hc as ->.
  apply bind_Ok in H as (w0 & p & Hp & H).
  apply pm_findOne_Ok in Hp as (-> & Hid & Hpm & Hu).
  destruct p as [pid pm]. simpl in Hid, Hpm, Hu. subst pid.
  apply bind_Ok in H as (w2 & saved & Hins & H).
  destruct (ex_insert_cases newId
              (Expense.mk
                 (CreateExpenseDto.amount dto)
                 (CreateExpenseDto.description dto)
                 (CreateExpenseDto.notes dto) (CreateExpenseDto.date dto)
                 MANUAL None None None None None None
                 userId (CreateExpenseDto.categoryId dto)
                 (CreateExpenseDto.paymentMethodId dto)) w)
    as [[err Hi]|(amount & Ha & Hnew & Hi)];
    rewrite Hi in Hins; [done|].
  injection Hins as <- <-.
  apply bind_Ok in H as (w3 & b & Hbal & H).
  destruct (pm_updateBalance_cases userId
              (CreateExpenseDto.paymentMethodId dto)
              (CreateExpenseDto.amount dto) subtract
              (set_expenseRepository
                 (<[newId := Expense.set_amount amount
                      (Expense.mk
                         (CreateExpenseDto.amount dto)
                         (CreateExpenseDto.description dto)
                         (CreateExpenseDto.notes dto)
                         (CreateExpenseDto.date dto)
                         MANUAL None None None None None None
                         userId (CreateExpenseDto.categoryId dto)
                         (CreateExpenseDto.paymentMethodId dto))]>) w))
    as (w3' & r & Hrun & _ & _ & _ & Hcase).
  rewrite Hbal in Hrun. injection Hrun as <- <-.
  destruct Hcase as [(err & ? & _)|(p0 & balance & Hp0 & _ & Hb & -> & _)];
    [done|].
  simpl in Hp0. rewrite Hpm in Hp0. injection Hp0 as <-.
  apply bind_Ok in H as (w4 & [] & Hinv & H).
  apply ret_Ok in H as [-> ->].
  unfold ExpensesService.invalidateCache in Hinv. munfold.
  injection Hinv as <-.
  exists pm, amount, balance. by repeat split.
Qed.

(** X8.  An expense that [create] returned, with an amount that its
    decimal(15,2) column stores as it is and charged to a method whose
    balance is such a number too, can be deleted by its owner whatever
    the object store does (a manual expense has no file attached), and
    the deletion restores the expenses and every payment method, the
    debited balance included, to what they were before the creation.
    (An amount with more decimals is debited as it is and credited as
    it was rounded.) *)
Theorem create_then_remove_restores
    (userId : string) (dto : CreateExpenseDto.t) (newId : string)
    (w w1 : World) (e : Entity Expense.t) (pm : PaymentMethod.t) :
  ExpensesService.create userId dto newId w = (w1, Ok e) →
  paymentMethodRepository w !! CreateExpenseDto.paymentMethodId dto
  = Some pm →
  is_decimal (CreateExpenseDto.amount dto) →
  is_decimal (PaymentMethod.balance pm) →
  ∃ w2,
    ExpensesService.remove storageService userId e.1 w1 = (w2, Ok tt)
    ∧ expenseRepository w2 = expenseRepository w
    ∧ paymentMethodRepository w2 = paymentMethodRepository w
    ∧ categoryRepository w2 = categoryRepository w.
Proof.
  intros Hcreate Hpm0 Hamount Hbalance.
  apply create_Ok in Hcreate
    as (pm' & amount & balance & Hpm & Hu & Hnew & Hid & Hue & Ha & Hp & Hr
        & Hv & Hdec & Hb & ->).
  rewrite Hpm0 in Hpm. injection Hpm as <-.
  destruct e as [id row]. simpl in *. subst id.
  assert (amount = CreateExpenseDto.amount dto) as ->
    by (unfold is_decimal in Hamount; congruence).
  assert (balance
          = (PaymentMethod.balance pm - CreateExpenseDto.amount dto)%Qc)
    as ->.
  { unfold storedDecimal in Hb. case_bool_decide as Hsame.
    - by injection Hb as <-.
    - by apply is_decimal_minus in Hb. }
  set (pm' := PaymentMethod.set_balance _ pm).
  unfold ExpensesService.remove.
  unfold mbind at 1, M_bind at 1. unfold ExpensesService.findOne at 1.
  cbn [expenseRepository set_cacheManager set_paymentMethodRepository
       set_expenseRepository].
  rewrite lookup_insert_eq. cbn [Expense.userId Expense.set_amount].
  rewrite (proj2 (eqb_true _ _) Hue). cbn [fst snd].
  cbn [Expense.amount Expense.paymentMethodId Expense.receiptS3Key
       Expense.voiceAudioS3Key Expense.set_amount].
  unfold mbind at 1, M_bind at 1.
  rewrite (updateBalance_found userId _ _ add _ pm' (PaymentMethod.balance pm));
    [|by simpl; rewrite Hp, lookup_insert_eq|done|].
  2:{ subst pm'.
      cbn [PaymentMethod.balance PaymentMethod.set_balance Expense.amount
           Expense.set_amount].
      replace (PaymentMethod.balance pm - CreateExpenseDto.amount dto
               + CreateExpenseDto.amount dto)%Qc
        with (PaymentMethod.balance pm) by ring.
      clear Hb. unfold storedDecimal. case_bool_decide as Hsame.
      - by rewrite <- Hsame.
      - exact Hbalance. }
  rewrite Hr, Hv. unfold ExpensesService.invalidateCache. munfold.
  simpl. eexists. split; [done|]. simpl. split; [|split; [|done]].
  - by rewrite delete_insert_eq, delete_id.
  - rewrite Hp, insert_insert_eq. subst pm'.
    replace (PaymentMethod.set_balance (PaymentMethod.balance pm)
               (PaymentMethod.set_balance
                  (PaymentMethod.balance pm - CreateExpenseDto.amount dto)
                  pm)) with pm by (by destruct pm).
    by apply insert_id.
Qed.

End LedgerRoundTrip.

Lemma create_then_remove_restores_witness :
  ∃ w1 e w2,
    ExpensesService.create "user-1" (example_create_expense (Qc_of_Z 30))
      "exp-1" example_ledger_world = (w1, Ok e)
    ∧ is_decimal (Qc_of_Z 30)
    ∧ is_decimal (Qc_of_Z 100)
    ∧ ExpensesService.remove example_storage_down "user-1" e.1 w1
      = (w2, Ok tt)
    ∧ paymentMethodRepository w2
      = paymentMethodRepository example_ledger_world.
Proof.
  destruct (ExpensesService.create "user-1"
              (example_create_expense (Qc_of_Z 30)) "exp-1"
              example_ledger_world) as [w1 [e|err]] eqn:Hrun;
    [|vm_compute in Hrun; discriminate].
  assert (H30 : is_decimal (Qc_of_Z 30)).
  { vm_compute. refine (f_equal Ok _). apply Qc_is_canon. reflexivity. }
  assert (H100 : is_decimal (Qc_of_Z 100)).
  { vm_compute. refine (f_equal Ok _). apply Qc_is_canon. reflexivity. }
  destruct (create_then_remove_restores example_storage_down "user-1"
              (example_create_expense (Qc_of_Z 30)) "exp-1"
              example_ledger_world w1 e
              (example_method "Cash" "user-1" (Qc_of_Z 100) true false)
              Hrun eq_refl H30 H100)
    as (w2 & Hremove & _ & Hp & _).
  by exists w1, e, w2.
Defined.

(** With an amount of 10.005 the balance of 100.00 is debited to 89.995,
    stored as 90.00 (half a cent is rounded away from zero), and the
    deletion credits the stored amount 10.01: the balance ends at
    100.01. *)
Lemma rounded_amount_is_not_restored :
  ∃ w1 e w2,
    ExpensesService.create "user-1"
      (example_create_expense (Q2Qc (10005 # 1000))) "exp-1"
      example_ledger_world = (w1, Ok e)
    ∧ ExpensesService.remove example_storage_up "user-1" "exp-1" w1
      = (w2, Ok tt)
    ∧ expenseRepository w2 = ∅
    ∧ balance_at "pm-cash" example_ledger_world = Qc_of_Z 100
    ∧ balance_at "pm-cash" w1 = Q2Qc (9000 # 100)
    ∧ balance_at "pm-cash" w2 = Q2Qc (10001 # 100).
Proof.
  eexists _, _, _. split; [vm_compute; reflexivity|].
  split; [vm_compute; reflexivity|].
  split; [by_computation|].
  split; [by_computation|]. split; by_computation.
Qed.

(** ** The breakdowns of the summary add up *)

Section SortBy.

Context {A : Type} (leb : A → A → bool).

Lemma insert_sorted_perm (x : A) (l : list A) :
  insert_sorted leb x l ≡ₚ x :: l.
Proof.
  induction l as [|y l IH]; simpl; [done|].
  destruct (leb x y); [done|]. rewrite IH. apply Permutation_swap.
Qed.

Lemma sort_by_perm (l : list A) : sort_by leb l ≡ₚ l.
Proof.
  unfold sort_by. induction l as [|x l IH]; simpl; [done|].
  by rewrite insert_sorted_perm, IH.
Qed.

Lemma insert_sorted_HdRel (a x : A) (l : list A) :
  leb a x = true →
  HdRel (λ a b, leb a b = true) a l →
  HdRel (λ a b, leb a b = true) a (insert_sorted leb x l).
Proof.
  intros Hax Hl. destruct l as [|y l]; simpl; [by constructor|].
  destruct (leb x y); constructor; [done|]. by inversion Hl.
Qed.

Lemma insert_sorted_Sorted (x : A) (l : list A) :
  (∀ a b, leb a b = false → leb b a = true) →
  Sorted (λ a b, leb a b = true) l →
  Sorted (λ a b, leb a b = true) (insert_sorted leb x l).
Proof.
  intros Htotal. induction 1 as [|y l Hl IH Hy]; simpl.
  - repeat constructor.
  - destruct (leb x y) eqn:Hxy.
    + constructor; [by constructor|by constructor].
    + constructor; [done|]. apply insert_sorted_HdRel; [|done].
      by apply Htotal.
Qed.

Lemma sort_by_Sorted (l : list A) :
  (∀ a b, leb a b = false → leb b a = true) →
  Sorted (λ a b, leb a b = true) (sort_by leb l).
Proof.
  intros Htotal. unfold sort_by. induction l as [|x l IH]; simpl.
  - constructor.
  - by apply insert_sorted_Sorted.
Qed.

End SortBy.

Section GroupSums.

Context {A K M : Type} `{EqDecision K}.
Context (op : M → M → M) (e : M).
Context (op_assoc : ∀ a b c, op a (op b c) = op (op a b) c).
Context (op_comm : ∀ a b, op a b = op b a).
Context (op_left_id : ∀ a, op e a = a).
Context (f : A → K) (g : A → M).

Lemma sum_unselected (k0 : K) (c : M) (h : K → M) (ks : list K) :
  k0 ∉ ks →
  foldr op e ((λ k, if decide (k0 = k) then op c (h k) else h k) <$> ks)
  = foldr op e (h <$> ks).
Proof.
  induction ks as [|k ks IH]; csimpl; [done|]. intros Hnot.
  apply not_elem_of_cons in Hnot as [Hne Hnot].
  rewrite decide_False by done. by rewrite IH.
Qed.

Lemma sum_selected (k0 : K) (c : M) (h : K → M) (ks : list K) :
  NoDup ks → k0 ∈ ks →
  foldr op e ((λ k, if decide (k0 = k) then op c (h k) else h k) <$> ks)
  = op c (foldr op e (h <$> ks)).
Proof.
  induction 1 as [|k ks Hk Hks IH]; csimpl; intros Hin.
  - by apply elem_of_nil in Hin.
  - destruct (decide (k0 = k)) as [->|Hne].
    + rewrite sum_unselected by done. by rewrite op_assoc.
    + apply elem_of_cons in Hin as [?|Hin]; [done|].
      rewrite IH by done.
      by rewrite !op_assoc, (op_comm (h k) c).
Qed.

Lemma sum_of_units (ks : list K) :
  foldr op e ((λ _, e) <$> ks) = e.
Proof. induction ks as [|k ks IH]; csimpl; [done|]. by rewrite IH. Qed.

(** Summing group by group is summing the whole list. *)
Lemma group_sum (ks : list K) (l : list A) :
  NoDup ks → (∀ x, x ∈ l → f x ∈ ks) →
  foldr op e ((λ k, foldr op e (g <$> filter (λ x, f x = k) l)) <$> ks)
  = foldr op e (g <$> l).
Proof.
  intros Hks. induction l as [|x l IH]; intros Hl.
  - csimpl. apply sum_of_units.
  - rewrite (fmap_cons g). cbn [foldr].
    rewrite <- (IH (λ y Hy, Hl y (list_elem_of_further _ _ _ Hy))).
    rewrite <- (sum_selected (f x) (g x) _ ks Hks); [|apply Hl; by left].
    f_equal. apply list_fmap_ext. intros _ k _.
    rewrite filter_cons. by destruct (decide (f x = k)).
Qed.

End GroupSums.

Section Breakdowns.

Implicit Types (w : World) (expenses : list (Entity Expense.t)).

Lemma sum_Z_perm (l1 l2 : list Z) : l1 ≡ₚ l2 → sum_Z l1 = sum_Z l2.
Proof.
  unfold sum_Z. induction 1; simpl; lia.
Qed.

Lemma sum_Qc_perm (l1 l2 : list Qc) : l1 ≡ₚ l2 → sum_Qc l1 = sum_Qc l2.
Proof.
  unfold sum_Qc. induction 1 as [|x l1 l2 _ IH|x y l|l1 l2 l3 _ IH1 _ IH2];
    simpl; [done|by rewrite IH|ring|congruence].
Qed.

Lemma length_as_sum {A} (l : list A) :
  Z.of_nat (length l) = foldr Z.add 0%Z ((λ _, 1%Z) <$> l).
Proof.
  induction l as [|x l IH]; [done|].
  rewrite fmap_cons. cbn [foldr length]. rewrite <- IH. lia.
Qed.

Lemma finite_value_SUM (l : list Qc) :
  finite_value (parseFloat (SUM l)) = foldr Qcplus 0%Qc l.
Proof. by destruct l. Qed.

Lemma groups_perm (joinedId : Expense.t → option string) expenses :
  groupByJoined joinedId expenses
  ≡ₚ (λ k,
        mkRawGroup k
          (length (filter (λ e, joinedId e.2 = k) expenses))
          (SUM ((λ e, Expense.amount e.2)
                  <$> filter (λ e, joinedId e.2 = k) expenses)))
     <$> remove_dups ((λ e, joinedId e.2) <$> expenses).
Proof. unfold groupByJoined. apply sort_by_perm. Qed.

Lemma keys_cover (joinedId : Expense.t → option string) expenses :
  ∀ x, x ∈ expenses →
    joinedId x.2 ∈ remove_dups ((λ e, joinedId e.2) <$> expenses).
Proof.
  intros x Hx. apply elem_of_remove_dups.
  apply list_elem_of_fmap. by exists x.
Qed.

Lemma groups_count_sum (joinedId : Expense.t → option string) expenses :
  sum_Z ((λ g, Z.of_nat (groupCount g)) <$> groupByJoined joinedId expenses)
  = Z.of_nat (length expenses).
Proof.
  rewrite (sum_Z_perm _ _ (fmap_Permutation _ _ _ (groups_perm _ _))).
  rewrite <- list_fmap_compose. unfold compose. simpl.
  rewrite length_as_sum.
  rewrite <- (group_sum Z.add 0%Z
                Z.add_assoc Z.add_comm Z.add_0_l
                (λ e : Entity Expense.t, joinedId e.2) (λ _, 1%Z)
                (remove_dups ((λ e, joinedId e.2) <$> expenses)) expenses
                (NoDup_remove_dups _) (keys_cover _ _)).
  unfold sum_Z. f_equal. apply list_fmap_ext. intros _ k _.
  apply length_as_sum.
Qed.

Lemma groups_total_sum (joinedId : Expense.t → option string) expenses :
  sum_Qc ((λ g, finite_value (parseFloat (groupTotal g)))
            <$> groupByJoined joinedId expenses)
  = foldr Qcplus 0%Qc (ExpensesService.amounts expenses).
Proof.
  rewrite (sum_Qc_perm _ _ (fmap_Permutation _ _ _ (groups_perm _ _))).
  rewrite <- list_fmap_compose. unfold compose. simpl.
  unfold ExpensesService.amounts.
  etrans;
    [|exact (group_sum Qcplus 0%Qc
               Qcplus_assoc Qcplus_comm Qcplus_0_l
               (λ e : Entity Expense.t, joinedId e.2)
               (λ e, Expense.amount e.2)
               (remove_dups ((λ e, joinedId e.2) <$> expenses)) expenses
               (NoDup_remove_dups _) (keys_cover _ _))].
  unfold sum_Qc. f_equal. apply list_fmap_ext. intros _ k _.
  apply finite_value_SUM.
Qed.

(** Every group has a member, so that its [SUM] is not [NULL]. *)
Lemma groups_nonempty (joinedId : Expense.t → option string) expenses :
  Forall (λ g, (0 < groupCount g)%nat ∧ ∃ q, groupTotal g = Some q)
    (groupByJoined joinedId expenses).
Proof.
  rewrite groups_perm. apply Forall_fmap, list.Forall_forall.
  intros k Hk. rewrite elem_of_remove_dups in Hk.
  apply list_elem_of_fmap in Hk as (x & -> & Hx). simpl.
  assert (Hin : x ∈ filter (λ e, joinedId e.2 = joinedId x.2) expenses)
    by (by apply list_elem_of_filter).
  destruct (filter _ expenses) as [|y members]; [by apply elem_of_nil in Hin|].
  simpl. split; [lia|eauto].
Qed.


(** X9.  In the summary that [getSummary] computes, the counts of the
    category breakdown, and those of the payment-method breakdown, add
    up to [totalExpenses]; every breakdown total is a finite number and
    the totals of each breakdown add up to [totalAmount]; and no entry
    is empty.  (Expenses whose category or payment method is not stored
    form one entry of their own.) *)
Theorem summary_breakdowns_add_up (now : Date) (userId : string) (w : World) :
  let s := ExpensesService.computeSummary now userId w in
  sum_Z (CategoryBreakdown.count <$> ExpenseSummaryDto.byCategory s)
  = ExpenseSummaryDto.totalExpenses s
  ∧ sum_Z (PaymentMethodBreakdown.count
             <$> ExpenseSummaryDto.byPaymentMethod s)
    = ExpenseSummaryDto.totalExpenses s
  ∧ Fin (sum_Qc ((λ b, finite_value (CategoryBreakdown.total b))
                   <$> ExpenseSummaryDto.byCategory s))
    = ExpenseSummaryDto.totalAmount s
  ∧ Fin (sum_Qc ((λ b, finite_value (PaymentMethodBreakdown.total b))
                   <$> ExpenseSummaryDto.byPaymentMethod s))
    = ExpenseSummaryDto.totalAmount s
  ∧ Forall (λ b, (0 < CategoryBreakdown.count b)%Z
                 ∧ ∃ q, CategoryBreakdown.total b = Fin q)
      (ExpenseSummaryDto.byCategory s)
  ∧ Forall (λ b, (0 < PaymentMethodBreakdown.count b)%Z
                 ∧ ∃ q, PaymentMethodBreakdown.total b = Fin q)
      (ExpenseSummaryDto.byPaymentMethod s).
Proof.
  intros s. subst s. unfold ExpensesService.computeSummary.
  cbn [ExpenseSummaryDto.byCategory ExpenseSummaryDto.byPaymentMethod
       ExpenseSummaryDto.totalExpenses ExpenseSummaryDto.totalAmount].
  rewrite <- !list_fmap_compose. unfold compose.
  cbn [CategoryBreakdown.count CategoryBreakdown.total
       PaymentMethodBreakdown.count PaymentMethodBreakdown.total].
  rewrite !groups_count_sum, !groups_total_sum, or_zero_parseFloat_SUM.
  repeat split; try done.
  - apply Forall_fmap.
    eapply list.Forall_impl; [apply groups_nonempty|].
    intros g [Hcount [q Hq]]. simpl. rewrite Hq. split; [lia|by exists q].
  - apply Forall_fmap.
    eapply list.Forall_impl; [apply groups_nonempty|].
    intros g [Hcount [q Hq]]. simpl. rewrite Hq. split; [lia|by exists q].
Qed.


Lemma sum_Qc_scale {A} (f : A → Qc) (c : Qc) (l : list A) :
  sum_Qc ((λ x, f x * c)%Qc <$> l) = (sum_Qc (f <$> l) * c)%Qc.
Proof.
  unfold sum_Qc. induction l as [|x l IH]; csimpl; [ring|].
  rewrite IH. ring.
Qed.

Lemma percentage_value (raw : option Qc) (total : Qc) :
  total ≠ 0%Qc →
  finite_value
    (number_mul (number_div (parseFloat raw) (Fin total)) (Fin (Qc_of_Z 100)))
  = (finite_value (parseFloat raw) * (/ total * Qc_of_Z 100))%Qc.
Proof.
  intros Hne. destruct raw as [q|]; simpl; [|ring].
  unfold Qc_zero. rewrite bool_decide_eq_false_2 by done. simpl.
  unfold Qcdiv. ring.
Qed.

Lemma percentage_finite (q total : Qc) :
  total ≠ 0%Qc →
  number_mul (number_div (Fin q) (Fin total)) (Fin (Qc_of_Z 100))
  = Fin (q / total * Qc_of_Z 100)%Qc.
Proof.
  intros Hne. simpl. unfold Qc_zero. by rewrite bool_decide_eq_false_2.
Qed.

Lemma groups_percentage_sum (joinedId : Expense.t → option string) expenses :
  let total := foldr Qcplus 0%Qc (ExpensesService.amounts expenses) in
  total ≠ 0%Qc →
  sum_Qc ((λ g, finite_value
                  (number_mul
                     (number_div (parseFloat (groupTotal g)) (Fin total))
                     (Fin (Qc_of_Z 100))))
            <$> groupByJoined joinedId expenses)
  = Qc_of_Z 100.
Proof.
  intros total Hne.
  rewrite (list_fmap_ext _
             (λ g, finite_value (parseFloat (groupTotal g))
                   * (/ total * Qc_of_Z 100))%Qc
             (groupByJoined joinedId expenses));
    [|intros _ g _; by apply percentage_value].
  rewrite sum_Qc_scale, groups_total_sum. fold total. by field.
Qed.

(** X17.  When [totalAmount] of the summary is not 0, every percentage
    of the two breakdowns is a finite number, and the percentages of
    each breakdown add up to 100. *)
Theorem summary_percentages_add_up
    (now : Date) (userId : string) (w : World) :
  let s := ExpensesService.computeSummary now userId w in
  ExpenseSummaryDto.totalAmount s ≠ Fin 0 →
  sum_Qc ((λ b, finite_value (CategoryBreakdown.percentage b))
            <$> ExpenseSummaryDto.byCategory s) = Qc_of_Z 100
  ∧ sum_Qc ((λ b, finite_value (PaymentMethodBreakdown.percentage b))
              <$> ExpenseSummaryDto.byPaymentMethod s) = Qc_of_Z 100
  ∧ Forall (λ b, ∃ q, CategoryBreakdown.percentage b = Fin q)
      (ExpenseSummaryDto.byCategory s)
  ∧ Forall (λ b, ∃ q, PaymentMethodBreakdown.percentage b = Fin q)
      (ExpenseSummaryDto.byPaymentMethod s).
Proof.
  intros s. subst s. unfold ExpensesService.computeSummary.
  cbn [ExpenseSummaryDto.byCategory ExpenseSummaryDto.byPaymentMethod
       ExpenseSummaryDto.totalAmount].
  rewrite !or_zero_parseFloat_SUM. intros Hne.
  assert (Htotal : foldr Qcplus 0%Qc
                     (ExpensesService.amounts
                        (ExpensesService.expensesOf userId w)) ≠ 0%Qc)
    by congruence.
  rewrite <- !list_fmap_compose. unfold compose.
  cbn [CategoryBreakdown.percentage PaymentMethodBreakdown.percentage].
  split; [by apply groups_percentage_sum|].
  split; [by apply groups_percentage_sum|].
  split.
  - apply Forall_fmap.
    eapply list.Forall_impl; [apply groups_nonempty|].
    intros g [_ [q Hq]]. unfold compose.
    cbn [CategoryBreakdown.percentage PaymentMethodBreakdown.percentage].
    rewrite Hq. unfold parseFloat.
    rewrite (percentage_finite q _ Htotal). eauto.
  - apply Forall_fmap.
    eapply list.Forall_impl; [apply groups_nonempty|].
    intros g [_ [q Hq]]. unfold compose.
    cbn [CategoryBreakdown.percentage PaymentMethodBreakdown.percentage].
    rewrite Hq. unfold parseFloat.
    rewrite (percentage_finite q _ Htotal). eauto.
Qed.

Lemma summary_percentages_add_up_witness :
  ExpenseSummaryDto.totalAmount
    (ExpensesService.computeSummary example_date "user-1"
       example_months_world) ≠ Fin 0
  ∧ sum_Qc ((λ b, finite_value (CategoryBreakdown.percentage b))
              <$> ExpenseSummaryDto.byCategory
                    (ExpensesService.computeSummary example_date "user-1"
                       example_months_world)) = Qc_of_Z 100.
Proof.
  assert (Hne : ExpenseSummaryDto.totalAmount
                  (ExpensesService.computeSummary example_date "user-1"
                     example_months_world) ≠ Fin 0)
    by by_computation.
  split; [exact Hne|].
  exact (proj1 (summary_percentages_add_up example_date "user-1"
                  example_months_world Hne)).
Defined.

End Breakdowns.

(** ** The two month windows of the summary *)

Section MonthWindows.

Implicit Types (w : World) (d x : Date).

Lemma date_leb_spec (a b : Date) :
  date_leb a b = true
  ↔ (year a < year b
     ∨ (year a = year b
        ∧ (month a < month b ∨ (month a = month b ∧ day a ≤ day b))))%Z.
Proof.
  unfold date_leb.
  rewrite orb_true_iff, andb_true_iff, orb_true_iff, andb_true_iff.
  rewrite !Z.ltb_lt, !Z.eqb_eq, Z.leb_le. done.
Qed.

(** The window of the month of [d] holds the dates of that month. *)
Lemma between_month x d :
  date_between x (startOfMonth d) (endOfMonth d) = true
  ↔ (year x = year d ∧ month x = month d
     ∧ 1 ≤ day x ≤ getDaysInMonth (year d) (month d))%Z.
Proof.
  unfold date_between. rewrite andb_true_iff, !date_leb_spec.
  unfold startOfMonth, endOfMonth. simpl. lia.
Qed.

Lemma subMonths_one d :
  (1 ≤ month d ≤ 12)%Z →
  (year (subMonths d 1) * 12 + month (subMonths d 1)
   = year d * 12 + month d - 1
   ∧ 1 ≤ month (subMonths d 1) ≤ 12)%Z.
Proof.
  intros Hm. unfold subMonths. simpl.
  pose proof (Z.div_mod (year d * 12 + (month d - 1) - 1) 12 ltac:(lia)).
  pose proof (Z.mod_pos_bound (year d * 12 + (month d - 1) - 1) 12
                ltac:(lia)).
  lia.
Qed.

(** X11.  With [now] in a month from 1 to 12, the current-month window
    of [getSummary] selects exactly the owner's expenses dated in the
    calendar month of [now], the last-month window exactly those dated
    in the calendar month before it, and no expense is in both. *)
Theorem month_windows_partition
    (now : Date) (userId : string) (w : World) (e : Entity Expense.t) :
  (1 ≤ month now ≤ 12)%Z →
  let expenses := ExpensesService.expensesOf userId w in
  let current :=
    ExpensesService.inWindow (startOfMonth now) (endOfMonth now) expenses in
  let last :=
    ExpensesService.inWindow (startOfMonth (subMonths now 1))
      (endOfMonth (subMonths now 1)) expenses in
  (e ∈ current
   ↔ e ∈ expenses
     ∧ year (Expense.date e.2) = year now
     ∧ month (Expense.date e.2) = month now
     ∧ (1 ≤ day (Expense.date e.2)
        ≤ getDaysInMonth (year now) (month now))%Z)
  ∧ (e ∈ last
     ↔ e ∈ expenses
       ∧ (1 ≤ month (Expense.date e.2) ≤ 12)%Z
       ∧ (year (Expense.date e.2) * 12 + month (Expense.date e.2)
          = year now * 12 + month now - 1)%Z
       ∧ (1 ≤ day (Expense.date e.2)
          ≤ getDaysInMonth (year (Expense.date e.2))
              (month (Expense.date e.2)))%Z)
  ∧ ¬ (e ∈ current ∧ e ∈ last).
Proof.
  intros Hm expenses current last.
  destruct (subMonths_one now Hm) as [Hprev Hprevm].
  assert (Hcur : e ∈ current
    ↔ e ∈ expenses
      ∧ year (Expense.date e.2) = year now
      ∧ month (Expense.date e.2) = month now
      ∧ (1 ≤ day (Expense.date e.2)
         ≤ getDaysInMonth (year now) (month now))%Z).
  { subst current. unfold ExpensesService.inWindow.
    rewrite list_elem_of_filter, between_month. tauto. }
  assert (Hlast : e ∈ last
    ↔ e ∈ expenses
      ∧ year (Expense.date e.2) = year (subMonths now 1)
      ∧ month (Expense.date e.2) = month (subMonths now 1)
      ∧ (1 ≤ day (Expense.date e.2)
         ≤ getDaysInMonth (year (subMonths now 1))
             (month (subMonths now 1)))%Z).
  { subst last. unfold ExpensesService.inWindow.
    rewrite list_elem_of_filter, between_month. tauto. }
  split; [exact Hcur|]. split.
  - rewrite Hlast. split.
    + intros (Hin & Hy & Hmo & Hd). rewrite Hy, Hmo. by repeat split; try lia.
    + intros (Hin & Hmx & Hym & Hd).
      assert (year (Expense.date e.2) = year (subMonths now 1)
              ∧ month (Expense.date e.2) = month (subMonths now 1))
        as [Hy Hmo] by lia.
      rewrite <- Hy, <- Hmo. done.
  - rewrite Hcur, Hlast. intros [(_ & Hy & Hmo & _) (_ & Hy' & Hmo' & _)].
    lia.
Qed.

Lemma month_windows_partition_witness :
  (1 ≤ month example_date ≤ 12)%Z
  ∧ ("exp-1", example_expense_on (mkDate 2024 10 31) (Qc_of_Z 40))
    ∈ ExpensesService.inWindow (startOfMonth (subMonths example_date 1))
        (endOfMonth (subMonths example_date 1))
        (ExpensesService.expensesOf "user-1" example_months_world).
Proof.
  assert (Hm : (1 ≤ month example_date ≤ 12)%Z) by (simpl; lia).
  split; [exact Hm|].
  apply (proj1 (proj2 (month_windows_partition example_date "user-1"
                         example_months_world _ Hm))).
  split; [|by_computation].
  apply list_elem_of_filter. split; [done|].
  by apply elem_of_map_to_list.
Defined.

End MonthWindows.

(** * Categories *)

Section CategorySpecs.

Implicit Types (w : World) (c : Category.t).

Lemma cat_findByName_None name userId w id c :
  CategoriesService.findByName name userId w = None →
  categoryRepository w !! id = Some c →
  Category.userId c = Some userId →
  Category.name c ≠ name.
Proof.
  unfold CategoriesService.findByName. intros Hnone Hc Hu Hn.
  pose proof (findOneWhere_None _ _ id c Hnone Hc) as Hcond. simpl in Hcond.
  apply eqb_true in Hn. apply ownedBy_spec in Hu.
  by rewrite Hn, Hu in Hcond.
Qed.

Lemma cat_findByName_Some name userId w e :
  CategoriesService.findByName name userId w = Some e →
  categoryRepository w !! e.1 = Some e.2
  ∧ Category.name e.2 = name
  ∧ Category.userId e.2 = Some userId.
Proof.
  unfold CategoriesService.findByName. intros Hfind.
  apply findOneWhere_Some in Hfind as [Hrow Hcond]. simpl in Hcond.
  apply andb_true_iff in Hcond as [Hn Hu].
  apply eqb_true in Hn. by apply ownedBy_spec in Hu.
Qed.

(** The unique index lets a row through when no other row of its owner
    has its name. *)
Lemma violatesIndex_false id row w userId id' c' :
  CategoriesService.violatesIndex id row w = false →
  Category.userId row = Some userId →
  id' ≠ id →
  categoryRepository w !! id' = Some c' →
  Category.userId c' = Some userId →
  Category.name c' ≠ Category.name row.
Proof.
  unfold CategoriesService.violatesIndex. intros Hv Hrow Hne Hc' Hu' Hn.
  rewrite Hrow in Hv.
  destruct (findOneWhere _ _) eqn:Hfind; [done|].
  pose proof (findOneWhere_None _ _ id' c' Hfind Hc') as Hcond.
  simpl in Hcond.
  apply eqb_true in Hn. apply ownedBy_spec in Hu'. apply eqb_false in Hne.
  by rewrite Hn, Hu', Hne in Hcond.
Qed.

Lemma violatesIndex_fresh_name id row w userId :
  Category.userId row = Some userId →
  CategoriesService.findByName (Category.name row) userId w = None →
  CategoriesService.violatesIndex id row w = false.
Proof.
  unfold CategoriesService.violatesIndex. intros Hrow Hnone. rewrite Hrow.
  destruct (findOneWhere _ _) as [[id' c']|] eqn:Hfind; [exfalso|done].
  apply findOneWhere_Some in Hfind as [Hc' Hcond]. simpl in *.
  apply andb_true_iff in Hcond as [Hcond Hu].
  apply andb_true_iff in Hcond as [_ Hn].
  apply eqb_true in Hn. apply ownedBy_spec in Hu.
  by apply (cat_findByName_None _ _ _ _ _ Hnone Hc' Hu).
Qed.

Lemma cat_create_cases userId dto newId w :
  let row := Category.mk
               (CreateCategoryDto.name dto) (CreateCategoryDto.description dto)
               (CreateCategoryDto.icon dto) (CreateCategoryDto.color dto)
               false (default 0%Z (CreateCategoryDto.orderIndex dto))
               (Some userId) in
  ∃ w' r,
    CategoriesService.create userId dto newId w = (w', r)
    ∧ expenseRepository w' = expenseRepository w
    ∧ paymentMethodRepository w' = paymentMethodRepository w
    ∧ ((r = Throw CategoriesService.name_conflict ∧ w' = w
        ∧ is_Some (CategoriesService.findByName
                     (CreateCategoryDto.name dto) userId w))
       ∨ (r = Throw duplicate_key ∧ w' = w
          ∧ is_Some (categoryRepository w !! newId))
       ∨ (r = Ok (newId, row)
          ∧ CategoriesService.findByName
              (CreateCategoryDto.name dto) userId w = None
          ∧ categoryRepository w !! newId = None
          ∧ categoryRepository w' = <[newId := row]> (categoryRepository w)
          ∧ cacheManager w'
            = delete ("categories:" +:+ userId) (cacheManager w))).
Proof.
  intros row. unfold CategoriesService.create.
  unfold mbind at 1, M_bind at 1, get_world.
  destruct (CategoriesService.findByName _ _ _) as [e|] eqn:Hfind.
  { eexists _, _. split; [done|]. split; [done|]. split; [done|].
    left. eauto. }
  unfold mbind at 1, M_bind at 1. unfold CategoriesService.insert.
  fold row.
  destruct (categoryRepository w !! newId) as [x|] eqn:Hn.
  { eexists _, _. split; [done|]. split; [done|]. split; [done|].
    right. left. eauto. }
  rewrite (violatesIndex_fresh_name newId row w userId) by done.
  munfold. eexists _, _. split; [done|]. split; [done|]. split; [done|].
  right. right. done.
Qed.

Lemma assignDto_userId_category dto c :
  Category.userId (CategoriesService.assignDto dto c) = Category.userId c.
Proof. done. Qed.

Lemma cat_update_cases userId id dto w :
  ∃ w' r,
    CategoriesService.update userId id dto w = (w', r)
    ∧ expenseRepository w' = expenseRepository w
    ∧ paymentMethodRepository w' = paymentMethodRepository w
    ∧ ((∃ err, r = Throw err ∧ w' = w)
       ∨ (∃ c, categoryRepository w !! id = Some c
               ∧ Category.userId c = Some userId
               ∧ Category.isSystem c = false
               ∧ r = Ok (id, CategoriesService.assignDto dto c)
               ∧ CategoriesService.violatesIndex id
                   (CategoriesService.assignDto dto c) w = false
               ∧ categoryRepository w'
                 = <[id := CategoriesService.assignDto dto c]>
                     (categoryRepository w)
               ∧ cacheManager w'
                 = delete ("categories:" +:+ userId) (cacheManager w))).
Proof.
  unfold CategoriesService.update.
  unfold mbind at 1, M_bind at 1.
  rewrite cat_findOne_visible.
  destruct (categoryRepository w !! id) as [c|] eqn:Hc.
  2:{ eexists _, _. split; [done|]. split; [done|]. split; [done|].
      left. eauto. }
  destruct (visible userId w id).
  2:{ eexists _, _. split; [done|]. split; [done|]. split; [done|].
      left. eauto. }
  cbn [fst snd].
  destruct (Category.isSystem c) eqn:Hsys.
  { eexists _, _. split; [done|]. split; [done|]. split; [done|].
    left. eauto. }
  destruct (CategoriesService.ownedBy userId c) eqn:Hown; cbn [negb].
  2:{ eexists _, _. split; [done|]. split; [done|]. split; [done|].
      left. eauto. }
  apply ownedBy_spec in Hown.
  unfold mbind at 1, M_bind at 1, get_world.
  unfold mbind at 1, M_bind at 1.
  set (check := match UpdateCategoryDto.name dto with
                | Some _ => _ | None => _ end).
  assert (Hcheck : check w = (w, Ok tt) ∨ ∃ err, check w = (w, Throw err)).
  { subst check. destruct (UpdateCategoryDto.name dto) as [n|]; [|by left].
    destruct (string_truthy n && _); [|by left].
    destruct (CategoriesService.findByName n userId w);
      [right; eauto|by left]. }
  destruct Hcheck as [->|[err ->]].
  2:{ eexists _, _. split; [done|]. split; [done|]. split; [done|].
      left. eauto. }
  unfold mbind at 1, M_bind at 1. unfold CategoriesService.saveRenamed.
  cbn [fst snd].
  destruct (CategoriesService.violatesIndex id _ w) eqn:Hv.
  { eexists _, _. split; [done|]. split; [done|]. split; [done|].
    left. eauto. }
  munfold. eexists _, _. split; [done|]. split; [done|]. split; [done|].
  right. exists c. done.
Qed.

(** A predicate on worlds that the writes of [reorder] keep is kept by
    [reorder]. *)
Lemma reorder_from_invariant (P : World → Prop) userId :
  (∀ w id c i, categoryRepository w !! id = Some c →
     Category.userId c = Some userId →
     P w →
     P (set_categoryRepository (<[id := Category.set_orderIndex i c]>) w)) →
  ∀ ids k w, P w → P (CategoriesService.reorder_from userId k ids w).1.
Proof.
  intros Hstep. induction ids as [|id ids IH]; intros k w Hw; [done|].
  cbn [CategoriesService.reorder_from].
  unfold mbind at 1, M_bind at 1. rewrite cat_findOne_visible.
  destruct (categoryRepository w !! id) as [c|] eqn:Hc; [|done].
  destruct (visible userId w id); [|done]. cbn [fst snd].
  unfold mbind at 1, M_bind at 1.
  destruct (CategoriesService.ownedBy userId c) eqn:Hown.
  - unfold CategoriesService.save. munfold. cbn [fst snd].
    apply IH. apply Hstep; [done| |done]. by apply ownedBy_spec.
  - munfold. by apply IH.
Qed.

Lemma reorder_invariant (P : World → Prop) userId ids w :
  (∀ w id c i, categoryRepository w !! id = Some c →
     Category.userId c = Some userId →
     P w →
     P (set_categoryRepository (<[id := Category.set_orderIndex i c]>) w)) →
  (∀ w f, P w → P (set_cacheManager f w)) →
  P w → P (CategoriesService.reorder userId ids w).1.
Proof.
  intros Hstep Hcache Hw. unfold CategoriesService.reorder.
  pose proof (reorder_from_invariant P userId Hstep ids 0 w Hw) as H.
  unfold mbind, M_bind.
  destruct (CategoriesService.reorder_from userId 0 ids w) as [w1 [[]|err]];
    simpl in *; [|done].
  unfold cache_del, modify_world. simpl. by apply Hcache.
Qed.

End CategorySpecs.

(** ** Category requests write categories of their owner only *)

Section CategoryIsolation.

Implicit Types (w : World) (c : Category.t).

Lemma cat_own_write userId w k row :
  Category.userId row = Some userId →
  (categoryRepository w !! k = None
   ∨ ∃ c0, categoryRepository w !! k = Some c0
           ∧ Category.userId c0 = Some userId) →
  foreign_categories_kept userId w (set_categoryRepository (<[k := row]>) w).
Proof.
  intros Hrow Hk id c Hne. simpl.
  destruct (decide (k = id)) as [->|Hkid].
  - rewrite lookup_insert_eq. split.
    + intros [= <-]. done.
    + intros Hc. destruct Hk as [Hk|(c0 & Hk & Hu)]; congruence.
  - by rewrite lookup_insert_ne.
Qed.

Lemma foreign_categories_trans userId w1 w2 w3 :
  foreign_categories_kept userId w1 w2 →
  foreign_categories_kept userId w2 w3 →
  foreign_categories_kept userId w1 w3.
Proof. intros H1 H2 id c Hne. by rewrite (H2 id c Hne), (H1 id c Hne). Qed.

Lemma cat_request_foreign req w :
  foreign_categories_kept (cat_request_user req) w (exec_cat_request req w).1
  ∧ expenseRepository (exec_cat_request req w).1 = expenseRepository w
  ∧ paymentMethodRepository (exec_cat_request req w).1
    = paymentMethodRepository w.
Proof.
  destruct req as [u dto n|u id dto|u id|u ids]; simpl;
    rewrite ?exec_then_ret_world.
  - destruct (cat_create_cases u dto n w) as (w' & r & -> & He & Hp & Hcase).
    simpl. split; [|done].
    destruct Hcase as [(_ & -> & _)|[(_ & -> & _)|(_ & _ & Hn & Hw' & _)]];
      [done|done|].
    intros id c Hne. rewrite Hw'.
    refine (cat_own_write u w n _ _ _ id c Hne); [done|by left].
  - destruct (cat_update_cases u id dto w) as (w' & r & -> & He & Hp & Hcase).
    simpl. split; [|done].
    destruct Hcase as [(err & _ & ->)|(c0 & Hc0 & Hu & _ & _ & _ & Hw' & _)];
      [done|].
    intros id' c Hne. rewrite Hw'.
    refine (cat_own_write u w id _ _ _ id' c Hne); [done|eauto].
  - destruct (category_remove_always_throws u id w) as [e ->]. done.
  - apply (reorder_invariant
             (λ w', foreign_categories_kept u w w'
                    ∧ expenseRepository w' = expenseRepository w
                    ∧ paymentMethodRepository w' = paymentMethodRepository w)).
    + intros w' id c i Hc Hu (Hk & He & Hp). split; [|done].
      eapply foreign_categories_trans; [exact Hk|].
      apply cat_own_write; [done|eauto].
    + intros w' f (Hk & He & Hp). done.
    + done.
Qed.

(** X12.  Whatever category requests (create, update, remove, reorder;
    failed ones included) users send, a category that none of them owns
    is what it was: the system categories and the categories of other
    users are never changed, renamed, moved or deleted.  Expenses and
    payment methods are not touched at all. *)
Theorem category_requests_keep_foreign_categories
    (reqs : list CategoryRequest) (w : World) (id : string) (c : Category.t) :
  Forall (λ req, Category.userId c ≠ Some (cat_request_user req)) reqs →
  (categoryRepository (run_cat_requests reqs w) !! id = Some c
   ↔ categoryRepository w !! id = Some c)
  ∧ expenseRepository (run_cat_requests reqs w) = expenseRepository w
  ∧ paymentMethodRepository (run_cat_requests reqs w)
    = paymentMethodRepository w.
Proof.
  revert w. induction reqs as [|req reqs IH]; intros w Hall; [done|].
  inversion Hall as [|? ? Hreq Hreqs]; subst.
  destruct (IH (exec_cat_request req w).1 Hreqs) as (Hc & He & Hp).
  destruct (cat_request_foreign req w) as (Hc1 & He1 & Hp1).
  unfold run_cat_requests in *. simpl. split; [|split].
  - rewrite Hc. by apply Hc1.
  - congruence.
  - congruence.
Qed.

Lemma category_requests_keep_foreign_categories_witness :
  Forall (λ req, Category.userId (example_category "Comida" true 0 None)
                 ≠ Some (cat_request_user req)) example_category_requests
  ∧ categoryRepository
      (run_cat_requests example_category_requests example_categories_world)
    !! "cat-food" = Some (example_category "Comida" true 0 None).
Proof.
  assert (Hall : Forall (λ req,
                    Category.userId (example_category "Comida" true 0 None)
                    ≠ Some (cat_request_user req)) example_category_requests)
    by (repeat constructor; discriminate).
  split; [exact Hall|].
  apply (proj1 (category_requests_keep_foreign_categories
                  example_category_requests example_categories_world
                  "cat-food" _ Hall)).
  reflexivity.
Defined.

End CategoryIsolation.

(** ** Names of categories stay unique per owner *)

Section CategoryNames.

Implicit Types (w : World) (c : Category.t).

Lemma unique_category_write w k row userId :
  unique_category_names w →
  Category.userId row = Some userId →
  (∀ id c, id ≠ k → categoryRepository w !! id = Some c →
     Category.userId c = Some userId → Category.name c ≠ Category.name row) →
  unique_category_names (set_categoryRepository (<[k := row]>) w).
Proof.
  intros Hw Hrow Hfresh id1 id2 c1 c2 u H1 H2 Hu1 Hu2 Hn. simpl in H1, H2.
  destruct (decide (id1 = id2)) as [|Hne]; [done|exfalso].
  destruct (decide (k = id1)) as [->|Hk1].
  - rewrite lookup_insert_eq in H1. rewrite lookup_insert_ne in H2 by done.
    simplify_eq. by apply (Hfresh id2 c2).
  - rewrite lookup_insert_ne in H1 by done.
    destruct (decide (k = id2)) as [->|Hk2].
    + rewrite lookup_insert_eq in H2. simplify_eq.
      by apply (Hfresh id1 c1).
    + rewrite lookup_insert_ne in H2 by done.
      apply Hne. by apply (Hw id1 id2 c1 c2 u).
Qed.

Lemma cat_request_keeps_names req w :
  unique_category_names w →
  unique_category_names (exec_cat_request req w).1.
Proof.
  intros Hw. destruct req as [u dto n|u id dto|u id|u ids]; simpl;
    rewrite ?exec_then_ret_world.
  - destruct (cat_create_cases u dto n w) as (w' & r & -> & _ & _ & Hcase).
    simpl.
    destruct Hcase as [(_ & -> & _)|[(_ & -> & _)|(_ & Hf & Hn & Hw' & _)]];
      [done|done|].
    intros id1 id2 c1 c2 u'. rewrite Hw'.
    refine (unique_category_write w n _ u Hw _ _ id1 id2 c1 c2 u'); [done|].
    intros id c _ Hc Hu. by eapply cat_findByName_None.
  - destruct (cat_update_cases u id dto w) as (w' & r & -> & _ & _ & Hcase).
    simpl.
    destruct Hcase as [(err & _ & ->)|(c0 & Hc0 & Hu & _ & _ & Hv & Hw' & _)];
      [done|].
    intros id1 id2 c1 c2 u'. rewrite Hw'.
    refine (unique_category_write w id _ u Hw _ _ id1 id2 c1 c2 u'); [done|].
    intros id' c Hne Hc Huc.
    by apply (violatesIndex_false id _ w u id' c Hv).
  - destruct (category_remove_always_throws u id w) as [e ->]. done.
  - apply (reorder_invariant unique_category_names); [|done|done].
    intros w' id c i Hc Hu Hw'.
    apply (unique_category_write w' id _ u Hw'); [done|].
    intros id' c' Hne Hc' Hu' Hn. apply Hne.
    by apply (Hw' id' id c' c u).
Qed.

(** X13.  Per owner, the names of the categories stay pairwise
    different under every sequence of category requests: [create] and
    [update] ask for a name conflict first, and the unique index on
    (userId, name) refuses what the check of [update] lets through (a
    rename to the empty string). *)
Theorem category_names_stay_unique
    (reqs : list CategoryRequest) (w : World) :
  unique_category_names w →
  unique_category_names (run_cat_requests reqs w).
Proof.
  revert w. induction reqs as [|req reqs IH]; intros w Hw; [done|].
  simpl. apply IH. by apply cat_request_keeps_names.
Qed.

End CategoryNames.

Lemma category_names_stay_unique_witness :
  unique_category_names empty_world
  ∧ unique_category_names
      (run_cat_requests example_category_requests empty_world).
Proof.
  assert (Hw : unique_category_names empty_world).
  { intros id1 id2 c1 c2 u H1. simpl in H1. by rewrite lookup_empty in H1. }
  split; [exact Hw|].
  exact (category_names_stay_unique example_category_requests empty_world Hw).
Defined.

(** ** The list of categories *)

Section CategoryList.

Implicit Types (w : World) (c : Category.t).

Lemma category_leb_total (a b : Entity Category.t) :
  CategoriesService.category_leb a b = false →
  CategoriesService.category_leb b a = true.
Proof.
  unfold CategoriesService.category_leb.
  rewrite orb_false_iff, andb_false_iff, orb_true_iff, andb_true_iff.
  rewrite Z.ltb_ge, Z.ltb_lt, Z.eqb_neq, Z.eqb_eq.
  intros [Hge [Hne|Hname]]; [left; lia|].
  destruct (decide (Category.orderIndex a.2 = Category.orderIndex b.2))
    as [Heq|Hne]; [right|left; lia].
  split; [done|].
  destruct (String.leb_total (Category.name a.2) (Category.name b.2));
    congruence.
Qed.

Lemma category_leb_orderIndex (a b : Entity Category.t) :
  CategoriesService.category_leb a b = true →
  (Category.orderIndex a.2 ≤ Category.orderIndex b.2)%Z.
Proof.
  unfold CategoriesService.category_leb.
  rewrite orb_true_iff, andb_true_iff, Z.ltb_lt, Z.eqb_eq. lia.
Qed.

Lemma Sorted_weaken {A} (R1 R2 : A → A → Prop) (l : list A) :
  (∀ a b, R1 a b → R2 a b) → Sorted R1 l → Sorted R2 l.
Proof.
  intros HR. induction 1 as [|a l Hl IH Hd]; constructor; [done|].
  destruct Hd; constructor. by apply HR.
Qed.

Lemma findAll_miss userId w :
  cacheManager w !! ("categories:" +:+ userId) = None →
  let categories :=
    sort_by CategoriesService.category_leb
      (filter (λ r, CategoriesService.ownedBy userId r.2
                    || Category.isSystem r.2 = true)
         (rows (categoryRepository w))) in
  CategoriesService.findAll userId w
  = (set_cacheManager
       (<["categories:" +:+ userId := CachedCategories categories]>) w,
     Ok categories).
Proof.
  intros Hmiss. unfold CategoriesService.findAll. munfold.
  by rewrite Hmiss.
Qed.

Lemma findAll_miss_elem userId w :
  cacheManager w !! ("categories:" +:+ userId) = None →
  ∃ w' categories,
    CategoriesService.findAll userId w = (w', Ok categories)
    ∧ ∀ e, e ∈ categories
        ↔ categoryRepository w !! e.1 = Some e.2
          ∧ (Category.userId e.2 = Some userId
             ∨ Category.isSystem e.2 = true).
Proof.
  intros Hmiss. rewrite (findAll_miss userId w Hmiss).
  eexists _, _. split; [done|].
  intros e. rewrite sort_by_perm, list_elem_of_filter.
  unfold rows. rewrite elem_of_map_to_list'.
  rewrite orb_true_iff, ownedBy_spec. tauto.
Qed.

(** X14.  When the list of the user is not cached, [findAll] returns
    every stored category that the user owns and every system category,
    each once and nothing else, in ascending order of [orderIndex]; it
    writes no table, and the next [findAll] returns the same list from
    the cache. *)
Theorem findAll_lists_visible_categories (userId : string) (w : World) :
  cacheManager w !! ("categories:" +:+ userId) = None →
  ∃ w' categories,
    CategoriesService.findAll userId w = (w', Ok categories)
    ∧ (∀ e, e ∈ categories
         ↔ categoryRepository w !! e.1 = Some e.2
           ∧ (Category.userId e.2 = Some userId
              ∨ Category.isSystem e.2 = true))
    ∧ NoDup (fst <$> categories)
    ∧ Sorted (λ a b, (Category.orderIndex a.2 ≤ Category.orderIndex b.2)%Z)
        categories
    ∧ categoryRepository w' = categoryRepository w
    ∧ CategoriesService.findAll userId w' = (w', Ok categories).
Proof.
  intros Hmiss. rewrite (findAll_miss userId w Hmiss).
  eexists _, _. split; [done|]. split; [|split; [|split; [|split]]].
  - intros e. rewrite sort_by_perm, list_elem_of_filter.
    unfold rows. rewrite elem_of_map_to_list'.
    rewrite orb_true_iff, ownedBy_spec. tauto.
  - rewrite sort_by_perm.
    eapply sublist_NoDup; [apply (NoDup_fst_map_to_list (categoryRepository w))|].
    apply fmap_sublist, sublist_filter.
  - eapply Sorted_weaken; [apply category_leb_orderIndex|].
    apply sort_by_Sorted, category_leb_total.
  - done.
  - unfold CategoriesService.findAll. munfold. simpl.
    by rewrite lookup_insert_eq.
Qed.

Lemma findAll_lists_visible_categories_witness :
  ∃ w' categories,
    CategoriesService.findAll "user-1" example_categories_world
    = (w', Ok categories)
    ∧ ("cat-food", example_category "Comida" true 0 None) ∈ categories
    ∧ ("cat-other", example_category "Regalos" false 3 (Some "user-2"))
      ∉ categories.
Proof.
  destruct (findAll_lists_visible_categories "user-1"
              example_categories_world eq_refl)
    as (w' & categories & Hrun & Hin & _).
  exists w', categories. split; [exact Hrun|]. split.
  - apply Hin. split; [reflexivity|by right].
  - intros Hc. apply Hin in Hc as [_ [Hu|Hs]]; discriminate.
Defined.

(** X15.  A category that [create] returns is stored under the
    generated id as a category of its owner that is not a system
    category; [findOne] returns it to the owner and answers NotFound to
    every other user; and the next [findAll] of the owner lists it (the
    cached list was evicted). *)
Theorem created_category_is_listed
    (userId : string) (dto : CreateCategoryDto.t) (newId : string)
    (w w' : World) (e : Entity Category.t) :
  CategoriesService.create userId dto newId w = (w', Ok e) →
  e.1 = newId
  ∧ Category.userId e.2 = Some userId
  ∧ Category.isSystem e.2 = false
  ∧ Category.name e.2 = CreateCategoryDto.name dto
  ∧ CategoriesService.findOne userId newId w' = (w', Ok e)
  ∧ (∀ other, other ≠ userId →
       CategoriesService.findOne other newId w'
       = (w', Throw CategoriesService.not_found))
  ∧ ∃ w'' categories,
      CategoriesService.findAll userId w' = (w'', Ok categories)
      ∧ e ∈ categories.
Proof.
  intros Hrun.
  destruct (cat_create_cases userId dto newId w)
    as (w1 & r & Hrun' & _ & _ & Hcase).
  rewrite Hrun in Hrun'. injection Hrun' as <- <-.
  destruct Hcase as [(? & _)|[(? & _)|(He & _ & Hfresh & Hw' & Hcache)]];
    [done|done|].
  injection He as ->. simpl.
  split; [done|]. split; [done|]. split; [done|]. split; [done|].
  split; [|split].
  - unfold CategoriesService.findOne. rewrite Hw', lookup_insert_eq.
    unfold CategoriesService.ownedBy. simpl.
    by rewrite bool_decide_eq_true_2.
  - intros other Hother.
    unfold CategoriesService.findOne. rewrite Hw', lookup_insert_eq.
    unfold CategoriesService.ownedBy. simpl.
    rewrite bool_decide_eq_false_2; [done|]. congruence.
  - assert (Hmiss : cacheManager w' !! ("categories:" +:+ userId) = None)
      by (by rewrite Hcache, lookup_delete_eq).
    destruct (findAll_miss_elem userId w' Hmiss)
      as (w'' & categories & Hall & Hin).
    exists w'', categories. split; [done|].
    apply Hin. simpl. rewrite Hw', lookup_insert_eq. split; [done|by left].
Qed.

Lemma created_category_is_listed_witness :
  ∃ w' e w'' categories,
    CategoriesService.create "user-1" example_create_category "cat-new"
      example_categories_world = (w', Ok e)
    ∧ CategoriesService.findAll "user-1" w' = (w'', Ok categories)
    ∧ e ∈ categories.
Proof.
  destruct (CategoriesService.create "user-1" example_create_category
              "cat-new" example_categories_world) as [w' [e|err]] eqn:Hrun;
    [|vm_compute in Hrun; discriminate].
  destruct (created_category_is_listed _ _ _ _ _ _ Hrun)
    as (_ & _ & _ & _ & _ & _ & w'' & categories & Hall & Hin).
  exists w', e, w'', categories.
  split; [reflexivity|]. split; [exact Hall|exact Hin].
Defined.

End CategoryList.

(** ** Seeding the system categories *)

Section Seeding.

Implicit Types (w : World) (c : Category.t)
  (catalogue : list (string * string * string * Z)).

Lemma findOneWhere_is_Some {R} (cond : Entity R → bool)
    (table : gmap string R) :
  is_Some (findOneWhere cond table)
  ↔ ∃ k r, table !! k = Some r ∧ cond (k, r) = true.
Proof.
  split.
  - intros [[k r] Hfind]. apply findOneWhere_Some in Hfind. by exists k, r.
  - intros (k & r & Hk & Hcond).
    destruct (findOneWhere cond table) eqn:Hfind; [done|].
    rewrite (findOneWhere_None _ _ k r Hfind Hk) in Hcond. done.
Qed.

Lemma findSystemByName_is_Some name w :
  is_Some (CategoriesService.findSystemByName name w)
  ↔ ∃ id c, categoryRepository w !! id = Some c
            ∧ Category.name c = name ∧ Category.isSystem c = true.
Proof.
  unfold CategoriesService.findSystemByName. rewrite findOneWhere_is_Some.
  split; intros (k & r & Hk & H); exists k, r; (split; [done|]); simpl in *.
  - apply andb_true_iff in H as [Hn Hs]. by apply eqb_true in Hn.
  - destruct H as [Hn Hs]. apply eqb_true in Hn. by rewrite Hn, Hs.
Qed.

(** When every name of the catalogue is there, the loop writes
    nothing. *)
Lemma seed_from_present newIds catalogue : ∀ i w,
  (∀ categoryData, categoryData ∈ catalogue →
     is_Some (CategoriesService.findSystemByName categoryData.1.1.1 w)) →
  CategoriesService.seed_from newIds i catalogue w = (w, Ok tt).
Proof.
  induction catalogue as [|categoryData rest IH]; intros i w Hall; [done|].
  cbn [CategoriesService.seed_from].
  unfold mbind at 1, M_bind at 1, get_world.
  unfold mbind at 1, M_bind at 1.
  destruct (Hall categoryData) as [e ->]; [by left|].
  munfold. apply IH. intros cd Hcd. apply Hall. by right.
Qed.

Lemma seed_from_spec newIds catalogue : ∀ i w,
  (∀ j, i ≤ j < i + length catalogue →
     categoryRepository w !! newIds j = None) →
  (∀ j k, i ≤ j < i + length catalogue → i ≤ k < i + length catalogue →
     newIds j = newIds k → j = k) →
  ∃ w',
    CategoriesService.seed_from newIds i catalogue w = (w', Ok tt)
    ∧ (∀ id c, categoryRepository w !! id = Some c →
         categoryRepository w' !! id = Some c)
    ∧ (∀ id c, categoryRepository w' !! id = Some c →
         categoryRepository w !! id = Some c
         ∨ (Category.isSystem c = true ∧ Category.userId c = None
            ∧ ∃ categoryData, categoryData ∈ catalogue
                ∧ Category.name c = categoryData.1.1.1
                ∧ Category.orderIndex c = categoryData.2))
    ∧ (∀ categoryData, categoryData ∈ catalogue →
         is_Some (CategoriesService.findSystemByName categoryData.1.1.1 w'))
    ∧ expenseRepository w' = expenseRepository w
    ∧ paymentMethodRepository w' = paymentMethodRepository w
    ∧ cacheManager w' = cacheManager w.
Proof.
  induction catalogue as [|categoryData rest IH]; intros i w Hfresh Hinj.
  { exists w. split; [done|]. split; [done|]. split; [by left|].
    split; [|done]. intros cd Hcd. by apply elem_of_nil in Hcd. }
  cbn [CategoriesService.seed_from].
  unfold mbind at 1, M_bind at 1, get_world.
  unfold mbind at 1, M_bind at 1.
  set (row := Category.mk categoryData.1.1.1 None (Some categoryData.1.1.2)
                categoryData.1.2 true categoryData.2 None).
  assert (∃ w1,
    (match CategoriesService.findSystemByName categoryData.1.1.1 w with
     | Some _ => mret tt
     | None => CategoriesService.insert (newIds i) row;; mret tt
     end) w = (w1, Ok tt)
    ∧ (w1 = w ∨ w1 = set_categoryRepository (<[newIds i := row]>) w)
    ∧ is_Some (CategoriesService.findSystemByName categoryData.1.1.1 w1))
    as (w1 & -> & Hw1 & Hthere).
  { destruct (CategoriesService.findSystemByName _ w) as [e|] eqn:Hfind.
    - exists w. split; [done|]. split; [by left|]. by rewrite Hfind.
    - unfold CategoriesService.insert. munfold.
      rewrite Hfresh by (simpl; lia).
      unfold CategoriesService.violatesIndex. simpl.
      eexists. split; [done|]. split; [by right|].
      apply findSystemByName_is_Some. exists (newIds i), row.
      simpl. by rewrite lookup_insert_eq. }
  cbn [fst snd].
  assert (Hmono : ∀ id c, categoryRepository w !! id = Some c →
                          categoryRepository w1 !! id = Some c).
  { intros id c Hc. destruct Hw1 as [->| ->]; [done|]. simpl.
    rewrite lookup_insert_ne; [done|]. intros <-.
    rewrite Hfresh in Hc by (simpl; lia). done. }
  destruct (IH (S i) w1) as (w' & Hrun & Hkeep & Hnew & Hall & He & Hp & Hk).
  { intros j Hj. destruct Hw1 as [->| ->]; [apply Hfresh; simpl; lia|].
    simpl. rewrite lookup_insert_ne; [apply Hfresh; simpl; lia|].
    intros Heq. apply Hinj in Heq; simpl; lia. }
  { intros j k Hj Hk. apply Hinj; simpl; lia. }
  exists w'. split; [done|]. split; [by auto|]. split; [|split].
  - intros id c Hc. destruct (Hnew id c Hc) as [Hc1|(Hs & Hu & cd & Hcd & Hn)].
    + destruct Hw1 as [->| ->]; [by left|]. simpl in Hc1.
      destruct (decide (newIds i = id)) as [<-|Hne].
      * rewrite lookup_insert_eq in Hc1. injection Hc1 as <-.
        right. split; [done|]. split; [done|].
        exists categoryData. split; [by left|done].
      * rewrite lookup_insert_ne in Hc1 by done. by left.
    + right. split; [done|]. split; [done|].
      exists cd. split; [by right|done].
  - intros cd Hcd. apply elem_of_cons in Hcd as [->|Hcd]; [|by apply Hall].
    apply findSystemByName_is_Some.
    apply findSystemByName_is_Some in Hthere as (id & c & Hc & Hn & Hs).
    exists id, c. split; [by apply Hkeep|done].
  - destruct Hw1 as [->| ->]; simpl in *; by rewrite He, Hp, Hk.
Qed.

(** X16.  With identifiers that are not in use and pairwise different,
    [createDefaultCategories] returns, and afterwards each of the eight
    names of the catalogue is the name of a system category; the
    categories that were stored are unchanged, what is new is a system
    category without owner from the catalogue; expenses, payment
    methods and the cache (the cached lists of [findAll] among it) are
    not touched; and running the seed again writes nothing. *)
Theorem createDefaultCategories_seeds
    (newIds : nat → string) (w : World) :
  (∀ j, j < 8 → categoryRepository w !! newIds j = None) →
  (∀ j k, j < 8 → k < 8 → newIds j = newIds k → j = k) →
  ∃ w',
    CategoriesService.createDefaultCategories newIds w = (w', Ok tt)
    ∧ (∀ name, name ∈ default_names →
         is_Some (CategoriesService.findSystemByName name w'))
    ∧ (∀ id c, categoryRepository w !! id = Some c →
         categoryRepository w' !! id = Some c)
    ∧ (∀ id c, categoryRepository w' !! id = Some c →
         categoryRepository w !! id = Some c
         ∨ (Category.isSystem c = true ∧ Category.userId c = None
            ∧ Category.name c ∈ default_names))
    ∧ expenseRepository w' = expenseRepository w
    ∧ paymentMethodRepository w' = paymentMethodRepository w
    ∧ cacheManager w' = cacheManager w
    ∧ ∀ otherIds,
        CategoriesService.createDefaultCategories otherIds w' = (w', Ok tt).
Proof.
  intros Hfresh Hinj. unfold CategoriesService.createDefaultCategories.
  destruct (seed_from_spec newIds CategoriesService.defaultCategories 0 w)
    as (w' & Hrun & Hkeep & Hnew & Hall & He & Hp & Hk).
  { intros j Hj. apply Hfresh. simpl in Hj. lia. }
  { intros j k Hj Hk. apply Hinj; simpl in *; lia. }
  exists w'. split; [done|]. split; [|split; [done|split]].
  - intros name Hname. unfold default_names in Hname.
    apply list_elem_of_fmap in Hname as (cd & -> & Hcd). by apply Hall.
  - intros id c Hc. destruct (Hnew id c Hc) as [?|(Hs & Hu & cd & Hcd & Hn & _)];
      [by left|right].
    split; [done|]. split; [done|]. rewrite Hn. unfold default_names.
    apply list_elem_of_fmap. by exists cd.
  - split; [done|]. split; [done|]. split; [done|].
    intros otherIds. by apply seed_from_present.
Qed.

Lemma createDefaultCategories_seeds_witness :
  ∃ w',
    CategoriesService.createDefaultCategories example_seed_ids
      example_categories_world = (w', Ok tt)
    ∧ is_Some (CategoriesService.findSystemByName "Otros" w')
    ∧ categoryRepository w' !! "cat-trips"
      = Some (example_category "Viajes" false 7 (Some "user-1")).
Proof.
  destruct (createDefaultCategories_seeds example_seed_ids
              example_categories_world) as (w' & Hrun & Hall & Hkeep & _).
  - intros j Hj.
    do 8 (destruct j as [|j]; [reflexivity|]). lia.
  - intros j k Hj Hk.
    do 8 (destruct j as [|j]; [do 8 (destruct k as [|k];
      [by (reflexivity || (intros Heq; vm_compute in Heq; discriminate))|]);
      lia|]). lia.
  - exists w'. split; [exact Hrun|]. split.
    + apply Hall. unfold default_names. simpl.
      do 7 apply list_elem_of_further. apply list_elem_of_here.
    + apply Hkeep. reflexivity.
Defined.

End Seeding.

(** ** Edits that move no money *)

Section UpdateBalances.

Implicit Types (w : World).

(** X18.  An [update] that leaves the amount and the payment method of
    the expense as they were (it edits description, notes, date or
    category, or repeats the old values) writes no payment method: all
    balances are what they were. *)
Theorem update_without_money_change_keeps_balances
    (userId id : string) (dto : UpdateExpenseDto.t) (w w' : World)
    (updated : Entity Expense.t) (old : Expense.t) :
  ExpensesService.update userId id dto w = (w', Ok updated) →
  expenseRepository w !! id = Some old →
  Expense.amount updated.2 = Expense.amount old →
  Expense.paymentMethodId updated.2 = Expense.paymentMethodId old →
  paymentMethodRepository w' = paymentMethodRepository w.
Proof.
  unfold ExpensesService.update. intros H Hold Hamount Hmethod.
  apply bind_Ok in H as (w1 & [id' old'] & Hfind & H).
  apply ex_findOne_Ok in Hfind as (-> & Hid & Hold' & Hu).
  simpl in Hid, Hold', Hu. subst id'.
  assert (old' = old) as -> by congruence.
  apply bind_Ok in H as (w1 & [] & Hcat & H).
  assert (w1 = w) as ->.
  { destruct (opt_truthy (UpdateExpenseDto.categoryId dto)).
    - apply bind_Ok in Hcat as (w2 & c & Hc & Hret).
      apply cat_findOne_Ok in Hc as ->. by apply ret_Ok in Hret as [-> _].
    - by apply ret_Ok in Hcat as [-> _]. }
  apply bind_Ok in H as (w1 & [] & Hpm & H).
  assert (w1 = w) as ->.
  { destruct (opt_truthy (UpdateExpenseDto.paymentMethodId dto)).
    - apply bind_Ok in Hpm as (w2 & c & Hc & Hret).
      apply pm_findOne_Ok in Hc as (-> & _). by apply ret_Ok in Hret as [-> _].
    - by apply ret_Ok in Hpm as [-> _]. }
  apply bind_Ok in H as (w1 & saved & Hsave & H).
  destruct (ex_save_cases id (ExpensesService.assignDto dto old) old w Hold)
    as [[err Hs]|(amount & _ & Hs)]; cbn [fst snd] in Hsave;
    rewrite Hs in Hsave; [done|].
  injection Hsave as <- <-.
  apply bind_Ok in H as (w2 & [] & Hbal & H).
  apply bind_Ok in H as (w3 & [] & Hinv & H).
  apply ret_Ok in H as [-> ->].
  unfold ExpensesService.invalidateCache in Hinv. munfold.
  injection Hinv as <-.
  simpl in Hamount, Hmethod, Hbal.
  rewrite bool_decide_eq_false_2 in Hbal by (intros Hne; by apply Hne).
  rewrite (proj2 (eqb_true _ _) (eq_sym Hmethod)) in Hbal. simpl in Hbal.
  by injection Hbal as <-.
Qed.

Lemma update_without_money_change_keeps_balances_witness :
  ∃ w' updated,
    ExpensesService.update "user-1" "exp-1"
      (UpdateExpenseDto.mk None (Some "Feria") None None None None)
      example_months_world = (w', Ok updated)
    ∧ paymentMethodRepository w'
      = paymentMethodRepository example_months_world.
Proof.
  destruct (ExpensesService.update "user-1" "exp-1"
              (UpdateExpenseDto.mk None (Some "Feria") None None None None)
              example_months_world) as [w' [updated|err]] eqn:Hrun;
    [|vm_compute in Hrun; discriminate].
  exists w', updated. split; [reflexivity|].
  destruct (update_Ok _ _ _ _ _ _ Hrun) as (old & amount & Hold & _ & -> & _).
  apply (update_without_money_change_keeps_balances _ _ _ _ _ _ old Hrun Hold);
    reflexivity.
Defined.

End UpdateBalances.
